(** * Chess-Robot-Arm: state fusion, move inference and move execution

    A shallow embedding of the detection loop ([findPieces] and its helpers
    [calculateScore], [processState], [getUpdate], [updateState]) and of the
    robot move executor ([addToPieceBaseBuffer], [sendCommand],
    [executeCommand], [executeRobotMove]), followed by the properties the
    specification states about them.

    JavaScript numbers.  The functions are written once, over an interface
    [JsNum] of the arithmetic they use, and instantiated twice:
    - [number]: the IEEE special values ([Infinity], [-Infinity], [NaN])
      around exact rational arithmetic on the finite values.  Rounding and
      the sign of zero are abstracted away; the general theorems are proved
      on this instance.
    - [float]: Rocq's primitive binary64 numbers, the arithmetic the
      program runs on.  The concrete scenarios are replayed on it. *)

From Stdlib Require Import QArith Qminmax Lqa Floats.
From stdpp Require Import gmap strings list fin_maps.

Set Default Proof Using "Type".

(** ** Abrupt completion *)

Inductive exn : Type :=
| TypeError                (* property access on [undefined] *)
| Error (msg : string)     (* [throw new Error(msg)] *)
| IllegalMove              (* chess.js [move] on a notation that is not legal *)
| WsError.                 (* the WebSocket [error] event, or its constructor throwing *)

Inductive completion (A : Type) : Type :=
| Normal (a : A)
| Throw (e : exn).
Arguments Normal {A} a.
Arguments Throw {A} e.

#[export] Instance completion_ret : MRet completion := @Normal.
#[export] Instance completion_bind : MBind completion :=
  fun A B f m => match m with Normal a => f a | Throw e => Throw e end.

(** [state[i]] where a later property access follows: a missing row throws. *)
Definition defined {A} (o : option A) : completion A :=
  match o with Some a => Normal a | None => Throw TypeError end.

(** Array access by a JavaScript number that holds an integer. *)
Definition index {A} (l : list A) (i : Z) : option A :=
  if (i <? 0)%Z then None else l !! Z.to_nat i.

(** ** Numbers *)

Class JsNum (num : Type) : Type := {
  lit : Q -> num;                 (* a numeric literal such as [0.6] *)
  neg_infinity : num;             (* [Number.NEGATIVE_INFINITY] *)
  nan : num;                      (* what [undefined] coerces to *)
  nadd : num -> num -> num;
  nsub : num -> num -> num;
  nmul : num -> num -> num;
  ndiv : num -> num -> num;
  ngtb : num -> num -> bool;      (* [a > b] *)
  nmax : num -> num -> num        (* [Math.max(a, b)] *)
}.

Declare Scope js_scope.
Delimit Scope js_scope with js.
Infix "+" := nadd : js_scope.
Infix "-" := nsub : js_scope.
Infix "*" := nmul : js_scope.
Infix "/" := ndiv : js_scope.
Infix ">?" := ngtb (at level 70, no associativity) : js_scope.
Notation "a <? b" := (ngtb b a) : js_scope.

(** The length of an array, as a number. *)
Definition of_nat {num : Type} `{!JsNum num} (n : nat) : num := lit (inject_Z (Z.of_nat n)).

(** *** Exact arithmetic with the IEEE special values *)

Inductive number : Type :=
| Fin (q : Q)
| PosInf
| NegInf
| NaN.

Module JS.

#[local] Open Scope Q_scope.

Definition add (a b : number) : number :=
  match a, b with
  | NaN, _ | _, NaN => NaN
  | Fin p, Fin q => Fin (p + q)
  | PosInf, NegInf | NegInf, PosInf => NaN
  | PosInf, _ | _, PosInf => PosInf
  | NegInf, _ | _, NegInf => NegInf
  end.

Definition sub (a b : number) : number :=
  match a, b with
  | NaN, _ | _, NaN => NaN
  | Fin p, Fin q => Fin (p - q)
  | PosInf, PosInf | NegInf, NegInf => NaN
  | PosInf, _ | _, NegInf => PosInf
  | NegInf, _ | _, PosInf => NegInf
  end.

(** The product of an infinity with a finite factor takes the sign of the
    product, and is [NaN] for a zero factor. *)
Definition scale_inf (positive : bool) (p : Q) : number :=
  match p ?= 0 with
  | Gt => if positive then PosInf else NegInf
  | Lt => if positive then NegInf else PosInf
  | Eq => NaN
  end.

Definition mul (a b : number) : number :=
  match a, b with
  | NaN, _ | _, NaN => NaN
  | Fin p, Fin q => Fin (p * q)
  | Fin p, PosInf | PosInf, Fin p => scale_inf true p
  | Fin p, NegInf | NegInf, Fin p => scale_inf false p
  | PosInf, PosInf | NegInf, NegInf => PosInf
  | PosInf, NegInf | NegInf, PosInf => NegInf
  end.

Definition div (a b : number) : number :=
  match a, b with
  | NaN, _ | _, NaN => NaN
  | Fin p, Fin q =>
      match q ?= 0 with
      | Eq => match p ?= 0 with Gt => PosInf | Lt => NegInf | Eq => NaN end
      | _ => Fin (p / q)
      end
  | Fin _, (PosInf | NegInf) => Fin 0
  | PosInf, Fin q => match q ?= 0 with Lt => NegInf | _ => PosInf end
  | NegInf, Fin q => match q ?= 0 with Lt => PosInf | _ => NegInf end
  | (PosInf | NegInf), (PosInf | NegInf) => NaN
  end.

Definition gtb (a b : number) : bool :=
  match a, b with
  | NaN, _ | _, NaN => false
  | Fin p, Fin q => match p ?= q with Gt => true | _ => false end
  | PosInf, PosInf | NegInf, _ => false
  | PosInf, _ => true
  | Fin _, PosInf => false
  | Fin _, NegInf => true
  end.

Definition max (a b : number) : number :=
  match a, b with
  | NaN, _ | _, NaN => NaN
  | _, _ => if gtb b a then b else a
  end.

End JS.

#[export] Instance exact : JsNum number := {|
  lit := Fin;
  neg_infinity := NegInf;
  nan := NaN;
  nadd := JS.add;
  nsub := JS.sub;
  nmul := JS.mul;
  ndiv := JS.div;
  ngtb := JS.gtb;
  nmax := JS.max
|}.

(** Equality of numbers up to the representation of the rational. *)
Definition num_eq (a b : number) : Prop :=
  match a, b with
  | Fin p, Fin q => (p == q)%Q
  | PosInf, PosInf | NegInf, NegInf | NaN, NaN => True
  | _, _ => False
  end.
Infix "≈" := num_eq (at level 70, no associativity).

(** A finite number between 0 and 1. *)
Definition unit_interval (a : number) : Prop :=
  match a with Fin q => (0 <= q /\ q <= 1)%Q | _ => False end.

Definition is_finite (a : number) : Prop :=
  match a with Fin _ => True | _ => False end.

(** *** binary64 *)

Module Binary64.

Definition of_Z (z : Z) : float :=
  match z with
  | Z0 => PrimFloat.zero
  | Zpos _ => PrimFloat.of_uint63 (Uint63.of_Z z)
  | Zneg _ => PrimFloat.opp (PrimFloat.of_uint63 (Uint63.of_Z (Z.opp z)))
  end.

(** A decimal literal denotes the double nearest to its value, which is
    what the correctly rounded quotient of two exactly represented
    integers computes. *)
Definition of_Q (q : Q) : float :=
  PrimFloat.div (of_Z (Qnum q)) (of_Z (Zpos (Qden q))).

Definition max (a b : float) : float :=
  if PrimFloat.is_nan a || PrimFloat.is_nan b then PrimFloat.nan
  else if PrimFloat.ltb a b then b else a.

End Binary64.

#[export] Instance binary64 : JsNum float := {|
  lit := Binary64.of_Q;
  neg_infinity := PrimFloat.neg_infinity;
  nan := PrimFloat.nan;
  nadd := PrimFloat.add;
  nsub := PrimFloat.sub;
  nmul := PrimFloat.mul;
  ndiv := PrimFloat.div;
  ngtb := fun a b => PrimFloat.ltb b a;
  nmax := Binary64.max
|}.

(** ** Data model ([types.tsx]) *)

Record MovesData : Type := {
  sans : list string;
  from : list Z;
  to : list Z;
  targets : list Z
}.

Record MovesPair : Type := {
  move1 : MovesData;
  move2 : option MovesData;
  moves : option MovesData
}.

Inductive Mode : Type := record | upload | analyze | play.

#[export] Instance Mode_eq_dec : EqDecision Mode.
Proof. solve_decision. Defined.

(** [move.sans[0]], used as a key of sets and objects.  A candidate
    generated by the rules engine always carries its notation; a missing
    one would be the key [undefined]. *)
Definition san0 (m : MovesData) : string := default "undefined" (head (sans m)).

Fixpoint foldM {A B} (f : B -> A -> completion B) (b : B) (l : list A) : completion B :=
  match l with
  | [] => Normal b
  | a :: l => b' ← f b a; foldM f b' l
  end.

(** *** The [in] operator

    [key in obj] asks whether [obj] has a property named [key], own or
    inherited.  The elements of a [Set] are not properties of it, so on a
    [Set] the answer depends on the prototype chain alone. *)

Definition Object_prototype_keys : list string :=
  ["constructor"; "__defineGetter__"; "__defineSetter__"; "hasOwnProperty";
   "__lookupGetter__"; "__lookupSetter__"; "isPrototypeOf";
   "propertyIsEnumerable"; "toString"; "valueOf"; "__proto__";
   "toLocaleString"].

Definition Set_prototype_keys : list string :=
  ["constructor"; "has"; "add"; "delete"; "clear"; "entries"; "forEach";
   "size"; "values"; "keys"; "union"; "intersection"; "difference";
   "symmetricDifference"; "isSubsetOf"; "isSupersetOf"; "isDisjointFrom"].

Definition inherited (keys : list string) (key : string) : bool :=
  bool_decide (key ∈ keys).

Definition in_Set (key : string) (s : gset string) : bool :=
  inherited (Set_prototype_keys ++ Object_prototype_keys) key.

Definition in_object {V} (key : string) (o : gmap string V) : bool :=
  bool_decide (is_Some (o !! key)) || inherited Object_prototype_keys key.

(** The belief state and the detection update: an array of rows. *)
Abbreviation grid num := (list (list num)) (only parsing).

Section Fusion.

Context {num : Type} `{!JsNum num}.
#[local] Open Scope js_scope.

(** Modelled from the spec: [zeros] of [utils/math] is not part of the
    sources at hand; the belief state and the detection update start as a
    fully populated all-zero grid of the given shape. *)
Definition zeros (rows cols : nat) : grid num := replicate rows (replicate cols (lit 0)).

(** [row[j]] read as a number: a missing entry is [undefined]. *)
Definition entry (row : list num) (j : Z) : num := default nan (index row j).

(** [Math.max(...row)] *)
Definition Math_max (row : list num) : num := fold_left nmax row neg_infinity.

(** [g[i][j]] read as a number, where row [i] exists. *)
Definition cell (g : grid num) (i j : Z) : num := from_option (fun row => entry row j) nan (index g i).

(** *** Candidate move scorer *)

Definition calculateScore (state : grid num) (move : MovesData) (from_thr to_thr : num)
  : completion num :=
  score ← foldM (fun score square =>
                   row ← defined (index state square);
                   mret (score + (lit 1 - Math_max row - from_thr)))
                (lit 0) (from move);
  foldM (fun score '(i, square) =>
           row ← defined (index state square);
           let target := from_option (entry row) nan (targets move !! i) in
           mret (score + (target - to_thr)))
        score (imap pair (to move)).

(** The thresholds' default values. *)
Definition thr : num := lit (6 # 10).

(** *** Score accumulator *)

(** [update[square][j] = Math.max(update[square][j], scores[i][j])] for
    [j] from 0 to 11, on a row of the update. *)
Definition merge_box (row box : list num) : list num :=
  fold_left (fun row j => <[j := nmax (entry row (Z.of_nat j)) (entry box (Z.of_nat j))]> row)
            (seq 0 12) row.

Definition getUpdate (scores : list (list num)) (squares : list Z) : completion (grid num) :=
  foldM (fun update '(i, square) =>
           if (square =? -1)%Z then mret update
           else
             row ← defined (index update square);
             box ← defined (scores !! i);
             mret (<[Z.to_nat square := merge_box row box]> update))
        (zeros 64 12) (imap pair squares).

(** The inner loop of [updateState]: entries 0 to 11 of the row are
    overwritten, a shorter row grows, a longer one keeps its tail. *)
Definition update_row (decay : num) (srow urow : list num) : list num :=
  ((fun j => decay * entry srow (Z.of_nat j) + (lit 1 - decay) * entry urow (Z.of_nat j))
     <$> seq 0 12)
  ++ drop 12 srow.

Definition updateState (state update : grid num) (decay : num) : completion (grid num) :=
  rows ← foldM (fun done i =>
                  srow ← defined (state !! i);
                  urow ← defined (update !! i);
                  mret (done ++ [update_row decay srow urow]))
               [] (seq 0 64);
  mret (rows ++ drop 64 state).

(** *** Move selection: the scoring pass *)

Record Scan : Type := {
  bestScore1 : num;
  bestScore2 : num;
  bestJointScore : num;
  bestMove : option MovesData;
  bestMoves : option MovesData;
  seen : gset string;
  possible : gset string;      (* [possibleMoves], mutated by the pass *)
  scored : list string         (* ghost: the first moves scored, in order *)
}.

Definition score_first (state : grid num) (s : Scan) (m1 : MovesData) : completion Scan :=
  if negb (in_Set (san0 m1) (seen s)) then
    score ← calculateScore state m1 thr thr;
    let possible' := if score >? lit 0 then {[san0 m1]} ∪ possible s else possible s in
    let better := score >? bestScore1 s in
    mret {| bestScore1 := if better then score else bestScore1 s;
            bestScore2 := bestScore2 s;
            bestJointScore := bestJointScore s;
            bestMove := if better then Some m1 else bestMove s;
            bestMoves := bestMoves s;
            seen := {[san0 m1]} ∪ seen s;
            possible := possible';
            scored := scored s ++ [san0 m1] |}
  else mret s.

Definition score_pair (state : grid num) (s : Scan) (m1 m2 ms : MovesData) : completion Scan :=
  score2 ← calculateScore state m2 thr thr;
  if score2 <? lit 0 then mret s
  else
    let best2 := if score2 >? bestScore2 s then score2 else bestScore2 s in
    jointScore ← calculateScore state ms thr thr;
    let better := jointScore >? bestJointScore s in
    mret {| bestScore1 := bestScore1 s;
            bestScore2 := best2;
            bestJointScore := if better then jointScore else bestJointScore s;
            bestMove := bestMove s;
            bestMoves := if better then Some ms else bestMoves s;
            seen := seen s;
            possible := possible s;
            scored := scored s |}.

Definition process_pair (state : grid num) (s : Scan) (movePair : MovesPair) : completion Scan :=
  s ← score_first state s (move1 movePair);
  match move2 movePair, moves movePair with
  | Some m2, Some ms =>
      if bool_decide (san0 (move1 movePair) ∈ possible s)
      then score_pair state s (move1 movePair) m2 ms
      else mret s
  | _, _ => mret s
  end.

Definition processState (state : grid num) (movesPairs : list MovesPair)
    (possibleMoves : gset string) : completion Scan :=
  foldM (process_pair state)
        {| bestScore1 := neg_infinity; bestScore2 := neg_infinity;
           bestJointScore := neg_infinity; bestMove := None; bestMoves := None;
           seen := ∅; possible := possibleMoves; scored := [] |}
        movesPairs.

End Fusion.

Arguments Scan num : clear implicits.

(** ** The rules engine (chess.js), as the loop uses it *)

Class ChessJs (Board : Type) : Type := {
  chess_move : Board -> string -> option Board;   (* [None]: the move throws *)
  chess_undo : Board -> Board;
  chess_last_lan : Board -> string;               (* [lan] of the last entry of the history *)
  chess_undo_move : forall b san b', chess_move b san = Some b' -> chess_undo b' = b
}.

Section Loop.

Context {num : Type} `{!JsNum num} {Board : Type} `{!ChessJs Board}.
#[local] Open Scope js_scope.

Definition board_move (board : Board) (san : string) : completion Board :=
  match chess_move board san with
  | Some board' => Normal board'
  | None => Throw IllegalMove
  end.

(** Returns the notation and the board as the call leaves it. *)
Definition sanToLan (board : Board) (san : string) : completion (string * Board) :=
  board ← board_move board san;
  let lan := chess_last_lan board in
  mret (lan, chess_undo board).

(** The variables of the closure that live across iterations, from the
    iteration that computes the centers on. *)
Record Tracking : Type := {
  state : grid num;
  possibleMoves : gset string;
  greedyMoveToTime : gmap string num
}.

(** What an iteration reads from its surroundings. *)
Record Frame : Type := {
  scores : list (list num);      (* the detector's class scores, one row per box *)
  squares : list Z;              (* [getSquares]: the square of each box, or -1 *)
  movesPairs : list MovesPair;   (* [movesPairsRef.current] *)
  board : Board;                 (* [boardRef.current] *)
  lastMove : string;             (* [lastMoveRef.current] *)
  endTime : num                  (* [performance.now()] after the scoring pass *)
}.

(** What an iteration leaves behind. *)
Record Cycle : Type := {
  scan : Scan num;
  tracking : Tracking;
  board_after : Board;
  hasMove : bool;
  hasGreedyMove : bool;
  dispatched : option (Board * bool)   (* [makeUpdatePayload(board, greedy)] *)
}.

Definition fresh : Tracking :=
  {| state := zeros 64 12; possibleMoves := ∅; greedyMoveToTime := ∅ |}.

(** The confirmed-pair block. *)
Definition confirmed_pair (mode : Mode) (s : Scan num) (board : Board)
    (possibleMoves : gset string) (timers : gmap string num)
  : completion (bool * Board * gset string * gmap string num) :=
  match bestMoves s with
  | Some joint =>
      if bool_decide (mode ≠ play) then
        let move := san0 joint in
        let hasMove := (bestScore2 s >? lit 0) && (bestJointScore s >? lit 0)
                       && bool_decide (move ∈ possibleMoves) in
        if hasMove then
          board ← board_move board move;
          mret (true, board, ∅, ∅)
        else mret (false, board, possibleMoves, timers)
      else mret (false, board, possibleMoves, timers)
  | None => mret (false, board, possibleMoves, timers)
  end.

(** [if (!(move in greedyMoveToTime)) greedyMoveToTime[move] = endTime] *)
Definition first_seen (move : string) (endTime : num) (timers : gmap string num)
  : gmap string num :=
  if negb (in_object move timers) then <[move := endTime]> timers else timers.

(** The greedy block. *)
Definition greedy (s : Scan num) (hasMove : bool) (board : Board) (lastMove : string)
    (endTime : num) (timers : gmap string num)
  : completion (bool * Board * gmap string num) :=
  match bestMove s with
  | Some best =>
      if negb hasMove && (bestScore1 s >? lit 0) then
        let move := san0 best in
        let timers := first_seen move endTime timers in
        (* an inherited property is not a number: the difference is NaN *)
        let secondElapsed :=
          match timers !! move with
          | Some first => (endTime - first) >? lit 1000
          | None => false
          end in
        '(lan, board) ← sanToLan board move;
        let newMove := bool_decide (lan ≠ lastMove) in
        if secondElapsed && newMove then
          board ← board_move board move;
          mret (true, board, from_option (fun first => {[ "greedyMove" := first ]}) ∅ (timers !! move))
        else mret (false, board, timers)
      else mret (false, board, timers)
  | None => mret (false, board, timers)
  end.

(** One iteration of [loop] on a valid video frame. *)
Definition iteration (mode : Mode) (tr : Tracking) (f : Frame) : completion Cycle :=
  update ← getUpdate (scores f) (squares f);
  state ← updateState (state tr) update (lit (1 # 2));
  s ← processState state (movesPairs f) (possibleMoves tr);
  '(hasMove, board, possibleMoves, timers) ←
    confirmed_pair mode s (board f) (possible s) (greedyMoveToTime tr);
  '(hasGreedyMove, board, timers) ←
    greedy s hasMove board (lastMove f) (endTime f) timers;
  let dispatched :=
    if hasMove || hasGreedyMove then
      (* No takebacks in "play" mode *)
      let greedy := if bool_decide (mode = play) then false else hasGreedyMove in
      Some (board, greedy)
    else None in
  mret {| scan := s;
          tracking := {| state := state; possibleMoves := possibleMoves;
                         greedyMoveToTime := timers |};
          board_after := board;
          hasMove := hasMove;
          hasGreedyMove := hasGreedyMove;
          dispatched := dispatched |}.

(** The loop over the frames it is scheduled on.  A frame [None] stands
    for an iteration that finds [playingRef.current === false] or an
    invalid video: it forgets the centers, so that the next valid frame
    starts from [fresh].  An iteration that throws rejects the promise of
    [loop] before it reschedules itself: no later frame is processed. *)
Inductive LoopState : Type :=
| waiting                      (* [centers === null] *)
| live (tr : Tracking)
| stopped.

Definition step (mode : Mode) (s : LoopState) (f : option Frame)
  : LoopState * option Cycle :=
  match s, f with
  | stopped, _ => (stopped, None)
  | _, None => (waiting, None)
  | _, Some f =>
      let tr := match s with live tr => tr | _ => fresh end in
      match iteration mode tr f with
      | Normal c => (live (tracking c), Some c)
      | Throw _ => (stopped, None)
      end
  end.

(** The outcome of each frame, in order. *)
Fixpoint run (mode : Mode) (s : LoopState) (frames : list (option Frame))
  : list (option Cycle) :=
  match frames with
  | [] => []
  | f :: frames => let '(s, c) := step mode s f in c :: run mode s frames
  end.

End Loop.

Arguments Tracking num : clear implicits.
Arguments Frame num Board : clear implicits.
Arguments Cycle num Board : clear implicits.
Arguments LoopState num : clear implicits.


(** ** Piece-base coordinate averaging *)

Module Averager.
Section Averager.

Context {num : Type} `{!JsNum num}.
#[local] Open Scope js_scope.

(** [CONFIG.FRAMES_TO_AVERAGE] *)
Definition FRAMES_TO_AVERAGE : nat := 5.

(** *** [robotMoveExecutor]: the buffers keyed by move *)

Record PieceBaseBuffer : Type := {
  sourcePieceBase : list (list num);
  capturedPieceBase : list (list num);
  frameCount : nat
}.

Record Averaged : Type := {
  sourceAvg : option (list num);
  capturedAvg : option (list num);
  ready : bool
}.

(** [coords.reduce((acc, coord) => [acc[0] + coord[0], acc[1] + coord[1]], [0, 0])] *)
Definition sum_coordinates (coords : list (list num)) : num * num :=
  fold_left (fun acc coord => (acc.1 + entry coord 0, acc.2 + entry coord 1))
            coords (lit 0, lit 0).

Definition averageCoordinates (coords : list (list num)) : list num :=
  if decide (length coords = 0%nat) then [lit 0; lit 0]
  else
    let sum := sum_coordinates coords in
    [sum.1 / of_nat (length coords); sum.2 / of_nat (length coords)].

Definition addToPieceBaseBuffer (moveKey : string) (sourcePieceBase' : list num)
    (capturedPieceBase' : option (list num))
    (pieceBaseBuffers : gmap string PieceBaseBuffer)
  : gmap string PieceBaseBuffer * Averaged :=
  let buffer := default {| sourcePieceBase := []; capturedPieceBase := []; frameCount := 0 |}
                        (pieceBaseBuffers !! moveKey) in
  let buffer :=
    {| sourcePieceBase := sourcePieceBase buffer ++ [sourcePieceBase'];
       capturedPieceBase := match capturedPieceBase' with
                            | Some c => capturedPieceBase buffer ++ [c]
                            | None => capturedPieceBase buffer
                            end;
       frameCount := S (frameCount buffer) |} in
  if decide (FRAMES_TO_AVERAGE <= frameCount buffer)%nat then
    (delete moveKey pieceBaseBuffers,
     {| sourceAvg := Some (averageCoordinates (sourcePieceBase buffer));
        capturedAvg := if decide (0 < length (capturedPieceBase buffer))%nat
                       then Some (averageCoordinates (capturedPieceBase buffer))
                       else None;
        ready := true |})
  else
    (<[moveKey := buffer]> pieceBaseBuffers,
     {| sourceAvg := None; capturedAvg := None; ready := false |}).

Definition clearPieceBaseBuffer (moveKey : string)
    (pieceBaseBuffers : gmap string PieceBaseBuffer) : gmap string PieceBaseBuffer :=
  delete moveKey pieceBaseBuffers.

(** Feeding one observation per frame, from the first to the last. *)
Fixpoint feed (moveKey : string) (frames : list (list num * option (list num)))
    (pieceBaseBuffers : gmap string PieceBaseBuffer) : list Averaged :=
  match frames with
  | [] => []
  | (s, c) :: frames =>
      let '(buffers, r) := addToPieceBaseBuffer moveKey s c pieceBaseBuffers in
      r :: feed moveKey frames buffers
  end.

(** *** [findPieces]: the buffer of the detection loop *)

Record LoopBuffer : Type := {
  source : list (list num);
  captured : list (list num);
  moveKey : string;
  collecting : bool;
  framesCollected : nat
}.

Definition empty_buffer : LoopBuffer :=
  {| source := []; captured := []; moveKey := ""; collecting := false;
     framesCollected := 0 |}.

(** What the loop stores in [stockfishMoveRef.current] together with
    [readyForExecution: true]. *)
Record Ready : Type := {
  averagedSourcePieceBase : list num;
  averagedCapturedPieceBase : option (list num);
  collectedFrames : nat
}.

(** [sum.map(val => val / coords.length)] *)
Definition mean (coords : list (list num)) : list num :=
  let sum := sum_coordinates coords in
  [sum.1 / of_nat (length coords); sum.2 / of_nat (length coords)].

(** The block of the loop that collects the coordinates of the engine's
    move [move], on a frame where the indices of its squares are valid.
    [sourcePieceBaseCoord] is the detected base on the source square, if
    a box was assigned to it in this frame. *)
Definition collect (move : string) (sourcePieceBaseCoord : option (list num))
    (isCapture : bool) (capturedPieceBaseCoord : option (list num))
    (pieceBaseBuffer : LoopBuffer) (pieceBaseBuffers : gmap string PieceBaseBuffer)
  : LoopBuffer * gmap string PieceBaseBuffer * option Ready :=
  match sourcePieceBaseCoord with
  | None => (pieceBaseBuffer, pieceBaseBuffers, None)
  | Some coord =>
      let '(b, buffers) :=
        if bool_decide (moveKey pieceBaseBuffer ≠ move)
        then ({| source := []; captured := []; moveKey := move; collecting := true;
                 framesCollected := 0 |},
              clearPieceBaseBuffer move pieceBaseBuffers)
        else (pieceBaseBuffer, pieceBaseBuffers) in
      if collecting b && bool_decide (framesCollected b < 5)%nat then
        let source' := source b ++ [coord] in
        let captured' := match capturedPieceBaseCoord with
                         | Some c => if isCapture then captured b ++ [c] else captured b
                         | None => captured b
                         end in
        let frames := S (framesCollected b) in
        if bool_decide (5 <= frames)%nat then
          ({| source := source'; captured := captured'; moveKey := moveKey b;
              collecting := false; framesCollected := frames |},
           buffers,
           Some {| averagedSourcePieceBase := mean source';
                   averagedCapturedPieceBase :=
                     if bool_decide (5 <= length captured')%nat
                     then Some (mean captured') else None;
                   collectedFrames := frames |})
        else
          ({| source := source'; captured := captured'; moveKey := moveKey b;
              collecting := collecting b; framesCollected := frames |},
           buffers, None)
      else (b, buffers, None)
  end.

(** The loop on successive frames of one engine move. *)
Fixpoint collect_frames (move : string) (isCapture : bool)
    (frames : list (option (list num) * option (list num)))
    (pieceBaseBuffer : LoopBuffer) (pieceBaseBuffers : gmap string PieceBaseBuffer)
  : list (option Ready) :=
  match frames with
  | [] => []
  | (s, c) :: frames =>
      let '(b, buffers, r) := collect move s isCapture c pieceBaseBuffer pieceBaseBuffers in
      r :: collect_frames move isCapture frames b buffers
  end.

End Averager.

Arguments PieceBaseBuffer num : clear implicits.
Arguments Averaged num : clear implicits.
Arguments LoopBuffer num : clear implicits.
Arguments Ready num : clear implicits.

End Averager.

(** ** Move execution *)

Module Executor.
Section Executor.

Context {num : Type} `{!JsNum num}.
#[local] Open Scope js_scope.

Record Pose : Type := {
  x : option num; y : option num; z : option num;
  rx : option num; ry : option num; rz : option num
}.

Inductive MoveType : Type := clearance | vertical.
Inductive Action : Type := open | close | stop | move_to_width.

(** The two shapes of [RobotMoveCommand] the executor builds. *)
Inductive RobotMoveCommand : Type :=
| move (pose : option Pose) (moveType : MoveType)
| gripper (action : Action) (width_mm force_n speed_percent : num).

Record MoveExecutionData : Type := {
  sourceSquare : Z;
  destSquare : Z;
  sourcePieceBaseCamera : option (list num);
  capturedPieceBaseCamera : option (list num);
  isCapture : bool;
  uciMove : string
}.

(** [CONFIG] *)
Definition PICKUP_Z : num := lit (194 # 1000).
Definition CLEARANCE_Z : num := lit (240 # 1000).
Definition GRIPPER_OPEN_WIDTH_MM : num := lit 20.
Definition GRIPPER_CLOSE_WIDTH_MM : num := lit (3 # 10).
Definition GRIPPER_FORCE_N : num := lit 20.
Definition GRIPPER_SPEED_PERCENT : num := lit 50.

(** What [transformPoses] leaves on [window]. *)
Record ChessboardPoses : Type := {
  home : option Pose;
  drop_ : option Pose;          (* [chessboardPoses.drop] *)
  corners : list Pose
}.

Record Window : Type := {
  getSquarePose : option (Z -> option (list num));
  getFullRobotPose : bool;       (* whether the function is there *)
  chessboardPoses : option ChessboardPoses
}.

Definition getHomePose (window : Window) : option Pose :=
  match chessboardPoses window with
  | Some poses => home poses
  | None => Some {| x := Some (lit (4 # 10)); y := Some (lit 0); z := Some (lit (3 # 10));
                    rx := Some (lit (2205 # 1000)); ry := Some (lit (- 2277 # 1000));
                    rz := Some (lit (16 # 1000)) |}
  end.

Definition getDropPose (window : Window) : option Pose :=
  match chessboardPoses window with
  | Some poses => drop_ poses
  | None => Some {| x := Some (lit (3 # 10)); y := Some (lit (- 2 # 10)); z := Some (lit (28 # 100));
                    rx := Some (lit (2205 # 1000)); ry := Some (lit (- 2277 # 1000));
                    rz := Some (lit (16 # 1000)) |}
  end.

(** *** The bridge

    What happens to the WebSocket a command is sent on, in milliseconds
    from its construction. *)
Record WebSocket : Type := {
  constructor_throws : bool;
  opens_after : option N;
  error_after : option N
}.

Inductive Settled : Type :=
| Resolved (after : N)
| Rejected (after : N).

(** The promise of [sendCommand]: it resolves 500 ms after the socket
    opens or after 1000 ms, whichever comes first, and rejects when the
    [error] event comes before that. *)
Definition sendCommand (ws : WebSocket) : Settled :=
  if constructor_throws ws then Rejected 0
  else
    let resolve_after :=
      match opens_after ws with
      | Some t => N.min (t + 500) 1000
      | None => 1000%N
      end in
    match error_after ws with
    | Some e => if (e <? resolve_after)%N then Rejected e else Resolved resolve_after
    | None => Resolved resolve_after
    end.

(** The command is resolved by the fallback timer, not by the timer that
    follows the opening of the socket. *)
Definition timed_out (ws : WebSocket) : bool :=
  match sendCommand ws, opens_after ws with
  | Resolved _, Some t => (1000 <? t + 500)%N
  | Resolved _, None => true
  | Rejected _, _ => false
  end.

(** *** The sequencer, over the clock and the log of the commands issued *)

Record Issued : Type := {
  issued_at : N;
  command : RobotMoveCommand;
  delay : N;
  settled : Settled
}.

Record Execution : Type := {
  clock : N;
  issued : list Issued
}.

Definition Exec (A : Type) : Type := Execution -> Execution * completion A.

Definition andThen {A B} (m : Exec A) (k : A -> Exec B) : Exec B :=
  fun e => match m e with
           | (e, Normal a) => k a e
           | (e, Throw err) => (e, Throw err)
           end.

Definition throw {A} (err : exn) : Exec A := fun e => (e, Throw err).

#[export] Instance Exec_bind : MBind Exec := fun A B k m => andThen m k.

(** [bridge n] is the socket of the command issued after [n] others. *)
Definition executeCommand (bridge : nat -> WebSocket) (command : RobotMoveCommand)
    (delay : N) : Exec unit :=
  fun e =>
    let ws := bridge (length (issued e)) in
    let log := issued e ++ [{| issued_at := clock e; command := command; delay := delay;
                               settled := sendCommand ws |}] in
    match sendCommand ws with
    | Resolved t => ({| clock := clock e + t + delay; issued := log |}, Normal tt)
    | Rejected t => ({| clock := clock e + t; issued := log |}, Throw WsError)
    end.

(** [[...pose]] with its third entry overwritten; a hole reads as
    [undefined]. *)
Definition at_height (pose : list num) (height : num) : list (option num) :=
  [pose !! 0%nat; pose !! 1%nat; Some height] ++ (Some <$> drop 3 pose).

Definition createPose (orientation : Pose) (coords : list (option num)) : Pose :=
  {| x := mjoin (coords !! 0%nat); y := mjoin (coords !! 1%nat); z := mjoin (coords !! 2%nat);
     rx := rx orientation; ry := ry orientation; rz := rz orientation |}.

(** [{ ...pose, z: height }] *)
Definition with_z (pose : option Pose) (height : num) : Pose :=
  match pose with
  | Some p => {| x := x p; y := y p; z := Some height; rx := rx p; ry := ry p; rz := rz p |}
  | None => {| x := None; y := None; z := Some height; rx := None; ry := None; rz := None |}
  end.

Definition executeRobotMove (window : Window) (bridge : nat -> WebSocket)
    (moveData : MoveExecutionData) : Exec unit :=
  match getSquarePose window, getFullRobotPose window with
  | Some getSquarePose, true =>
      match getSquarePose (sourceSquare moveData), getSquarePose (destSquare moveData) with
      | Some sourceSquarePoseRobot, Some destSquarePoseRobot =>
          let orientation :=
            match chessboardPoses window ≫= fun poses => head (corners poses) with
            | Some corner => corner
            | None => {| x := None; y := None; z := None;
                         rx := Some (lit (2205 # 1000)); ry := Some (lit (- 2277 # 1000));
                         rz := Some (lit (16 # 1000)) |}
            end in
          let homePose := getHomePose window in
          let dropPose := getDropPose window in
          let sourceSquareClearance := at_height sourceSquarePoseRobot CLEARANCE_Z in
          let destSquareClearance := at_height destSquarePoseRobot CLEARANCE_Z in
          let sourceSquarePickup := at_height sourceSquarePoseRobot PICKUP_Z in
          let destSquarePickup := at_height destSquarePoseRobot PICKUP_Z in
          let createPose := createPose orientation in
          let executeCommand := executeCommand bridge in
          let close_gripper :=
            gripper close GRIPPER_CLOSE_WIDTH_MM GRIPPER_FORCE_N GRIPPER_SPEED_PERCENT in
          let open_gripper :=
            gripper open GRIPPER_OPEN_WIDTH_MM GRIPPER_FORCE_N GRIPPER_SPEED_PERCENT in
          if negb (isCapture moveData) then
            executeCommand (move (Some (createPose sourceSquareClearance)) clearance) 3500%N ;;
            executeCommand (move (Some (createPose sourceSquarePickup)) vertical) 1000%N ;;
            executeCommand close_gripper 500%N ;;
            executeCommand (move (Some (createPose sourceSquareClearance)) vertical) 1000%N ;;
            executeCommand (move (Some (createPose destSquareClearance)) clearance) 3500%N ;;
            executeCommand (move (Some (createPose destSquarePickup)) vertical) 1000%N ;;
            executeCommand open_gripper 500%N ;;
            executeCommand (move (Some (createPose destSquareClearance)) vertical) 1000%N ;;
            executeCommand (move homePose clearance) 4000%N
          else
            (* Step 1: remove the captured piece *)
            executeCommand (move (Some (createPose destSquareClearance)) clearance) 3500%N ;;
            executeCommand (move (Some (createPose destSquarePickup)) vertical) 1000%N ;;
            executeCommand close_gripper 500%N ;;
            executeCommand (move (Some (createPose destSquareClearance)) vertical) 1000%N ;;
            executeCommand (move (Some (with_z dropPose CLEARANCE_Z)) clearance) 3500%N ;;
            executeCommand (move dropPose vertical) 1000%N ;;
            executeCommand open_gripper 500%N ;;
            executeCommand (move (Some (with_z dropPose CLEARANCE_Z)) vertical) 1000%N ;;
            (* Step 2: move the capturing piece *)
            executeCommand (move (Some (createPose sourceSquareClearance)) clearance) 3500%N ;;
            executeCommand (move (Some (createPose sourceSquarePickup)) vertical) 1000%N ;;
            executeCommand close_gripper 500%N ;;
            executeCommand (move (Some (createPose sourceSquareClearance)) vertical) 1000%N ;;
            executeCommand (move (Some (createPose destSquareClearance)) clearance) 3500%N ;;
            executeCommand (move (Some (createPose destSquarePickup)) vertical) 1000%N ;;
            executeCommand open_gripper 500%N ;;
            executeCommand (move (Some (createPose destSquareClearance)) vertical) 1000%N ;;
            executeCommand (move homePose clearance) 4000%N
      | _, _ => throw (Error "Square poses not available. Calibrate first!")
      end
  | _, _ => throw (Error "Square pose functions not available. Calibrate first!")
  end.

Definition start : Execution := {| clock := 0; issued := [] |}.

End Executor.

Arguments Pose num : clear implicits.
Arguments RobotMoveCommand num : clear implicits.
Arguments MoveExecutionData num : clear implicits.
Arguments ChessboardPoses num : clear implicits.
Arguments Window num : clear implicits.
Arguments Issued num : clear implicits.
Arguments Execution num : clear implicits.
Arguments Exec num A : clear implicits.

End Executor.

(** ** Definitions of the statements *)

(** *** The move selection policy *)

Section Statements.

Context {num : Type} `{!JsNum num} {Board : Type} `{!ChessJs Board}.
#[local] Open Scope js_scope.

(** The condition of the confirmed-pair commit, on the result of the
    scoring pass. *)
Definition confirmed (mode : Mode) (s : Scan num) : Prop :=
  mode ≠ play /\
  exists joint, bestMoves s = Some joint /\
    (bestScore2 s >? lit 0) = true /\ (bestJointScore s >? lit 0) = true /\
    san0 joint ∈ possible s.

(** The cycle's state and scan are those the code computes from the frame. *)
Definition scanned (tr : Tracking num) (f : Frame num Board) (c : Cycle num Board) : Prop :=
  exists update,
    getUpdate (scores f) (squares f) = Normal update /\
    updateState (state tr) update (lit (1 # 2)) = Normal (state (tracking c)) /\
    processState (state (tracking c)) (movesPairs f) (possibleMoves tr) = Normal (scan c).

(** The notation is the best first move of the cycle, with a positive score,
    in a cycle without a confirmed-pair commit: the greedy block sees it. *)
Definition observed (c : Cycle num Board) (n : string) : Prop :=
  exists best, bestMove (scan c) = Some best /\ san0 best = n /\
    (bestScore1 (scan c) >? lit 0) = true /\ hasMove c = false.

(** The timers a state of the loop holds. *)
Definition timers_of (s : LoopState num) : gmap string num :=
  match s with live tr => greedyMoveToTime tr | _ => ∅ end.

(** The frame was processed, and nothing was committed in it. *)
Definition quiet (c : option (Cycle num Board)) : Prop :=
  exists c', c = Some c' /\ hasMove c' = false /\ hasGreedyMove c' = false.

(** The claim of a greedy commit after 1000 ms of continuous observation:
    whenever the greedy commit fires, its notation has been the best first
    move, with a positive score, in every cycle of a stretch of frames that
    started at least 1000 ms earlier. *)
Definition continuous_observation (mode : Mode) (frames : list (option (Frame num Board)))
  : Prop :=
  forall k fk ck,
    frames !! k = Some (Some fk) -> run mode waiting frames !! k = Some (Some ck) ->
    hasGreedyMove ck = true ->
    exists best j fj,
      bestMove (scan ck) = Some best /\ (j <= k)%nat /\ frames !! j = Some (Some fj) /\
      (endTime fk - endTime fj <? lit 1000) = false /\
      forall i, (j <= i <= k)%nat ->
        exists ci best', run mode waiting frames !! i = Some (Some ci) /\
          bestMove (scan ci) = Some best' /\ san0 best' = san0 best /\
          (bestScore1 (scan ci) >? lit 0) = true.

(** What the scenarios look at in a cycle: the notation of the best first
    move, whether its score is positive, the two commit flags, the board and
    the update dispatched. *)
Definition outline (c : option (Cycle num Board))
  : option (option string * bool * bool * bool * Board * option (Board * bool)) :=
  (fun c => (san0 <$> bestMove (scan c), bestScore1 (scan c) >? lit 0,
             hasMove c, hasGreedyMove c, board_after c, dispatched c)) <$> c.

End Statements.

(** *** Shapes and ranges *)

Definition shape {A} (g : list (list A)) : Prop :=
  length g = 64%nat /\ Forall (fun row => length row = 12%nat) g.

Definition within_unit (g : grid number) : Prop := Forall (Forall unit_interval) g.

Definition all_zero (g : grid number) : Prop := Forall (Forall (fun a => a ≈ Fin 0)) g.

(** A belief state: the 64×12 grid, fully populated with finite numbers. *)
Definition belief_state (g : grid number) : Prop :=
  shape g /\ Forall (Forall is_finite) g.

(** A move candidate: squares of the board, classes of the detector, one
    target class per destination square. *)
Definition candidate (m : MovesData) : Prop :=
  Forall (fun sq => 0 <= sq < 64)%Z (from m) /\
  Forall (fun sq => 0 <= sq < 64)%Z (to m) /\
  Forall (fun c => 0 <= c < 12)%Z (targets m) /\
  length (targets m) = length (to m).

(** *** The score, as the specification writes it *)

Definition value (a : number) : Q := match a with Fin q => q | _ => 0%Q end.

Definition Qsum (l : list Q) : Q := foldr Qplus 0%Q l.

Definition confidence (st : grid number) (sq c : Z) : Q := value (cell st sq c).

(** The largest of the twelve class confidences of a square. *)
Definition max_confidence (st : grid number) (sq : Z) : Q :=
  foldr Qmax (confidence st sq 0) ((fun c => confidence st sq (Z.of_nat c)) <$> seq 1 11).

Definition score_formula (st : grid number) (m : MovesData) (from_threshold to_threshold : Q) : Q :=
  (Qsum ((fun sq => 1 - max_confidence st sq - from_threshold) <$> from m)
   + Qsum ((fun '(i, sq) => confidence st sq (default 0%Z (targets m !! i)) - to_threshold)
             <$> imap pair (to m)))%Q.

(** *** The scenario of the accumulator *)

(** The detection update that shows class [c] on square 12 at 0.9. *)
Definition detection {num : Type} `{!JsNum num} (c : nat) : grid num :=
  <[12%nat := <[c := lit (9 # 10)]> (replicate 12 (lit 0))]> (zeros 64 12).

(** Two frames from the all-zero state with decay 0.5, and the two values
    of [state[12][c]]. *)
Definition two_frames {num : Type} `{!JsNum num} (c : nat) : completion (num * num) :=
  st1 ← updateState (zeros 64 12) (detection c) (lit (1 # 2));
  st2 ← updateState st1 (detection c) (lit (1 # 2));
  mret (cell st1 12 (Z.of_nat c), cell st2 12 (Z.of_nat c)).

(** *** A rules engine for the scenarios of the loop

    The board is the list of the moves played, latest first; from the
    initial position the engine knows the two central pawn moves. *)
Module Opening.

Definition lan_of (san : string) : option string :=
  if bool_decide (san = "e4") then Some "e2e4"
  else if bool_decide (san = "d4") then Some "d2d4"
  else None.

Definition move (b : list string) (san : string) : option (list string) :=
  match b with
  | [] => (fun lan => [lan]) <$> lan_of san
  | _ => None
  end.

Lemma undo_move (b : list string) (san : string) (b' : list string) :
  move b san = Some b' -> tail b' = b.
Proof.
  destruct b; [|done]. unfold move. destruct (lan_of san); simpl; [|done].
  by intros [= <-].
Qed.

End Opening.

#[export] Instance opening : ChessJs (list string) := {|
  chess_move := Opening.move;
  chess_undo := tail;
  chess_last_lan := fun b => default "" (head b);
  chess_undo_move := Opening.undo_move
|}.

Section Scenarios.

Context {num : Type} `{!JsNum num}.

(** The pawn moves e2-e4 and d2-d4, squares numbered from a1 = 0 by
    ranks; the pawn's class is taken to be the class 6. *)
Definition e4 : MovesData := {| sans := ["e4"]; from := [12%Z]; to := [28%Z]; targets := [6%Z] |}.
Definition d4 : MovesData := {| sans := ["d4"]; from := [11%Z]; to := [27%Z]; targets := [6%Z] |}.

Definition single (m : MovesData) : MovesPair := {| move1 := m; move2 := None; moves := None |}.

(** The black pawn's reply e7-e5 (its class is taken to be the class 0),
    and the two moves together. *)
Definition e5 : MovesData := {| sans := ["e5"]; from := [52%Z]; to := [36%Z]; targets := [0%Z] |}.
Definition e4_e5 : MovesData :=
  {| sans := ["e4"; "e5"]; from := [12%Z; 52%Z]; to := [28%Z; 36%Z]; targets := [6%Z; 0%Z] |}.

(** A box of class [c], with score 1. *)
Definition box (c : nat) : list num := (fun j => lit (if (j =? c)%nat then 1 else 0)) <$> seq 0 12.

(** A frame at time [t] with one white pawn detected, on square [sq]. *)
Definition sighting (sq : Z) (t : Q) : Frame num (list string) :=
  {| scores := [box 6]; squares := [sq]; movesPairs := [single e4; single d4];
     board := []; lastMove := ""; endTime := lit t |}.

(** The pawn is seen on e4 at 0 ms and at 1500 ms. *)
Definition steady : list (option (Frame num (list string))) :=
  [Some (sighting 28 0); Some (sighting 28 1500)].

(** The pawn is seen on e4 at 0 ms, on d4 at 600 ms, on e4 at 1200 ms. *)
Definition flicker : list (option (Frame num (list string))) :=
  [Some (sighting 28 0); Some (sighting 27 600); Some (sighting 28 1200)].

(** Both pawns are seen on their destination squares. *)
Definition exchange : Frame num (list string) :=
  {| scores := [box 6; box 0]; squares := [28%Z; 36%Z];
     movesPairs := [{| move1 := e4; move2 := Some e5; moves := Some e4_e5 |}];
     board := []; lastMove := ""; endTime := lit 0 |}.

End Scenarios.

(** *** The averager *)

Definition not_ready {num : Type} : Averager.Averaged num :=
  {| Averager.sourceAvg := None; Averager.capturedAvg := None; Averager.ready := false |}.

Section AveragerStatements.

Context {num : Type} `{!JsNum num}.

Import Averager.

(** The buffer of a key, created on demand. *)
Definition buffer_of (moveKey : string) (buffers : gmap string (PieceBaseBuffer num))
  : PieceBaseBuffer num :=
  default {| sourcePieceBase := []; capturedPieceBase := []; frameCount := 0 |}
          (buffers !! moveKey).

Definition pushed (buf : PieceBaseBuffer num) (s : list num) (c : option (list num))
  : PieceBaseBuffer num :=
  {| sourcePieceBase := sourcePieceBase buf ++ [s];
     capturedPieceBase := match c with
                          | Some c => capturedPieceBase buf ++ [c]
                          | None => capturedPieceBase buf
                          end;
     frameCount := S (frameCount buf) |}.

(** The buffer is collecting the frames of [move]. *)
Definition collecting_for (move : string) (b : LoopBuffer num) : Prop :=
  moveKey b = move /\ collecting b = true /\ length (source b) = framesCollected b.

(** What one frame adds to the captured list of the loop's buffer. *)
Definition captured_push (isCapture : bool) (c : option (list num)) : list (list num) :=
  if isCapture then from_option (fun c => [c]) [] c else [].

End AveragerStatements.

(** A coordinate pair, as the array the detector yields. *)
Definition coords {num : Type} `{!JsNum num} (p : Q * Q) : list num := [lit p.1; lit p.2].

Definition Qmean (l : list Q) : Q := (Qsum l / inject_Z (Z.of_nat (length l)))%Q.

(** [avg] is the arithmetic mean of the points, coordinate by coordinate. *)
Definition mean_of (pts : list (Q * Q)) (avg : list number) : Prop :=
  exists a b, avg = [Fin a; Fin b] /\ (a == Qmean (fst <$> pts))%Q /\ (b == Qmean (snd <$> pts))%Q.

(** [o] is the mean of the points when [emitted] holds, and is absent
    otherwise. *)
Definition mean_when (emitted : bool) (pts : list (Q * Q)) (o : option (list number)) : Prop :=
  if emitted then exists avg, o = Some avg /\ mean_of pts avg else o = None.

(** The frames of a move: in each, the base of the moving piece and, when
    it was detected, the base of the captured piece. *)
Definition observations {num : Type} `{!JsNum num} (pts : list ((Q * Q) * option (Q * Q)))
  : list (list num * option (list num)) :=
  (fun p : (Q * Q) * option (Q * Q) => (coords p.1, coords <$> p.2)) <$> pts.

(** The same frames as the detection loop sees them. *)
Definition detected {num : Type} `{!JsNum num} (pts : list ((Q * Q) * option (Q * Q)))
  : list (option (list num) * option (list num)) :=
  (fun p : (Q * Q) * option (Q * Q) => (Some (coords p.1), coords <$> p.2)) <$> pts.

(** The bases of the captured piece that were observed. *)
Definition captured_of (pts : list ((Q * Q) * option (Q * Q))) : list (Q * Q) := omap snd pts.

(** The five observations of the scenario. *)
Definition five_frames : list ((Q * Q) * option (Q * Q)) :=
  [((0, 0), None); ((2, 0), None); ((4, 0), None); ((6, 0), None); ((8, 0), None)]%Q.

(** Five frames of a capture in which the captured piece is missed once. *)
Definition capture_frames : list ((Q * Q) * option (Q * Q)) :=
  [((0, 0), Some (1, 1)); ((2, 0), Some (1, 3)); ((4, 0), None);
   ((6, 0), Some (1, 5)); ((8, 0), Some (1, 7))]%Q.

(** *** The execution sequencer *)

Section ExecutorStatements.

Context {num : Type} `{!JsNum num}.

Import Executor.

(** [await executeCommand(command, delay)] for each step of a list, in
    order. *)
Fixpoint run_steps (bridge : nat -> WebSocket) (steps : list (RobotMoveCommand num * N))
  : Exec num unit :=
  match steps with
  | [] => fun e => (e, Normal tt)
  | (command, delay) :: steps =>
      match steps with
      | [] => executeCommand bridge command delay
      | _ => executeCommand bridge command delay ;; run_steps bridge steps
      end
  end.

Definition orientation_of (window : Window num) : Pose num :=
  match chessboardPoses window ≫= fun poses => head (corners poses) with
  | Some corner => corner
  | None => {| x := None; y := None; z := None;
               rx := Some (lit (2205 # 1000)); ry := Some (lit (- 2277 # 1000));
               rz := Some (lit (16 # 1000)) |}
  end.

(** The pose above a square at the clearance height, and the pose on it at
    the pickup height. *)
Definition over (window : Window num) (square : list num) : option (Pose num) :=
  Some (createPose (orientation_of window) (at_height square CLEARANCE_Z)).

Definition down_on (window : Window num) (square : list num) : option (Pose num) :=
  Some (createPose (orientation_of window) (at_height square PICKUP_Z)).

Definition over_drop (window : Window num) : option (Pose num) :=
  Some (with_z (getDropPose window) CLEARANCE_Z).

Definition close_gripper : RobotMoveCommand num :=
  gripper close GRIPPER_CLOSE_WIDTH_MM GRIPPER_FORCE_N GRIPPER_SPEED_PERCENT.

Definition open_gripper : RobotMoveCommand num :=
  gripper open GRIPPER_OPEN_WIDTH_MM GRIPPER_FORCE_N GRIPPER_SPEED_PERCENT.

(** The nine steps that carry a piece from its square to its destination
    and bring the arm home. *)
Definition relocation (window : Window num) (src dst : list num)
  : list (RobotMoveCommand num * N) :=
  [(move (over window src) clearance, 3500); (move (down_on window src) vertical, 1000);
   (close_gripper, 500); (move (over window src) vertical, 1000);
   (move (over window dst) clearance, 3500); (move (down_on window dst) vertical, 1000);
   (open_gripper, 500); (move (over window dst) vertical, 1000);
   (move (getHomePose window) clearance, 4000)]%N.

(** The eight steps that carry the captured piece to the drop zone. *)
Definition removal (window : Window num) (dst : list num)
  : list (RobotMoveCommand num * N) :=
  [(move (over window dst) clearance, 3500); (move (down_on window dst) vertical, 1000);
   (close_gripper, 500); (move (over window dst) vertical, 1000);
   (move (over_drop window) clearance, 3500); (move (getDropPose window) vertical, 1000);
   (open_gripper, 500); (move (over_drop window) vertical, 1000)]%N.

Definition sequence (window : Window num) (src dst : list num) (isCapture : bool)
  : list (RobotMoveCommand num * N) :=
  if isCapture then removal window dst ++ relocation window src dst
  else relocation window src dst.

(** The pose functions are on [window] and know the two squares. *)
Definition calibrated (window : Window num) (moveData : MoveExecutionData num)
    (src dst : list num) : Prop :=
  exists pose, getSquarePose window = Some pose /\ getFullRobotPose window = true /\
    pose (sourceSquare moveData) = Some src /\ pose (destSquare moveData) = Some dst.

(** The promises of the commands numbered [from] to [from + n - 1] resolve. *)
Definition resolves (bridge : nat -> WebSocket) (from n : nat) : Prop :=
  forall i, (i < n)%nat -> exists t, sendCommand (bridge (from + i)%nat) = Resolved t.

(** What the log says of each step: the command and its settle delay. *)
Definition steps_of (log : list (Issued num)) : list (RobotMoveCommand num * N) :=
  (fun i => (command i, delay i)) <$> log.

(** Every command but the first is issued when the promise of the one
    before it has resolved and its settle delay has passed. *)
Definition awaited (log : list (Issued num)) : Prop :=
  forall i a b, log !! i = Some a -> log !! S i = Some b ->
    exists t, settled a = Resolved t /\ issued_at b = (issued_at a + t + delay a)%N.

(** The clock stands where the last command of the log left it. *)
Definition on_time (e : Execution num) : Prop :=
  awaited (issued e) /\
  forall a, last (issued e) = Some a ->
    exists t, settled a = Resolved t /\ clock e = (issued_at a + t + delay a)%N.

(** The claim that a command that times out aborts the sequence: the log
    ends with it, and the caller gets an exception. *)
Definition aborts_on_timeout (window : Window num) (bridge : nat -> WebSocket)
    (moveData : MoveExecutionData num) : Prop :=
  forall k, (k < length (issued (executeRobotMove window bridge moveData start).1))%nat ->
    timed_out (bridge k) = true ->
    length (issued (executeRobotMove window bridge moveData start).1) = S k /\
    exists err, (executeRobotMove window bridge moveData start).2 = Throw err.

(** A calibration for the scenarios: the pose of square [n] is [(n, 0, 0)],
    and no poses were loaded from the JSON file. *)
Definition calibration : Window num :=
  {| getSquarePose := Some (fun square => Some [lit (inject_Z square); lit 0; lit 0]);
     getFullRobotPose := true;
     chessboardPoses := None |}.

(** The move e2-e4, and the capture e4xd5. *)
Definition quiet_move : MoveExecutionData num :=
  {| sourceSquare := 13; destSquare := 29; sourcePieceBaseCamera := None;
     capturedPieceBaseCamera := None; isCapture := false; uciMove := "e2e4" |}.

Definition capture_move : MoveExecutionData num :=
  {| sourceSquare := 29; destSquare := 36; sourcePieceBaseCamera := None;
     capturedPieceBaseCamera := None; isCapture := true; uciMove := "e4d5" |}.

(** A bridge whose sockets open at once, one whose sockets never open, and
    one whose socket fails on the command numbered [k]. *)
Definition prompt (i : nat) : WebSocket :=
  {| constructor_throws := false; opens_after := Some 0%N; error_after := None |}.

Definition silent (i : nat) : WebSocket :=
  {| constructor_throws := false; opens_after := None; error_after := None |}.

Definition failing (k i : nat) : WebSocket :=
  if (i =? k)%nat
  then {| constructor_throws := false; opens_after := None; error_after := Some 20%N |}
  else prompt i.

End ExecutorStatements.

(** ** Further statements *)

(** *** The detection update and the belief state along the frames *)

(** What the detector hands over for a frame: a row of twelve class scores
    between 0 and 1 for each box, and the square of each box, or -1. *)
Definition detections (scores : list (list number)) (squares : list Z) : Prop :=
  (length squares <= length scores)%nat /\
  Forall (fun box => length box = 12%nat /\ Forall unit_interval box) scores /\
  Forall (fun sq => sq = -1 \/ 0 <= sq < 64)%Z squares.

(** The scores that the boxes assigned to square [sq] give to class [c]. *)
Definition scores_on (scores : list (list number)) (squares : list Z) (sq c : Z) : list Q :=
  omap (fun '(i, s) => if (s =? sq)%Z
                       then Some (value (entry (default [] (scores !! i)) c))
                       else None)
       (imap pair squares).

(** The largest of the scores, and 0 when there is none. *)
Definition largest (qs : list Q) : Q := foldr Qmax 0%Q qs.

(** The state after the updates of successive frames. *)
Definition updateStates {num : Type} `{!JsNum num} (state : grid num) (updates : list (grid num))
    (decay : num) : completion (grid num) :=
  foldM (fun state update => updateState state update decay) state updates.

Fixpoint Qpow (d : Q) (n : nat) : Q :=
  match n with
  | O => 1%Q
  | S n => (d * Qpow d n)%Q
  end.

(** Every box is off the board or on one of its squares, and has a row of
    scores. *)
Definition placed {A} (scores : list A) (squares : list Z) : Prop :=
  forall i sq, squares !! i = Some sq ->
    sq = (-1)%Z \/ ((0 <= sq < 64)%Z /\ (i < length scores)%nat).

(** Two boxes on square 28 that score class 6 at 0.3 and at 0.8, and a box
    off the board. *)
Definition two_boxes {num : Type} `{!JsNum num} : list (list num) * list Z :=
  ([<[6%nat := lit (3 # 10)]> (replicate 12 (lit 0));
    <[6%nat := lit (8 # 10)]> (replicate 12 (lit 0));
    replicate 12 (lit 1)],
   [28; 28; -1]%Z).

(** The frames of a run carry detections. *)
Definition detected_frames {Board : Type} (frames : list (option (Frame number Board))) : Prop :=
  Forall (fun f => from_option (fun f => detections (scores f) (squares f)) True f) frames.

(** The belief state a state of the loop holds is a grid of confidences. *)
Definition unit_state (s : LoopState number) : Prop :=
  match s with
  | live tr => shape (state tr) /\ within_unit (state tr)
  | _ => True
  end.

(** *** The scoring pass *)

(** No first move has a notation that names a method of [Set] or of
    [Object]: a chess notation never does. *)
Definition plain_notations (pairs : list MovesPair) : Prop :=
  Forall (fun p => inherited (Set_prototype_keys ++ Object_prototype_keys) (san0 (move1 p)) = false)
         pairs.

(** [bestMove] is a first move of the pairs whose score is [bestScore1] and
    is not exceeded by the score of any first move. *)
Definition best_first_move (st : grid number) (pairs : list MovesPair) (s : Scan number) : Prop :=
  match bestMove s with
  | None => pairs = [] /\ bestScore1 s = NegInf
  | Some m =>
      exists q, bestScore1 s = Fin q /\ calculateScore st m thr thr = Normal (Fin q) /\
        m ∈ move1 <$> pairs /\
        forall p q', p ∈ pairs -> calculateScore st (move1 p) thr thr = Normal (Fin q') ->
                     (q' <= q)%Q
  end.

(** [possibleMoves] after the pass: what it held, and the notations of the
    first moves with a positive score. *)
Definition possible_after (st : grid number) (possibleMoves : gset string)
    (pairs : list MovesPair) (s : Scan number) : Prop :=
  forall san, san ∈ possible s <->
    san ∈ possibleMoves \/
    exists p q, p ∈ pairs /\ san0 (move1 p) = san /\
                calculateScore st (move1 p) thr thr = Normal (Fin q) /\ (0 < q)%Q.

(** The squares of the move are rows of the state. *)
Definition on_board {A} (state : list A) (m : MovesData) : Prop :=
  Forall (fun sq => is_Some (index state sq)) (from m ++ to m).

(** A belief state that shows a white pawn (class 6) on e4 at 0.9. *)
Definition pawn_on_e4 {num : Type} `{!JsNum num} : grid num :=
  <[28%nat := <[6%nat := lit (9 # 10)]> (replicate 12 (lit 0))]> (zeros 64 12).

(** *** The loop *)

(** A frame that shows the pawn on e4 while the board of the rules engine
    has the move already: the candidates are out of date. *)
Definition stale {num : Type} `{!JsNum num} : Frame num (list string) :=
  {| scores := [box 6]; squares := [28%Z]; movesPairs := [single e4; single d4];
     board := ["e2e4"]; lastMove := "e2e4"; endTime := lit 0 |}.

(** *** The averager along the frames *)

Section AveragerRuns.

Context {num : Type} `{!JsNum num}.

Import Averager.

(** The buffers after the frames fed for a key. *)
Fixpoint fed (moveKey : string) (frames : list (list num * option (list num)))
    (buffers : gmap string (PieceBaseBuffer num)) : gmap string (PieceBaseBuffer num) :=
  match frames with
  | [] => buffers
  | (s, c) :: frames => fed moveKey frames (addToPieceBaseBuffer moveKey s c buffers).1
  end.

(** The buffer of the loop after the frames of a move. *)
Fixpoint collected (move : string) (isCapture : bool)
    (frames : list (option (list num) * option (list num)))
    (b : LoopBuffer num) (buffers : gmap string (PieceBaseBuffer num))
  : LoopBuffer num * gmap string (PieceBaseBuffer num) :=
  match frames with
  | [] => (b, buffers)
  | (s, c) :: frames =>
      let '(b, buffers, _) := collect move s isCapture c b buffers in
      collected move isCapture frames b buffers
  end.

(** The frames in which the piece to move was detected. *)
Definition with_source (frames : list (option (list num) * option (list num)))
  : list (option (list num) * option (list num)) :=
  filter (fun f => is_Some f.1) frames.

End AveragerRuns.

(** Ten frames of a move: the piece stands at (0,0) in the first five and at
    (10,10) in the next five. *)
Definition ten_frames : list ((Q * Q) * option (Q * Q)) :=
  (replicate 5 ((0, 0), None) ++ replicate 5 ((10, 10), None))%Q.


(** The coordinate pair is [(x, y)], in binary64. *)
Definition is_point (avg : list float) (x y : float) : bool :=
  match avg with
  | [a; b] => PrimFloat.eqb a x && PrimFloat.eqb b y
  | _ => false
  end.

(** *** The executor: durations and heights *)

Section ExecutorOrder.

Context {num : Type} `{!JsNum num}.

Import Executor.

(** The settle delays of the steps, together. *)
Definition settle_time (steps : list (RobotMoveCommand num * N)) : N :=
  foldr (fun step t => (step.2 + t)%N) 0%N steps.

(** The height a command moves to. *)
Definition target_z (c : RobotMoveCommand num) : option num :=
  match c with
  | move (Some pose) _ => z pose
  | _ => None
  end.

(** Every lateral move but the first follows a vertical move to the
    clearance height. *)
Definition lifts_before_travel (steps : list (RobotMoveCommand num * N)) : Prop :=
  forall i pose d, steps !! S i = Some (move pose clearance, d) ->
    exists up d', steps !! i = Some (move up vertical, d') /\
                  target_z (move up vertical) = Some CLEARANCE_Z.

(** The gripper acts between a vertical move down and a vertical move up
    to the clearance height. *)
Definition grips_at_the_bottom (steps : list (RobotMoveCommand num * N)) : Prop :=
  forall i action w f s d, steps !! S i = Some (gripper action w f s, d) ->
    (exists down d', steps !! i = Some (move down vertical, d')) /\
    (exists up d', steps !! S (S i) = Some (move up vertical, d') /\
                   target_z (move up vertical) = Some CLEARANCE_Z).

(** The actions of the gripper, in order. *)
Definition gripper_actions (steps : list (RobotMoveCommand num * N)) : list Action :=
  omap (fun step => match step.1 with gripper action _ _ _ => Some action | _ => None end) steps.

End ExecutorOrder.

(** ** The robot poses of the squares ([transformPoses]) *)

(** Modelled from the spec: the perspective transform of [utils/warp] is not
    part of the sources at hand; the specification takes it as a given
    utility, and so does this interface.  A transform that could not be
    computed is falsy. *)
Class Warp (num : Type) : Type := {
  Matrix : Type;
  getPerspectiveTransform : list (list (option num)) -> list (option (list num)) -> option Matrix;
  perspectiveTransform : list (list num) -> Matrix -> list (list num)
}.

(** What is falsy among the numbers: the zeros and [NaN]. *)
Class JsBool (num : Type) : Type := { falsy : num -> bool }.

#[export] Instance exact_bool : JsBool number := {|
  falsy := fun a => match a with Fin q => Qeq_bool q 0 | NaN => true | _ => false end
|}.

#[export] Instance binary64_bool : JsBool float := {|
  falsy := fun a => PrimFloat.is_nan a || PrimFloat.is_zero a
|}.

Module TransformPoses.
Section TransformPoses.

Context {num : Type} `{!JsNum num} `{!Warp num}.

Import Executor.

(** The variables of the module, and what the module keeps on [window]. *)
Record State : Type := {
  transformedCenters : list (list num);
  transformationMatrix : option Matrix;
  chessboardPoses : option (ChessboardPoses num);
  window_centersCache : option (list (list num));
  window_chessboardPoses : option (ChessboardPoses num);
  window_transformedCenters : option (list (list num));
  cli : bool                   (* [setupCLI] has put the functions on [window] *)
}.

Definition initial : State :=
  {| transformedCenters := []; transformationMatrix := None; chessboardPoses := None;
     window_centersCache := None; window_chessboardPoses := None;
     window_transformedCenters := None; cli := false |}.

(** [loadChessboardPoses], once the file was fetched and parsed *)
Definition loadChessboardPoses (data : ChessboardPoses num) (st : State) : State :=
  {| transformedCenters := transformedCenters st;
     transformationMatrix := transformationMatrix st;
     chessboardPoses := Some data;
     window_centersCache := window_centersCache st;
     window_chessboardPoses := window_chessboardPoses st;
     window_transformedCenters := window_transformedCenters st;
     cli := cli st |}.

Definition calculateTransformation (cameraCornerCenters : list (list num))
    (robotCornerPoses : list (list (option num))) (st : State) : State * option Matrix :=
  let cameraPoints := [cameraCornerCenters !! 0%nat; cameraCornerCenters !! 7%nat;
                       cameraCornerCenters !! 63%nat; cameraCornerCenters !! 56%nat] in
  let robotPoints := robotCornerPoses in
  let transform := getPerspectiveTransform robotPoints cameraPoints in
  ({| transformedCenters := transformedCenters st;
      transformationMatrix := transform;
      chessboardPoses := chessboardPoses st;
      window_centersCache := window_centersCache st;
      window_chessboardPoses := window_chessboardPoses st;
      window_transformedCenters := window_transformedCenters st;
      cli := cli st |},
   transform).

Definition transformAllSquares (allCameraCenters : list (list num))
    (transformation : option Matrix) (st : State) : State * list (list num) :=
  match transformation with
  | None => (st, [])
  | Some transformation =>
      let transformed := perspectiveTransform allCameraCenters transformation in
      ({| transformedCenters := transformed;
          transformationMatrix := transformationMatrix st;
          chessboardPoses := chessboardPoses st;
          window_centersCache := window_centersCache st;
          window_chessboardPoses := window_chessboardPoses st;
          window_transformedCenters := window_transformedCenters st;
          cli := cli st |},
       transformed)
  end.

(** The square number is a number that holds an integer. *)
Definition getSquarePose (st : State) (squareNumber : Z) : option (list num) :=
  if (squareNumber <? 1)%Z || (squareNumber >? 64)%Z then None
  else if (length (transformedCenters st) <? 64)%nat then None
  else index (transformedCenters st) (squareNumber - 1).

(** [undefined] is [None]; reading the first corner of an empty list of
    corners throws. *)
Definition getFullRobotPose (st : State) (squareNumber : Z) : completion (option (Pose num)) :=
  match getSquarePose st squareNumber, chessboardPoses st with
  | Some xyPose, Some poses =>
      cornerPose ← defined (head (corners poses));
      mret (Some {| x := xyPose !! 0%nat; y := xyPose !! 1%nat; z := z cornerPose;
                    rx := rx cornerPose; ry := ry cornerPose; rz := rz cornerPose |})
  | _, _ => mret None
  end.

Record SquareInfo : Type := {
  squareName : option string;
  cameraX : option num;
  cameraY : option num;
  robotX : option num;
  robotY : option num;
  fullPose : option (Pose num)
}.

(** [names] stands for [SQUARE_NAMES] of [utils/constants]. *)
Definition getSquareInfo (names : list string) (st : State) (squareNumber : Z)
  : completion (option SquareInfo) :=
  if (squareNumber <? 1)%Z || (squareNumber >? 64)%Z then mret None
  else
    let index' := (squareNumber - 1)%Z in
    let squareName := index names index' in
    let camera :=
      match window_centersCache st with
      | Some cameraCenters =>
          if (index' <? Z.of_nat (length cameraCenters))%Z
          then (index cameraCenters index' ≫= fun c => c !! 0%nat,
                index cameraCenters index' ≫= fun c => c !! 1%nat)
          else (Some (lit 0), Some (lit 0))
      | None => (Some (lit 0), Some (lit 0))
      end in
    let robotPose := getSquarePose st squareNumber in
    fullPose ← getFullRobotPose st squareNumber;
    mret (Some {| squareName := squareName; cameraX := camera.1; cameraY := camera.2;
                  robotX := robotPose ≫= fun p => p !! 0%nat;
                  robotY := robotPose ≫= fun p => p !! 1%nat;
                  fullPose := fullPose |}).

Definition storePosesOnWindow (poses : ChessboardPoses num) (st : State) : State :=
  {| transformedCenters := transformedCenters st;
     transformationMatrix := transformationMatrix st;
     chessboardPoses := chessboardPoses st;
     window_centersCache := window_centersCache st;
     window_chessboardPoses := Some poses;
     window_transformedCenters := window_transformedCenters st;
     cli := cli st |}.

(** [processChessboardCoordinates] up to the request for the JSON file;
    the flag tells whether the request is made. *)
Definition processChessboardCoordinates_start (cameraCenters : list (list num)) (st : State)
  : State * bool :=
  if (length cameraCenters <? 64)%nat then (st, false)
  else
    ({| transformedCenters := transformedCenters st;
        transformationMatrix := transformationMatrix st;
        chessboardPoses := chessboardPoses st;
        window_centersCache := Some cameraCenters;
        window_chessboardPoses := window_chessboardPoses st;
        window_transformedCenters := window_transformedCenters st;
        cli := cli st |},
     true).

(** [processChessboardCoordinates] from the answer to the request on;
    without an answer that parses, the [catch] leaves everything as it is. *)
Definition processChessboardCoordinates_loaded (cameraCenters : list (list num))
    (response : option (ChessboardPoses num)) (st : State) : State :=
  match response with
  | None => st
  | Some poses =>
      let st := loadChessboardPoses poses st in
      let st := storePosesOnWindow poses st in
      let robotCorners := (fun pose => [x pose; y pose]) <$> corners poses in
      let '(st, transform) := calculateTransformation cameraCenters robotCorners st in
      (transformAllSquares cameraCenters transform st).1
  end.

Definition getAllTransformedCenters (st : State) : list (list num) := transformedCenters st.

Definition setupCLI (st : State) : State :=
  {| transformedCenters := transformedCenters st;
     transformationMatrix := transformationMatrix st;
     chessboardPoses := chessboardPoses st;
     window_centersCache := window_centersCache st;
     window_chessboardPoses := chessboardPoses st;
     window_transformedCenters := Some (transformedCenters st);
     cli := true |}.

(** [logCornerCenters] of the detection loop: it starts the processing of
    the coordinates and sets up the console interface before the JSON file
    has arrived. *)
Definition logCornerCenters (centers : list (list num)) (st : State) : State * bool :=
  if (length centers <? 64)%nat then (st, false)
  else
    let '(st, requested) := processChessboardCoordinates_start centers st in
    (setupCLI st, requested).

(** The calibration as the loop runs it, with the answer to the request. *)
Definition calibrate (centers : list (list num)) (response : option (ChessboardPoses num))
    (st : State) : State :=
  let '(st, requested) := logCornerCenters centers st in
  if requested then processChessboardCoordinates_loaded centers response st else st.

(** What the executor finds on [window]. *)
Definition window_of (st : State) : Window num :=
  {| Executor.getSquarePose := if cli st then Some (getSquarePose st) else None;
     Executor.getFullRobotPose := cli st;
     Executor.chessboardPoses := window_chessboardPoses st |}.

End TransformPoses.

Arguments State num {_}.
Arguments SquareInfo num : clear implicits.

End TransformPoses.

(** *** The manual control of the arm ([robotControl]) *)

Section RobotControl.

Context {num : Type} `{!JsNum num} `{!JsBool num} `{!Warp num}.

Import Executor.

(** What [moveToSquare] does after its checks: one of its three refusals,
    or the command it sends to the bridge. *)
Inductive MoveToSquare : Type :=
| information_not_available
| robot_coordinates_not_available
| calibration_not_complete
| sends (command : RobotMoveCommand num).

(** [!x] on a coordinate that may be missing *)
Definition not_ (x : option num) : bool :=
  match x with Some a => falsy a | None => true end.

Definition moveToSquare (names : list string) (st : TransformPoses.State num) (number : Z)
  : completion MoveToSquare :=
  info ← TransformPoses.getSquareInfo names st number;
  match info with
  | None => mret information_not_available
  | Some info =>
      if not_ (TransformPoses.robotX info) || not_ (TransformPoses.robotY info)
      then mret robot_coordinates_not_available
      else
        fullPose ← TransformPoses.getFullRobotPose st number;
        match fullPose with
        | None => mret calibration_not_complete
        | Some fullPose =>
            let pose := {| x := x fullPose; y := y fullPose; z := z fullPose;
                           rx := rx fullPose; ry := ry fullPose; rz := rz fullPose |} in
            mret (sends (move (Some pose) clearance))
        end
  end.

End RobotControl.

Arguments MoveToSquare num : clear implicits.

(** *** A calibration for the scenarios *)

(** The transform that leaves every point where it is. *)
#[export] Instance same_plane {num : Type} : Warp num := {|
  Matrix := unit;
  getPerspectiveTransform := fun _ _ => Some tt;
  perspectiveTransform := fun points _ => points
|}.

(** The centers of the squares: square number [n] is at [(n, 0)], and
    so square 10 has a coordinate 0 in the camera frame shifted by ten. *)
Definition centers_in_line {num : Type} `{!JsNum num} (shift : Z) : list (list num) :=
  (fun i => [lit (inject_Z (Z.of_nat i + 1 - shift)); lit 1]) <$> seq 0 64.

(** The poses of the JSON file: four corners, of which the first gives the
    height and the orientation. *)
Definition poses_file {num : Type} `{!JsNum num} : Executor.ChessboardPoses num :=
  let corner :=
    {| Executor.x := Some (lit 0); Executor.y := Some (lit 0); Executor.z := Some (lit (2 # 10));
       Executor.rx := Some (lit 2); Executor.ry := Some (lit (-2)); Executor.rz := Some (lit 0) |} in
  {| Executor.home := Some corner; Executor.drop_ := Some corner;
     Executor.corners := [corner; corner; corner; corner] |}.

(** ** The overlay ([renderState]) *)

Section RenderState.

Context {num : Type} `{!JsNum num}.
#[local] Open Scope js_scope.

(** The inner loop on a square: the score and the class of the label, or
    0.1 and -1. *)
Definition best_piece (row : list num) : num * Z :=
  fold_left (fun '(bestScore, bestPiece) j =>
               if entry row (Z.of_nat j) >? bestScore
               then (entry row (Z.of_nat j), Z.of_nat j)
               else (bestScore, bestPiece))
            (seq 0 12) (lit (1 # 10), (-1)%Z).

(** A call of [drawBox]: the square, the class and the score of its label,
    and the center it is drawn at, before the scaling to the canvas. *)
Record Label : Type := {
  label_square : nat;
  label_piece : Z;
  label_score : num;
  label_center : list num
}.

(** The calls of [drawBox] that [renderState] makes, in order. *)
Definition renderState_labels (centers : list (list num)) (state : grid num)
  : completion (list Label) :=
  foldM (fun drawn i =>
           row ← defined (state !! i);
           let '(bestScore, bestPiece) := best_piece row in
           if (bestPiece =? -1)%Z then mret drawn
           else
             center ← defined (centers !! i);
             mret (drawn ++ [{| label_square := i; label_piece := bestPiece;
                                label_score := bestScore; label_center := center |}]))
        [] (seq 0 64).

End RenderState.

Arguments Label num : clear implicits.

(** Class [p] is the most confident class of the row, the first of them
    if there are several, with a confidence [s] above 0.1. *)
Definition most_confident (row : list number) (p : Z) (s : Q) : Prop :=
  (0 <= p < 12)%Z /\ entry row p = Fin s /\ (1 # 10 < s)%Q /\
  (forall j, (0 <= j < 12)%Z -> (value (entry row j) <= s)%Q) /\
  (forall j, (0 <= j < p)%Z -> (value (entry row j) < s)%Q).

(** ** The camera proxy: JPEG frames out of the DroidCam stream
    ([simple-proxy.mjs])

    The ['data'] handler of the DroidCam response appends the chunk to a
    buffer and cuts the complete JPEG frames out of it.  A [Buffer] is a list
    of bytes; the numbered JSON message that precedes each frame holds the
    time of the clock and is left out, the binary messages are modelled. *)

Module MjpegProxy.

#[local] Close Scope js_scope.
#[local] Open Scope nat_scope.

Definition Buffer : Type := list Byte.byte.

(** [buffer.indexOf(Buffer.from([a, b]))]: the index of the first place
    where the two bytes stand, [None] for -1. *)
Fixpoint indexOf (buffer : Buffer) (a b : Byte.byte) : option nat :=
  match buffer with
  | c :: rest =>
      match rest with
      | d :: _ => if Byte.eqb c a && Byte.eqb d b then Some 0 else S <$> indexOf rest a b
      | [] => None
      end
  | [] => None
  end.

(** [buffer.indexOf(Buffer.from([a, b]), byteOffset)], the search starting
    at [byteOffset]. *)
Definition indexOf_from (buffer : Buffer) (a b : Byte.byte) (byteOffset : nat) : option nat :=
  (fun i => byteOffset + i) <$> indexOf (drop byteOffset buffer) a b.

(** [buffer.slice(start, end)] *)
Definition slice (buffer : Buffer) (start end_ : nat) : Buffer :=
  take (end_ - start) (drop start buffer).

(** The [while (true)] loop of the handler; [open] is
    [ws.readyState === WebSocket.OPEN].  Each turn that does not [break]
    shortens the buffer, so that as many turns as the buffer has bytes are
    enough: [turns] bounds them. *)
Fixpoint frames_loop (turns : nat) (open : bool) (buffer : Buffer) : list Buffer * Buffer :=
  match turns with
  | O => ([], buffer)
  | S turns =>
      match indexOf buffer Byte.xff Byte.xd8 with
      | None => ([], buffer)
      | Some startIndex =>
          match indexOf_from buffer Byte.xff Byte.xd9 startIndex with
          | None => ([], buffer)
          | Some endIndex =>
              let jpegFrame := slice buffer startIndex (endIndex + 2) in
              let '(sent, buffer) :=
                frames_loop turns open (drop (endIndex + 2) buffer) in
              ((if open then [jpegFrame] else []) ++ sent, buffer)
          end
      end
  end.

(** [droidcamRes.on('data', (chunk) => ...)]: the frames sent on the
    WebSocket, and the buffer left. *)
Definition on_data (open : bool) (buffer chunk : Buffer) : list Buffer * Buffer :=
  let buffer := buffer ++ chunk in
  frames_loop (length buffer) open buffer.

(** The chunks of a stream, one ['data'] event each, from the empty
    buffer of the connection. *)
Fixpoint on_chunks (open : bool) (buffer : Buffer) (chunks : list Buffer)
  : list Buffer * Buffer :=
  match chunks with
  | [] => ([], buffer)
  | chunk :: chunks =>
      let '(sent, buffer) := on_data open buffer chunk in
      let '(sent', buffer) := on_chunks open buffer chunks in
      (sent ++ sent', buffer)
  end.

(** A buffer holds a complete frame when the first start marker is
    followed by an end marker. *)
Definition complete_frame (buffer : Buffer) : bool :=
  match indexOf buffer Byte.xff Byte.xd8 with
  | Some startIndex => bool_decide (is_Some (indexOf_from buffer Byte.xff Byte.xd9 startIndex))
  | None => false
  end.

End MjpegProxy.

(** A stream cut in three chunks: a byte before the first frame, a frame
    over the three chunks, and the start of the next frame. *)
Definition three_chunks : list MjpegProxy.Buffer :=
  [ [Byte.x00; Byte.xff; Byte.xd8; Byte.x01];
    [Byte.x02; Byte.xff];
    [Byte.xd9; Byte.xff; Byte.xd8] ].

(** A frame that holds a smaller image, as a JPEG with a thumbnail does. *)
Definition with_thumbnail : MjpegProxy.Buffer :=
  [ Byte.xff; Byte.xd8; Byte.x01;
    Byte.xff; Byte.xd8; Byte.x02; Byte.xff; Byte.xd9;
    Byte.x03; Byte.xff; Byte.xd9 ].

(** What is cut out of it. *)
Definition cut_at_thumbnail : MjpegProxy.Buffer :=
  [Byte.xff; Byte.xd8; Byte.x01; Byte.xff; Byte.xd8; Byte.x02; Byte.xff; Byte.xd9].
(** * Properties *)

#[local] Open Scope js_scope.
#[local] Set Warnings "-inexact-float".

(** ** Generalities *)

Lemma index_of_nat {A} (l : list A) (n : nat) : index l (Z.of_nat n) = l !! n.
Proof.
  unfold index. destruct (Z.ltb_spec (Z.of_nat n) 0); [lia|].
  by rewrite Nat2Z.id.
Qed.

Lemma index_Some {A} (l : list A) (i : Z) (a : A) :
  index l i = Some a -> (0 <= i < Z.of_nat (length l))%Z /\ l !! Z.to_nat i = Some a.
Proof.
  unfold index. destruct (Z.ltb_spec i 0); [done|].
  intros Hl. split; [|done]. apply lookup_lt_Some in Hl. lia.
Qed.

Lemma index_in_range {A} (l : list A) (i : Z) :
  (0 <= i < Z.of_nat (length l))%Z -> exists a, index l i = Some a.
Proof.
  intros [H0 Hlt]. unfold index. destruct (Z.ltb_spec i 0); [lia|].
  apply lookup_lt_is_Some. lia.
Qed.

Lemma foldM_app {A B} (f : B -> A -> completion B) (b : B) (l1 l2 : list A) :
  foldM f b (l1 ++ l2) = (b' ← foldM f b l1; foldM f b' l2).
Proof.
  revert b. induction l1 as [|a l1 IH]; intros b; [done|].
  simpl. destruct (f b a) as [b'|e]; simpl; [apply IH | done].
Qed.

Lemma num_eq_refl (a : number) : a ≈ a.
Proof. destruct a; simpl; [reflexivity | done..]. Qed.

Lemma num_eq_sym (a b : number) : a ≈ b -> b ≈ a.
Proof. destruct a, b; simpl; try done; intros H; by symmetry. Qed.

Lemma num_eq_trans (a b c : number) : a ≈ b -> b ≈ c -> a ≈ c.
Proof. destruct a, b, c; simpl; try done; intros H1 H2; by rewrite H1. Qed.

(** ** The score accumulator *)

Section UpdateState.

Context {num : Type} `{!JsNum num}.
#[local] Open Scope js_scope.

Implicit Types (st up : grid num) (decay : num).

Lemma updateState_rows st up decay (done : list (list num)) (k n : nat) :
  (k + n <= length st)%nat -> (k + n <= length up)%nat ->
  foldM (fun done i =>
           srow ← defined (st !! i);
           urow ← defined (up !! i);
           mret (done ++ [update_row decay srow urow]))
        done (seq k n)
  = Normal (done ++ ((fun i => update_row decay (default [] (st !! i)) (default [] (up !! i)))
                       <$> seq k n)).
Proof.
  revert done k. induction n as [|n IH]; intros done k Hs Hu; simpl.
  - by rewrite app_nil_r.
  - destruct (lookup_lt_is_Some_2 st k) as [srow Hsrow]; [lia|].
    destruct (lookup_lt_is_Some_2 up k) as [urow Hurow]; [lia|].
    rewrite Hsrow, Hurow. simpl.
    rewrite IH by lia. by rewrite <- app_assoc.
Qed.

Lemma updateState_Normal st up decay :
  (64 <= length st)%nat -> (64 <= length up)%nat ->
  updateState st up decay
  = Normal (((fun i => update_row decay (default [] (st !! i)) (default [] (up !! i)))
               <$> seq 0 64) ++ drop 64 st).
Proof.
  intros Hs Hu. unfold updateState.
  rewrite (updateState_rows st up decay [] 0 64) by lia. done.
Qed.

Lemma entry_update_row decay (srow urow : list num) (c : nat) :
  (c < 12)%nat ->
  entry (update_row decay srow urow) (Z.of_nat c)
  = decay * entry srow (Z.of_nat c) + (lit 1 - decay) * entry urow (Z.of_nat c).
Proof.
  intros Hc. unfold entry at 1, update_row.
  rewrite index_of_nat, lookup_app_l by (rewrite length_fmap, length_seq; lia).
  rewrite list_lookup_fmap, lookup_seq_lt by lia. done.
Qed.

Lemma cell_row st (s : nat) (c : Z) (row : list num) :
  st !! s = Some row -> cell st (Z.of_nat s) c = entry row c.
Proof. intros H. unfold cell. by rewrite index_of_nat, H. Qed.

Lemma updateState_cell st up decay (s c : nat) :
  (64 <= length st)%nat -> (64 <= length up)%nat -> (s < 64)%nat -> (c < 12)%nat ->
  exists st', updateState st up decay = Normal st' /\
    cell st' (Z.of_nat s) (Z.of_nat c)
    = decay * cell st (Z.of_nat s) (Z.of_nat c)
      + (lit 1 - decay) * cell up (Z.of_nat s) (Z.of_nat c).
Proof.
  intros Hs Hu Hlt Hc. eexists. split; [by apply updateState_Normal|].
  destruct (lookup_lt_is_Some_2 st s) as [srow Hsrow]; [lia|].
  destruct (lookup_lt_is_Some_2 up s) as [urow Hurow]; [lia|].
  rewrite (cell_row st s _ srow), (cell_row up s _ urow) by done.
  erewrite cell_row; [by apply entry_update_row|].
  rewrite lookup_app_l by (rewrite length_fmap, length_seq; lia).
  rewrite list_lookup_fmap, lookup_seq_lt by lia. simpl.
  by rewrite Hsrow, Hurow.
Qed.

End UpdateState.

Lemma entry_lookup {num : Type} `{!JsNum num} (row : list num) (c : nat) (a : num) :
  row !! c = Some a -> entry row (Z.of_nat c) = a.
Proof. intros H. unfold entry. by rewrite index_of_nat, H. Qed.

Lemma entry_unit (row : list number) (c : nat) :
  Forall unit_interval row -> (c < length row)%nat ->
  exists q, entry row (Z.of_nat c) = Fin q /\ (0 <= q <= 1)%Q.
Proof.
  intros Hrow Hc. destruct (lookup_lt_is_Some_2 row c Hc) as [a Ha].
  rewrite (entry_lookup row c a Ha).
  rewrite Forall_lookup in Hrow. specialize (Hrow c a Ha).
  destruct a as [q| | |]; try done. by exists q.
Qed.

Lemma blend_unit (d s u : Q) :
  (0 <= d <= 1)%Q -> (0 <= s <= 1)%Q -> (0 <= u <= 1)%Q ->
  (0 <= d * s + (1 - d) * u <= 1)%Q.
Proof. intros. nra. Qed.

Lemma update_row_length {num : Type} `{!JsNum num} (decay : num) (srow urow : list num) :
  length srow = 12%nat -> length (update_row decay srow urow) = 12%nat.
Proof.
  intros Hs. unfold update_row.
  rewrite length_app, length_fmap, length_seq, length_drop. lia.
Qed.

Lemma update_row_lookup {num : Type} `{!JsNum num} (decay : num) (srow urow : list num) (c : nat) a :
  length srow = 12%nat ->
  update_row decay srow urow !! c = Some a ->
  (c < 12)%nat /\
  a = decay * entry srow (Z.of_nat c) + (lit 1 - decay) * entry urow (Z.of_nat c).
Proof.
  intros Hs Ha.
  assert (c < 12)%nat as Hc.
  { apply lookup_lt_Some in Ha. by rewrite update_row_length in Ha. }
  split; [done|].
  rewrite <- (entry_update_row decay srow urow c Hc).
  symmetry. by apply entry_lookup.
Qed.

Lemma update_row_unit (d : Q) (srow urow : list number) :
  length srow = 12%nat -> length urow = 12%nat ->
  Forall unit_interval srow -> Forall unit_interval urow -> (0 <= d <= 1)%Q ->
  Forall unit_interval (update_row (Fin d) srow urow).
Proof.
  intros Hs Hu Hsrow Hurow Hd. apply Forall_lookup. intros c a Ha.
  apply update_row_lookup in Ha as [Hc ->]; [|done].
  destruct (entry_unit srow c Hsrow) as (s & -> & Hsq); [lia|].
  destruct (entry_unit urow c Hurow) as (u & -> & Huq); [lia|].
  simpl. by apply blend_unit.
Qed.

Lemma updateState_lookup {num : Type} `{!JsNum num} (st up : grid num) (decay : num) :
  length st = 64%nat -> length up = 64%nat ->
  exists st', updateState st up decay = Normal st' /\ length st' = 64%nat /\
    forall (s : nat) (row : list num), st' !! s = Some row ->
      exists srow urow, st !! s = Some srow /\ up !! s = Some urow /\
                        row = update_row decay srow urow.
Proof.
  intros Hs Hu. eexists. split; [apply updateState_Normal; lia|].
  rewrite drop_ge, app_nil_r by lia. split.
  - by rewrite length_fmap, length_seq.
  - intros s row Hrow. rewrite list_lookup_fmap in Hrow.
    destruct (seq 0 64 !! s) as [i|] eqn:Hi; [|done].
    apply lookup_seq in Hi as [-> Hlt]. simpl in *.
    destruct (lookup_lt_is_Some_2 st s) as [srow Hsrow]; [lia|].
    destruct (lookup_lt_is_Some_2 up s) as [urow Hurow]; [lia|].
    rewrite Hsrow, Hurow in Hrow. simpl in Hrow. injection Hrow as <-.
    by exists srow, urow.
Qed.

(** C10: for a decay between 0 and 1, a 64×12 belief state and a detection
    update with entries between 0 and 1 are merged into a 64×12 state with
    entries between 0 and 1, none of them negative; and an all-zero update
    leaves every entry between 0 and its former value. *)
Theorem updateState_unit_interval (st up : grid number) (decay : number) :
  shape st -> shape up -> within_unit st -> within_unit up -> unit_interval decay ->
  exists st', updateState st up decay = Normal st' /\
    shape st' /\ within_unit st' /\
    (all_zero up ->
     forall s c : nat, (s < 64)%nat -> (c < 12)%nat ->
       exists p q, cell st (Z.of_nat s) (Z.of_nat c) = Fin p /\
                   cell st' (Z.of_nat s) (Z.of_nat c) = Fin q /\
                   (0 <= q <= p)%Q).
Proof.
  intros [Hs Hsrows] [Hu Hurows] Hst Hup Hd.
  destruct decay as [d| | |]; try done. simpl in Hd.
  destruct (updateState_lookup st up (Fin d) Hs Hu) as (st' & Hst' & Hlen & Hrows).
  exists st'. split; [done|].
  rewrite !Forall_lookup in Hsrows, Hurows.
  unfold within_unit in *. rewrite !Forall_lookup in Hst, Hup.
  split; [|split].
  - split; [done|]. apply Forall_lookup. intros s row Hrow.
    destruct (Hrows s row Hrow) as (srow & urow & Hsrow & Hurow & ->).
    apply update_row_length. eauto.
  - apply Forall_lookup. intros s row Hrow.
    destruct (Hrows s row Hrow) as (srow & urow & Hsrow & Hurow & ->).
    apply update_row_unit; eauto.
  - intros Hzero s c Hlt Hc.
    destruct (lookup_lt_is_Some_2 st' s) as [row Hrow]; [lia|].
    destruct (Hrows s row Hrow) as (srow & urow & Hsrow & Hurow & ->).
    rewrite (cell_row st s _ srow Hsrow), (cell_row st' s _ _ Hrow).
    rewrite entry_update_row by done.
    destruct (entry_unit srow c) as (p & -> & Hp); [eauto | erewrite Hsrows; eauto |].
    unfold all_zero in Hzero. rewrite Forall_lookup in Hzero.
    specialize (Hzero s urow Hurow). rewrite Forall_lookup in Hzero.
    destruct (lookup_lt_is_Some_2 urow c) as [u Hu']; [erewrite Hurows; eauto|].
    specialize (Hzero c u Hu'). rewrite (entry_lookup urow c u Hu').
    destruct u as [u| | |]; try done. simpl in Hzero.
    exists p, (d * p + (1 - d) * u)%Q. split; [done|]. split; [done|].
    rewrite Hzero. nra.
Qed.

Lemma two_frames_exact (c : nat) :
  (c < 12)%nat ->
  exists a b, two_frames c = Normal (a, b) /\ a ≈ Fin (45 # 100) /\ b ≈ Fin (675 # 1000).
Proof.
  intros Hc.
  do 12 (destruct c as [|c]; [do 2 eexists; split; [vm_compute; reflexivity|]; split; reflexivity|]).
  lia.
Qed.

(** The same two frames in binary64 arithmetic, for each of the classes. *)
Example two_frames_binary64 :
  forallb (fun c => match two_frames (num := float) c with
                    | Normal (a, b) => PrimFloat.eqb a 0.45 && PrimFloat.eqb b 0.675
                    | Throw _ => false
                    end) (seq 0 12) = true.
Proof. vm_compute. reflexivity. Qed.


(** C5: [updateState] blends every cell of the 64×12 grid as
    [decay * state[s][c] + (1 - decay) * update[s][c]]; from the all-zero
    state, two frames that show a class on square 12 at 0.9 with decay 0.5
    give 0.45 and then 0.675. *)
Theorem updateState_blend :
  (forall (st up : grid number) (decay : number),
     (64 <= length st)%nat -> (64 <= length up)%nat ->
     exists st', updateState st up decay = Normal st' /\
       forall s c : nat, (s < 64)%nat -> (c < 12)%nat ->
         cell st' (Z.of_nat s) (Z.of_nat c)
         = decay * cell st (Z.of_nat s) (Z.of_nat c)
           + (lit 1 - decay) * cell up (Z.of_nat s) (Z.of_nat c))
  /\
  (forall c : nat, (c < 12)%nat ->
     exists a b, two_frames c = Normal (a, b) /\ a ≈ Fin (45 # 100) /\ b ≈ Fin (675 # 1000)).
Proof.
  split; [|apply two_frames_exact].
  intros st up decay Hs Hu. eexists. split; [by apply updateState_Normal|].
  intros s c Hlt Hc.
  destruct (updateState_cell st up decay s c Hs Hu Hlt Hc) as (st' & Hst' & Hcell).
  rewrite updateState_Normal in Hst' by done. by injection Hst' as <-.
Qed.

Lemma updateState_blend_witness :
  exists st', updateState (zeros 64 12) (detection 3) (Fin (1 # 2)) = Normal st' /\
    cell st' 12 3 = Fin (1 # 2) * cell (zeros 64 12) 12 3 + (lit 1 - Fin (1 # 2)) * cell (detection 3) 12 3.
Proof.
  destruct (proj1 updateState_blend (zeros 64 12) (detection 3) (Fin (1 # 2)))
    as (st' & Hst' & Hcell); [vm_compute; lia.. |].
  exists st'. split; [done|]. apply (Hcell 12%nat 3%nat); lia.
Defined.

(** ** The candidate move scorer *)


Lemma bind_Normal {A B} (a : A) (f : A -> completion B) : (Normal a ≫= f) = f a.
Proof. done. Qed.

Lemma ret_bind {A B} (a : A) (f : A -> completion B) : (mret a ≫= f) = f a.
Proof. done. Qed.

(** *** [Math.max] on finite numbers *)

Lemma JS_max_Fin (p q : Q) : JS.max (Fin p) (Fin q) = Fin (Qmax p q).
Proof.
  unfold JS.max, JS.gtb, Qmax, GenericMinMax.gmax.
  rewrite <- (Qcompare_antisym p q). by destruct (p ?= q)%Q.
Qed.

Lemma Qmax_cases (p q : Q) : Qmax p q = p \/ Qmax p q = q.
Proof. unfold Qmax, GenericMinMax.gmax. destruct (p ?= q)%Q; auto. Qed.

Lemma foldl_Qmax (qs : list Q) (q : Q) :
  let m := fold_left Qmax qs q in
  m ∈ q :: qs /\ forall x, x ∈ q :: qs -> (x <= m)%Q.
Proof.
  revert q. induction qs as [|y qs IH]; intros q; simpl.
  - split; [constructor|]. intros x ->%list_elem_of_singleton. apply Qle_refl.
  - destruct (IH (Qmax q y)) as [Hin Hub].
    assert (Qmax q y <= fold_left Qmax qs (Qmax q y))%Q as Hm by (apply Hub; constructor).
    split.
    + apply elem_of_cons in Hin as [Hin|Hin]; [|by do 2 constructor].
      rewrite Hin. destruct (Qmax_cases q y) as [Hq|Hq]; rewrite Hq; repeat constructor.
    + intros x [->|[->|Hx]%elem_of_cons]%elem_of_cons.
      * apply Qle_trans with (Qmax q y); [apply Q.le_max_l | done].
      * apply Qle_trans with (Qmax q y); [apply Q.le_max_r | done].
      * apply Hub. by constructor.
Qed.

Lemma foldr_Qmax (qs : list Q) (q : Q) :
  let m := foldr Qmax q qs in
  m ∈ q :: qs /\ forall x, x ∈ q :: qs -> (x <= m)%Q.
Proof.
  induction qs as [|y qs [Hin Hub]]; simpl.
  - split; [constructor|]. intros x ->%list_elem_of_singleton. apply Qle_refl.
  - assert (foldr Qmax q qs <= Qmax y (foldr Qmax q qs))%Q as Hm by apply Q.le_max_r.
    split.
    + destruct (Qmax_cases y (foldr Qmax q qs)) as [Hq|Hq]; rewrite Hq.
      * do 2 constructor.
      * apply elem_of_cons in Hin as [->|Hin]; [constructor | by do 2 constructor].
    + intros x [->|[->|Hx]%elem_of_cons]%elem_of_cons.
      * apply Qle_trans with (foldr Qmax q qs); [apply Hub; constructor | done].
      * apply Q.le_max_l.
      * apply Qle_trans with (foldr Qmax q qs); [apply Hub; by constructor | done].
Qed.

(** Folding from the left, as the code does, or from the right, gives the
    same maximum. *)
Lemma foldl_foldr_Qmax (qs : list Q) (q : Q) : (fold_left Qmax qs q == foldr Qmax q qs)%Q.
Proof.
  destruct (foldl_Qmax qs q) as [Hl Hlub], (foldr_Qmax qs q) as [Hr Hrub].
  apply Qle_antisym; auto.
Qed.

Lemma foldl_max_Fin (qs : list Q) (q : Q) :
  fold_left nmax (Fin <$> qs) (Fin q) = Fin (fold_left Qmax qs q).
Proof.
  revert q. induction qs as [|y qs IH]; intros q; [done|].
  cbn [fmap list_fmap fold_left].
  change (nmax (Fin q) (Fin y)) with (JS.max (Fin q) (Fin y)).
  rewrite JS_max_Fin. apply IH.
Qed.

Lemma Math_max_Fin (q : Q) (qs : list Q) :
  Math_max (Fin <$> q :: qs) = Fin (fold_left Qmax qs q).
Proof. apply (foldl_max_Fin qs q). Qed.

Lemma finite_values (row : list number) : Forall is_finite row -> row = Fin <$> (value <$> row).
Proof.
  induction 1 as [|a row Ha _ IH]; [done|].
  destruct a; try done. simpl. f_equal. exact IH.
Qed.

(** *** The rows of a belief state *)

Lemma belief_state_row (st : grid number) (sq : Z) :
  belief_state st -> (0 <= sq < 64)%Z ->
  exists qs, length qs = 12%nat /\ index st sq = Some (Fin <$> qs).
Proof.
  intros [[Hlen Hrows] Hfin] Hsq.
  destruct (index_in_range st sq) as [row Hrow]; [lia|].
  exists (value <$> row).
  apply index_Some in Hrow as Hrow'. destruct Hrow' as [_ Hrow'].
  rewrite Forall_lookup in Hrows, Hfin.
  split; [rewrite length_fmap; eauto|].
  rewrite Hrow. f_equal. apply finite_values. eauto.
Qed.

Lemma confidence_row (st : grid number) (sq : Z) (qs : list Q) (c : nat) :
  index st sq = Some (Fin <$> qs) -> confidence st sq (Z.of_nat c) = default 0%Q (qs !! c).
Proof.
  intros Hrow. unfold confidence, cell, entry. rewrite Hrow. simpl.
  rewrite index_of_nat, list_lookup_fmap. by destruct (qs !! c).
Qed.

Lemma max_confidence_row (st : grid number) (sq : Z) (qs : list Q) :
  length qs = 12%nat -> index st sq = Some (Fin <$> qs) ->
  exists m, Math_max (Fin <$> qs) = Fin m /\ (m == max_confidence st sq)%Q.
Proof.
  intros Hlen Hrow. destruct qs as [|q qs]; [done|].
  eexists. split; [apply Math_max_Fin|].
  rewrite foldl_foldr_Qmax. unfold max_confidence.
  change (confidence st sq 0) with (confidence st sq (Z.of_nat 0)).
  rewrite (confidence_row st sq (q :: qs) 0 Hrow). simpl default.
  assert (qs = (fun c => confidence st sq (Z.of_nat c)) <$> seq 1 11) as <-; [|reflexivity].
  apply list_eq. intros i. rewrite list_lookup_fmap.
  destruct (decide (i < 11)%nat) as [Hi|Hi].
  - rewrite lookup_seq_lt by done. cbn [fmap option_fmap option_map].
    rewrite (confidence_row st sq (q :: qs) (1 + i) Hrow). simpl.
    destruct (lookup_lt_is_Some_2 qs i) as [x Hx]; [simpl in Hlen; lia|].
    by rewrite Hx.
  - rewrite lookup_seq_ge by lia. apply lookup_ge_None. simpl in Hlen. lia.
Qed.

(** *** The two sums of the score *)

Lemma Qsum_cons (x : Q) (l : list Q) : Qsum (x :: l) = (x + Qsum l)%Q.
Proof. done. Qed.

Section Score.

Variables (st : grid number) (m : MovesData) (ft tt : Q).
Hypothesis Hst : belief_state st.

Lemma score_from (sqs : list Z) (a : Q) :
  Forall (fun sq => 0 <= sq < 64)%Z sqs ->
  exists v,
    foldM (fun score square =>
             row ← defined (index st square);
             mret (score + (lit 1 - Math_max row - Fin ft)))
          (Fin a) sqs = Normal (Fin v) /\
    (v == a + Qsum ((fun sq => 1 - max_confidence st sq - ft) <$> sqs))%Q.
Proof using Hst.
  intros Hsqs. revert a. induction Hsqs as [|sq sqs Hsq _ IH]; intros a.
  - exists a. split; [done|]. cbn. ring.
  - cbn [foldM]. rewrite fmap_cons, Qsum_cons.
    destruct (belief_state_row st sq Hst Hsq) as (qs & Hlen & Hrow).
    destruct (max_confidence_row st sq qs Hlen Hrow) as (mx & Hmax & Hmx).
    rewrite Hrow. cbn [defined]. rewrite bind_Normal, ret_bind, Hmax.
    change (Fin a + (lit 1 - Fin mx - Fin ft)) with (Fin (a + (1 - mx - ft))).
    destruct (IH (a + (1 - mx - ft))%Q) as (v & -> & Hv).
    exists v. split; [done|]. rewrite Hv, Hmx. ring.
Qed.

Lemma score_to (sqs : list Z) (k : nat) (a : Q) :
  Forall (fun sq => 0 <= sq < 64)%Z sqs ->
  Forall (fun c => 0 <= c < 12)%Z (targets m) ->
  (k + length sqs <= length (targets m))%nat ->
  exists v,
    foldM (fun score '(i, square) =>
             row ← defined (index st square);
             mret (score + (from_option (entry row) nan (targets m !! i) - Fin tt)))
          (Fin a) (imap (fun i sq => (k + i, sq)%nat) sqs) = Normal (Fin v) /\
    (v == a + Qsum ((fun '(i, sq) => confidence st sq (default 0%Z (targets m !! i)) - tt)
                      <$> imap (fun i sq => (k + i, sq)%nat) sqs))%Q.
Proof using Hst.
  intros Hsqs Htargets. revert k a.
  induction Hsqs as [|sq sqs Hsq _ IH]; intros k a Hk.
  - exists a. split; [done|]. cbn. ring.
  - rewrite imap_cons. cbn [foldM]. rewrite fmap_cons, Qsum_cons.
    destruct (belief_state_row st sq Hst Hsq) as (qs & Hlen & Hrow).
    rewrite Hrow. cbn [defined]. rewrite bind_Normal, ret_bind, Nat.add_0_r.
    destruct (lookup_lt_is_Some_2 (targets m) k) as [c Hc]; [simpl in Hk; lia|].
    rewrite Hc. cbn [from_option].
    rewrite Forall_lookup in Htargets. specialize (Htargets k c Hc).
    assert (entry (Fin <$> qs) c = Fin (confidence st sq c)) as ->.
    { rewrite <- (Z2Nat.id c) by lia.
      rewrite (confidence_row st sq qs _ Hrow).
      destruct (lookup_lt_is_Some_2 qs (Z.to_nat c)) as [q Hq]; [lia|].
      rewrite Hq. apply entry_lookup. by rewrite list_lookup_fmap, Hq. }
    change (Fin a + (Fin (confidence st sq c) - Fin tt))
      with (Fin (a + (confidence st sq c - tt))).
    rewrite (imap_ext _ (fun i sq => (S k + i, sq)%nat)) by (intros; simpl; f_equal; lia).
    destruct (IH (S k) (a + (confidence st sq c - tt))%Q) as (v & -> & Hv); [simpl in Hk; lia|].
    exists v. split; [done|]. rewrite Hv. unfold id. ring.
Qed.

End Score.

(** C4: on a belief state and a move candidate, [calculateScore] returns,
    without throwing, the sum over the from-squares of
    [1 - max_c state[sq][c] - from_threshold] plus the sum over the
    to-squares of [state[to[i]][targets[i]] - to_threshold]; the thresholds
    default to 0.6. *)
Theorem calculateScore_formula (st : grid number) (m : MovesData) (from_thr to_thr : Q) :
  belief_state st -> candidate m ->
  (exists v, calculateScore st m (Fin from_thr) (Fin to_thr) = Normal (Fin v) /\
             (v == score_formula st m from_thr to_thr)%Q) /\
  (exists v, calculateScore st m thr thr = Normal (Fin v) /\
             (v == score_formula st m (6 # 10) (6 # 10))%Q).
Proof.
  intros Hst (Hfrom & Hto & Htargets & Hlen).
  assert (forall ft tt, exists v, calculateScore st m (Fin ft) (Fin tt) = Normal (Fin v) /\
                                  (v == score_formula st m ft tt)%Q) as H.
  { intros ft tt. unfold calculateScore. change (lit 0) with (Fin 0).
    destruct (score_from st ft Hst (from m) 0 Hfrom) as (v1 & -> & Hv1). rewrite bind_Normal.
    destruct (score_to st m tt Hst (to m) 0 v1 Hto Htargets) as (v & Hv & Hvq); [lia|].
    exists v. split; [exact Hv|].
    change (imap _ (to m)) with (imap pair (to m)) in Hvq.
    rewrite Hvq, Hv1. unfold score_formula. ring. }
  split; [apply H | apply (H (6 # 10) (6 # 10))].
Qed.

(** ** Instances of the hypotheses *)

Lemma shape_zeros {num : Type} `{!JsNum num} : shape (zeros 64 12).
Proof. split; [done|]. by apply Forall_replicate. Qed.

Lemma shape_detection {num : Type} `{!JsNum num} (c : nat) : shape (detection c).
Proof.
  split; [done|]. unfold detection.
  apply Forall_insert; [by apply Forall_replicate|].
  by rewrite length_insert.
Qed.

Lemma within_unit_zeros : within_unit (zeros 64 12).
Proof. do 2 apply Forall_replicate. simpl. lra. Qed.

Lemma within_unit_detection (c : nat) : within_unit (detection c).
Proof.
  apply Forall_insert; [apply within_unit_zeros|].
  apply Forall_insert; [|simpl; lra].
  apply Forall_replicate. simpl. lra.
Qed.

Lemma belief_state_zeros : belief_state (zeros 64 12).
Proof. split; [apply shape_zeros|]. by do 2 apply Forall_replicate. Qed.

Lemma candidate_e4 : candidate e4.
Proof. repeat split; repeat constructor; simpl; lia. Qed.

Lemma updateState_unit_interval_witness :
  exists st', updateState (zeros 64 12) (detection 3) (Fin (1 # 2)) = Normal st' /\
              shape st' /\ within_unit st'.
Proof.
  destruct (updateState_unit_interval (zeros 64 12) (detection 3) (Fin (1 # 2)))
    as (st' & Hst' & Hshape & Hunit & _).
  - apply shape_zeros.
  - apply shape_detection.
  - apply within_unit_zeros.
  - apply within_unit_detection.
  - simpl. lra.
  - by exists st'.
Defined.

Lemma calculateScore_formula_witness :
  exists v, calculateScore (zeros 64 12) e4 thr thr = Normal (Fin v) /\
            (v == score_formula (zeros 64 12) e4 (6 # 10) (6 # 10))%Q.
Proof.
  apply (calculateScore_formula (zeros 64 12) e4 (6 # 10) (6 # 10)).
  - apply belief_state_zeros.
  - apply candidate_e4.
Defined.

(** The maximum of the specification is attained by one of the twelve
    classes and bounds them all. *)
Lemma max_confidence_spec (st : grid number) (sq : Z) :
  (exists c, (c < 12)%nat /\ max_confidence st sq = confidence st sq (Z.of_nat c)) /\
  (forall c, (c < 12)%nat -> (confidence st sq (Z.of_nat c) <= max_confidence st sq)%Q).
Proof.
  unfold max_confidence.
  destruct (foldr_Qmax ((fun c => confidence st sq (Z.of_nat c)) <$> seq 1 11)
                       (confidence st sq 0)) as [Hin Hub].
  split.
  - apply elem_of_cons in Hin as [Hin|Hin].
    + exists 0%nat. split; [lia | exact Hin].
    + apply list_elem_of_fmap in Hin as (c & Hc & Hin).
      apply elem_of_seq in Hin. exists c. split; [lia | exact Hc].
  - intros c Hc. apply Hub. destruct c as [|c]; [constructor|].
    constructor. apply list_elem_of_fmap. exists (S c). split; [done|].
    apply elem_of_seq. lia.
Qed.

(** ** The move selection policy *)

Section LoopFacts.

Context {num : Type} `{!JsNum num} {Board : Type} `{!ChessJs Board}.

Implicit Types (s : Scan num) (b : Board) (tm : gmap string num) (pm : gset string).

Lemma bind_Normal_inv {A B} (m : completion A) (k : A -> completion B) (r : B) :
  m ≫= k = Normal r -> exists a, m = Normal a /\ k a = Normal r.
Proof. destruct m as [a|e]; [|done]. intros Hk. by exists a. Qed.

Lemma board_move_Normal b san b' :
  board_move b san = Normal b' <-> chess_move b san = Some b'.
Proof.
  unfold board_move. destruct (chess_move b san); split; intros Hm; by simplify_eq.
Qed.

Lemma sanToLan_Normal b san lan b' :
  sanToLan b san = Normal (lan, b') -> b' = b /\ exists b1, chess_move b san = Some b1 /\ lan = chess_last_lan b1.
Proof.
  unfold sanToLan. intros (b1 & Hb1 & Hret)%bind_Normal_inv.
  apply board_move_Normal in Hb1. injection Hret as <- <-.
  split; [by eapply chess_undo_move | eauto].
Qed.

Lemma confirmed_pair_Normal mode s b tm hm b' pm' tm' :
  confirmed_pair mode s b (possible s) tm = Normal (hm, b', pm', tm') ->
  (hm = true <-> confirmed mode s) /\
  (hm = true -> exists joint, bestMoves s = Some joint /\
                  chess_move b (san0 joint) = Some b' /\ pm' = ∅ /\ tm' = ∅) /\
  (hm = false -> b' = b /\ pm' = possible s /\ tm' = tm).
Proof.
  unfold confirmed_pair, confirmed. intros Hc.
  destruct (bestMoves s) as [joint|] eqn:Hjoint.
  2: { injection Hc as <- <- <- <-. split; [|done]. split; [done|]. by intros (_ & ? & ? & _). }
  case_bool_decide as Hmode.
  2: { injection Hc as <- <- <- <-. split; [|done]. split; [done|]. by intros [? _]. }
  destruct (bestScore2 s >? lit 0) eqn:H2; simpl in Hc.
  2: { injection Hc as <- <- <- <-. split; [|done]. split; [done|].
       intros (_ & ? & ? & ? & _). congruence. }
  destruct (bestJointScore s >? lit 0) eqn:HJ; simpl in Hc.
  2: { injection Hc as <- <- <- <-. split; [|done]. split; [done|].
       intros (_ & ? & ? & ? & ? & _). congruence. }
  case_bool_decide as Hin; simpl in Hc.
  2: { injection Hc as <- <- <- <-. split; [|done]. split; [done|].
       intros (_ & ? & ? & ? & ? & ?). congruence. }
  apply bind_Normal_inv in Hc as (b1 & Hb1%board_move_Normal & Hret).
  injection Hret as <- <- <- <-.
  split; [|split; [|done]].
  - split; [|done]. intros _. split; [done|]. by exists joint.
  - intros _. by exists joint.
Qed.


Lemma greedy_Normal s hm b last t tm hg b' tm' :
  greedy s hm b last t tm = Normal (hg, b', tm') ->
  (hg = true ->
   hm = false /\
   exists best first,
     bestMove s = Some best /\ (bestScore1 s >? lit 0) = true /\
     first_seen (san0 best) t tm !! san0 best = Some first /\
     (t - first >? lit 1000) = true /\
     chess_move b (san0 best) = Some b' /\ chess_last_lan b' ≠ last /\
     tm' = {[ "greedyMove" := first ]}) /\
  (hg = false ->
   b' = b /\
   (tm' = tm \/
    exists best, bestMove s = Some best /\ hm = false /\
      (bestScore1 s >? lit 0) = true /\ tm' = first_seen (san0 best) t tm)).
Proof.
  unfold greedy. intros Hg.
  destruct (bestMove s) as [best|] eqn:Hbest.
  2: { injection Hg as <- <- <-. split; [done|]. auto. }
  destruct hm; simpl in Hg.
  { injection Hg as <- <- <-. split; [done|]. auto. }
  destruct (bestScore1 s >? lit 0) eqn:H1; simpl in Hg.
  2: { injection Hg as <- <- <-. split; [done|]. auto. }
  apply bind_Normal_inv in Hg as ([lan b0] & Hlan & Hg).
  apply sanToLan_Normal in Hlan as (-> & b1 & Hb1 & ->).
  destruct (first_seen (san0 best) t tm !! san0 best) as [first|] eqn:Hfirst.
  - destruct (t - first >? lit 1000) eqn:Hel; simpl in Hg.
    + case_bool_decide as Hnew; simpl in Hg.
      * apply bind_Normal_inv in Hg as (b2 & Hb2%board_move_Normal & Hg).
        injection Hg as <- <- <-. assert (b2 = b1) as -> by congruence.
        split; [|done]. intros _. split; [done|]. by exists best, first.
      * injection Hg as <- <- <-. split; [done|]. intros _. split; [done|].
        right. by exists best.
    + injection Hg as <- <- <-. split; [done|]. intros _. split; [done|].
      right. by exists best.
  - simpl in Hg. injection Hg as <- <- <-. split; [done|]. intros _. split; [done|].
    right. by exists best.
Qed.

(** The stages of an iteration that completes. *)
Lemma iteration_Normal mode (tr : Tracking num) (f : Frame num Board) (c : Cycle num Board) :
  iteration mode tr f = Normal c ->
  scanned tr f c /\
  exists b1 tm1,
    confirmed_pair mode (scan c) (board f) (possible (scan c)) (greedyMoveToTime tr)
    = Normal (hasMove c, b1, possibleMoves (tracking c), tm1) /\
    greedy (scan c) (hasMove c) b1 (lastMove f) (endTime f) tm1
    = Normal (hasGreedyMove c, board_after c, greedyMoveToTime (tracking c)) /\
    dispatched c =
      if hasMove c || hasGreedyMove c
      then Some (board_after c, if bool_decide (mode = play) then false else hasGreedyMove c)
      else None.
Proof.
  unfold iteration. intros Hc.
  apply bind_Normal_inv in Hc as (update & Hupdate & Hc).
  apply bind_Normal_inv in Hc as (st & Hst & Hc).
  apply bind_Normal_inv in Hc as (s & Hs & Hc).
  apply bind_Normal_inv in Hc as ([[[hm b1] pm1] tm1] & Hcp & Hc).
  apply bind_Normal_inv in Hc as ([[hg b2] tm2] & Hg & Hc).
  injection Hc as <-. simpl. split; [by exists update|]. by exists b1, tm1.
Qed.

Lemma iteration_greedy mode (tr : Tracking num) (f : Frame num Board) (c : Cycle num Board) :
  iteration mode tr f = Normal c -> hasGreedyMove c = true ->
  hasMove c = false /\
  exists best first,
    bestMove (scan c) = Some best /\ (bestScore1 (scan c) >? lit 0) = true /\
    first_seen (san0 best) (endTime f) (greedyMoveToTime tr) !! san0 best = Some first /\
    (endTime f - first >? lit 1000) = true /\
    chess_move (board f) (san0 best) = Some (board_after c) /\
    chess_last_lan (board_after c) ≠ lastMove f /\
    greedyMoveToTime (tracking c) = {[ "greedyMove" := first ]}.
Proof.
  intros (_ & b1 & tm1 & Hcp & Hg & _)%iteration_Normal Hfire.
  apply greedy_Normal in Hg as [Hg _]. destruct (Hg Hfire) as (Hhm & Hrest).
  split; [done|].
  apply confirmed_pair_Normal in Hcp as (_ & _ & Hcp).
  destruct (Hcp Hhm) as (-> & _ & ->). exact Hrest.
Qed.

(** What an iteration does to the timer map. *)
Lemma iteration_timers mode (tr : Tracking num) (f : Frame num Board) (c : Cycle num Board) :
  iteration mode tr f = Normal c ->
  (quiet (Some c) /\
   (greedyMoveToTime (tracking c) = greedyMoveToTime tr \/
    exists best, observed c (san0 best) /\
      greedyMoveToTime (tracking c)
      = first_seen (san0 best) (endTime f) (greedyMoveToTime tr))) \/
  (hasMove c = true /\ greedyMoveToTime (tracking c) = ∅) \/
  (hasGreedyMove c = true /\
   exists first, greedyMoveToTime (tracking c) = {[ "greedyMove" := first ]}).
Proof.
  intros Hc. destruct (hasGreedyMove c) eqn:Hfire.
  { right; right. split; [done|].
    destruct (iteration_greedy mode tr f c Hc Hfire) as (_ & best & first & H'). 
    exists first. apply H'. }
  apply iteration_Normal in Hc as (_ & b1 & tm1 & Hcp & Hg & _). rewrite Hfire in Hg.
  apply greedy_Normal in Hg as [_ Hg]. destruct (Hg eq_refl) as [_ Htm].
  apply confirmed_pair_Normal in Hcp as (_ & Hyes & Hno).
  destruct (hasMove c) eqn:Hhm.
  - right; left. split; [done|].
    destruct (Hyes eq_refl) as (joint & _ & _ & _ & ->).
    destruct Htm as [->|(best & _ & ? & _)]; done.
  - left. destruct (Hno eq_refl) as (_ & _ & ->).
    split; [by exists c|].
    destruct Htm as [->|(best & Hbest & _ & Hpos & ->)]; [by left|].
    right. exists best. split; [|done]. by exists best.
Qed.

(** C2: on a cycle that completes, the confirmed-pair commit fires exactly
    when the mode is not "play", [bestMoves] is not null, [bestScore2 > 0],
    [bestJointScore > 0] and the joint move's first notation is in
    [possibleMoves]; it then plays the joint move on the board, empties
    [possibleMoves] and the greedy timers, and dispatches a non-greedy
    update.  With these conditions and a legal move, the cycle completes and
    commits. *)
Theorem confirmed_pair_commit (mode : Mode) (tr : Tracking num) (f : Frame num Board) :
  (forall c : Cycle num Board,
     iteration mode tr f = Normal c ->
     scanned tr f c /\
     (hasMove c = true <-> confirmed mode (scan c)) /\
     (hasMove c = true ->
      exists joint, bestMoves (scan c) = Some joint /\
        chess_move (board f) (san0 joint) = Some (board_after c) /\
        possibleMoves (tracking c) = ∅ /\ greedyMoveToTime (tracking c) = ∅ /\
        hasGreedyMove c = false /\ dispatched c = Some (board_after c, false))) /\
  (forall update st s joint b',
     getUpdate (scores f) (squares f) = Normal update ->
     updateState (state tr) update (lit (1 # 2)) = Normal st ->
     processState st (movesPairs f) (possibleMoves tr) = Normal s ->
     confirmed mode s -> bestMoves s = Some joint ->
     chess_move (board f) (san0 joint) = Some b' ->
     exists c, iteration mode tr f = Normal c /\ hasMove c = true /\ board_after c = b').
Proof.
  split.
  - intros c (Hscan & b1 & tm1 & Hcp & Hg & Hd)%iteration_Normal.
    apply confirmed_pair_Normal in Hcp as (Hiff & Hyes & _).
    split; [done|]. split; [done|]. intros Hhm.
    destruct (Hyes Hhm) as (joint & Hjoint & Hmove & Hpm & ->).
    rewrite Hhm in Hg. unfold greedy in Hg.
    assert (hasGreedyMove c = false /\ board_after c = b1 /\ greedyMoveToTime (tracking c) = ∅)
      as (Hhg & Hb & Htm).
    { destruct (bestMove (scan c)); simpl in Hg; by injection Hg as <- <- <-. }
    exists joint. rewrite Hhm, Hhg, Hb in *. simpl in Hd.
    repeat split; try done. rewrite Hd. by case_bool_decide.
  - intros update st s joint b' Hupdate Hst Hs Hconf Hjoint Hmove.
    unfold iteration. rewrite Hupdate, bind_Normal, Hst, bind_Normal, Hs, bind_Normal.
    destruct Hconf as (Hmode & joint' & Hjoint' & H2 & HJ & Hin).
    assert (joint' = joint) as -> by congruence.
    unfold confirmed_pair. rewrite Hjoint, H2, HJ.
    rewrite (bool_decide_eq_true_2 (mode ≠ play)) by done.
    rewrite (bool_decide_eq_true_2 (san0 joint ∈ possible s)) by done. simpl.
    apply board_move_Normal in Hmove. rewrite Hmove, !bind_Normal.
    unfold greedy. destruct (bestMove s); simpl; by eexists.
Qed.

(** C1, as amended: in "play" mode the confirmed-pair commit never fires; a
    move reaches the board through the greedy path alone, and the update
    dispatched for it is marked non-greedy. *)
Theorem play_mode_commits (tr : Tracking num) (f : Frame num Board) (c : Cycle num Board) :
  iteration play tr f = Normal c ->
  hasMove c = false /\
  (hasGreedyMove c = false -> board_after c = board f /\ dispatched c = None) /\
  (hasGreedyMove c = true ->
   (exists best, bestMove (scan c) = Some best /\
      chess_move (board f) (san0 best) = Some (board_after c)) /\
   dispatched c = Some (board_after c, false)).
Proof.
  intros Hc.
  assert (hasMove c = false) as Hhm.
  { apply iteration_Normal in Hc as (_ & b1 & tm1 & Hcp & _).
    apply confirmed_pair_Normal in Hcp as ([Hiff _] & _).
    destruct (hasMove c); [|done]. by destruct (Hiff eq_refl) as [? _]. }
  split; [done|]. split.
  - intros Hhg. apply iteration_Normal in Hc as (_ & b1 & tm1 & Hcp & Hg & ->).
    rewrite Hhm, Hhg in *. split; [|done].
    apply greedy_Normal in Hg as [_ Hg]. destruct (Hg eq_refl) as [-> _].
    apply confirmed_pair_Normal in Hcp as (_ & _ & Hno). by destruct (Hno eq_refl).
  - intros Hhg.
    destruct (iteration_greedy play tr f c Hc Hhg) as (_ & best & first & Hbest & _ & _ & _ & Hmove & _).
    split; [by exists best|].
    apply iteration_Normal in Hc as (_ & _ & _ & _ & _ & ->).
    by rewrite Hhm, Hhg.
Qed.

End LoopFacts.

(** *** The greedy timers along a run *)

Lemma not_elapsed_at_once (t : number) : (t - t >? lit 1000) = false.
Proof.
  destruct t as [q| | |]; try done. simpl.
  destruct (Qcompare_spec (q - q) 1000) as [?|?|Hgt]; try done. lra.
Qed.

Lemma first_seen_elapsed (n : string) (t first : number) (tm : gmap string number) :
  first_seen n t tm !! n = Some first -> (t - first >? lit 1000) = true ->
  tm !! n = Some first.
Proof.
  unfold first_seen. destruct (in_object n tm); simpl; [done|].
  rewrite lookup_insert_eq. intros [= <-]. by rewrite not_elapsed_at_once.
Qed.

Lemma first_seen_lookup {num : Type} (n n' : string) (t x : num) (tm : gmap string num) :
  first_seen n t tm !! n' = Some x -> tm !! n' = Some x \/ (n' = n /\ x = t).
Proof.
  unfold first_seen. destruct (in_object n tm); simpl; [by left|].
  destruct (decide (n = n')) as [->|Hne].
  - rewrite lookup_insert_eq. intros [= <-]. by right.
  - rewrite lookup_insert_ne by done. by left.
Qed.

Section Run.

Context {Board : Type} `{!ChessJs Board}.

Implicit Types (s : LoopState number) (frames : list (option (Frame number Board))).

Lemma run_cons mode s f frames :
  run mode s (f :: frames) = (step mode s f).2 :: run mode (step mode s f).1 frames.
Proof. simpl. by destruct (step mode s f). Qed.

Lemma step_Some mode s (f : option (Frame number Board)) c :
  (step mode s f).2 = Some c ->
  exists f', f = Some f' /\
    iteration mode (match s with live tr => tr | _ => fresh end) f' = Normal c /\
    (step mode s f).1 = live (tracking c) /\
    greedyMoveToTime (match s with live tr => tr | _ => fresh end) = timers_of s.
Proof.
  unfold step. destruct s as [|tr|]; destruct f as [f'|]; simpl; try done.
  - destruct (iteration mode fresh f') as [c'|] eqn:Hit; simpl; [|done].
    intros [= ->]. by exists f'.
  - destruct (iteration mode tr f') as [c'|] eqn:Hit; simpl; [|done].
    intros [= ->]. by exists f'.
Qed.

Lemma step_None mode s (f : option (Frame number Board)) :
  (step mode s f).2 = None -> timers_of (step mode s f).1 = ∅.
Proof.
  unfold step. destruct s as [|tr|]; destruct f as [f'|]; simpl; try done.
  - by destruct (iteration mode fresh f').
  - by destruct (iteration mode tr f').
Qed.

(** The entries of the timer map after a step: the key of the last greedy
    commit, an entry that was there before a quiet cycle, or the notation
    observed in this cycle, which was quiet. *)
Lemma step_timers mode s (f : option (Frame number Board)) (n : string) (first : number) :
  timers_of (step mode s f).1 !! n = Some first ->
  n = "greedyMove" \/
  (quiet (step mode s f).2 /\
   (timers_of s !! n = Some first \/
    exists f' c, f = Some f' /\ (step mode s f).2 = Some c /\ observed c n /\
                 endTime f' = first)).
Proof.
  destruct (step mode s f).2 as [c|] eqn:Hc.
  2: { rewrite step_None by done. by rewrite lookup_empty. }
  apply step_Some in Hc as (f' & -> & Hit & -> & Htm). simpl.
  destruct (iteration_timers mode _ f' c Hit)
    as [[Hq [->|(best & Hobs & ->)]] | [[_ ->] | [_ [x ->]]]].
  - rewrite Htm. intros Hn. right. auto.
  - rewrite Htm. intros [Hn|[-> ->]]%first_seen_lookup; right; (split; [done|]); [by left|].
    right. by exists f', c.
  - by rewrite lookup_empty.
  - intros [-> _]%lookup_singleton_Some. by left.
Qed.

Lemma run_greedy_delay mode frames s (Past : string -> number -> Prop) :
  (forall n first, timers_of s !! n = Some first -> n = "greedyMove" \/ Past n first) ->
  forall k fk ck,
    frames !! k = Some (Some fk) -> run mode s frames !! k = Some (Some ck) ->
    hasGreedyMove ck = true ->
    exists best first,
      bestMove (scan ck) = Some best /\
      chess_move (board fk) (san0 best) = Some (board_after ck) /\
      chess_last_lan (board_after ck) ≠ lastMove fk /\
      (endTime fk - first >? lit 1000) = true /\
      (san0 best = "greedyMove" \/
       (Past (san0 best) first /\
        forall i, (i < k)%nat -> quiet (mjoin (run mode s frames !! i))) \/
       exists j fj cj,
         (j < k)%nat /\ frames !! j = Some (Some fj) /\
         run mode s frames !! j = Some (Some cj) /\
         observed cj (san0 best) /\ endTime fj = first /\
         forall i, (j <= i < k)%nat -> quiet (mjoin (run mode s frames !! i))).
Proof.
  revert s Past. induction frames as [|f frames IH]; intros s Past HPast k fk ck Hfk Hck Hfire.
  { done. }
  rewrite run_cons in Hck. destruct k as [|k]; simpl in Hfk, Hck.
  - injection Hfk as ->. injection Hck as Hck.
    apply step_Some in Hck as (f' & [= <-] & Hit & _ & Htm).
    destruct (iteration_greedy mode _ fk ck Hit Hfire)
      as (_ & best & first & Hbest & _ & Hseen & Hel & Hmove & Hlan & _).
    apply first_seen_elapsed in Hseen; [|done]. rewrite Htm in Hseen.
    exists best, first. repeat (split; [done|]).
    destruct (HPast _ _ Hseen) as [?|?]; [by left|]. right; left. split; [done|]. lia.
  - set (s' := (step mode s f).1) in *. set (c := (step mode s f).2) in *.
    destruct (IH s'
                (fun n t => quiet c /\
                   (Past n t \/ exists f' c', f = Some f' /\ c = Some c' /\ observed c' n /\
                                              endTime f' = t))
                ) with (k := k) (fk := fk) (ck := ck)
      as (best & first & Hbest & Hmove & Hlan & Hel & Hwhen); try done.
    { intros n first Hn. apply step_timers in Hn as [?|[Hq [Hn|Hn]]]; [by left|..].
      - apply HPast in Hn as [?|?]; [by left|]. right. auto.
      - right. auto. }
    exists best, first. repeat (split; [done|]).
    destruct Hwhen as [?|[[[Hq [HP|Hobs]] Hquiet]|(j & fj & cj & Hj & Hfj & Hcj & Hobs & Ht & Hquiet)]].
    + by left.
    + right; left. split; [done|]. intros [|i] Hi; rewrite run_cons; simpl; [done|].
      apply Hquiet. lia.
    + right; right. destruct Hobs as (f' & c' & -> & Hc' & Hobs & Ht).
      exists 0%nat, f', c'. rewrite run_cons. fold c. rewrite Hc'.
      repeat (split; [done || lia|]).
      intros [|i] Hi; simpl; [by rewrite <- Hc'|]. apply Hquiet. lia.
    + right; right. exists (S j), fj, cj. rewrite run_cons.
      repeat (split; [done || lia|]).
      intros [|i] Hi; [lia|]. simpl. apply Hquiet. lia.
Qed.

(** C3, as amended: the greedy commit of a notation fires only when its
    long-algebraic form differs from [lastMoveRef.current] and more than
    1000 ms have passed since an earlier cycle in which the notation was the
    best first move with a positive score, with no commit and no restart of
    the tracking in between; the notation need not have stayed the best move
    meanwhile. *)
Theorem greedy_commit_delay (mode : Mode) frames (k : nat) (fk : Frame number Board)
    (ck : Cycle number Board) :
  frames !! k = Some (Some fk) -> run mode waiting frames !! k = Some (Some ck) ->
  hasGreedyMove ck = true ->
  exists best,
    bestMove (scan ck) = Some best /\
    chess_move (board fk) (san0 best) = Some (board_after ck) /\
    chess_last_lan (board_after ck) ≠ lastMove fk /\
    (san0 best ≠ "greedyMove" ->
     exists j fj cj,
       (j < k)%nat /\ frames !! j = Some (Some fj) /\
       run mode waiting frames !! j = Some (Some cj) /\
       observed cj (san0 best) /\
       (endTime fk - endTime fj >? lit 1000) = true /\
       forall i, (j <= i < k)%nat -> quiet (mjoin (run mode waiting frames !! i))).
Proof.
  intros Hfk Hck Hfire.
  destruct (run_greedy_delay mode frames waiting (fun _ _ => False)) with (k := k) (fk := fk) (ck := ck)
    as (best & first & Hbest & Hmove & Hlan & Hel & Hwhen); try done.
  exists best. repeat (split; [done|]). intros Hkey.
  destruct Hwhen as [?|[[[] _]|(j & fj & cj & Hj & Hfj & Hcj & Hobs & <- & Hquiet)]]; [done|].
  by exists j, fj, cj.
Qed.

End Run.

(** ** The scenarios of the loop *)

Lemma outline_steady :
  outline <$> run (num := number) play waiting steady
  = [Some (Some "e4", true, false, false, [], None);
     Some (Some "e4", true, false, true, ["e2e4"], Some (["e2e4"], false))].
Proof. vm_compute. reflexivity. Qed.

Example outline_steady_binary64 :
  outline <$> run (num := float) play waiting steady
  = [Some (Some "e4", true, false, false, [], None);
     Some (Some "e4", true, false, true, ["e2e4"], Some (["e2e4"], false))].
Proof. vm_compute. reflexivity. Qed.

Lemma outline_flicker :
  outline <$> run (num := number) record waiting flicker
  = [Some (Some "e4", true, false, false, [], None);
     Some (Some "d4", true, false, false, [], None);
     Some (Some "e4", true, false, true, ["e2e4"], Some (["e2e4"], true))].
Proof. vm_compute. reflexivity. Qed.

Example outline_flicker_binary64 :
  outline <$> run (num := float) record waiting flicker
  = [Some (Some "e4", true, false, false, [], None);
     Some (Some "d4", true, false, false, [], None);
     Some (Some "e4", true, false, true, ["e2e4"], Some (["e2e4"], true))].
Proof. vm_compute. reflexivity. Qed.

(** Reading a cycle of a run off the outline of the run. *)
Lemma outline_cycle {num Board : Type} `{!JsNum num} `{!ChessJs Board}
    (cycles : list (option (Cycle num Board))) outlines (i : nat) o :
  outline <$> cycles = outlines -> outlines !! i = Some (Some o) ->
  exists c, cycles !! i = Some (Some c) /\ outline (Some c) = Some o.
Proof.
  intros <-. rewrite list_lookup_fmap.
  destruct (cycles !! i) as [[c|]|]; simpl; intros [= <-]. by exists c.
Qed.

Lemma outline_inv {num Board : Type} `{!JsNum num} `{!ChessJs Board}
    (c : Cycle num Board) n p hm hg b d :
  outline (Some c) = Some (n, p, hm, hg, b, d) ->
  san0 <$> bestMove (scan c) = n /\ (bestScore1 (scan c) >? lit 0) = p /\
  hasMove c = hm /\ hasGreedyMove c = hg /\ board_after c = b /\ dispatched c = d.
Proof. unfold outline. simpl. by intros [= <- <- <- <- <- <-]. Qed.

(** C1 refuted: in "play" mode, a pawn seen on e4 for 1500 ms is committed
    by the greedy path. *)
Lemma play_mode_greedy_commit :
  exists c : Cycle number (list string),
    run play waiting steady !! 1%nat = Some (Some c) /\
    hasMove c = false /\ hasGreedyMove c = true /\
    board_after c = ["e2e4"] /\ dispatched c = Some (["e2e4"], false).
Proof.
  destruct (outline_cycle _ _ 1 _ outline_steady eq_refl) as (c & Hc & Ho).
  apply outline_inv in Ho as (_ & _ & ? & ? & ? & ?).
  exists c. repeat split; assumption.
Qed.

(** C3 refuted: the pawn seen on e4, then on d4, then on e4 again is
    committed at 1200 ms, although e4 was not the best move at 600 ms. *)
Lemma greedy_commit_without_continuity :
  ~ continuous_observation (num := number) record flicker.
Proof.
  intros H.
  destruct (outline_cycle _ _ 2 _ outline_flicker eq_refl) as (c2 & H2 & Ho2).
  apply outline_inv in Ho2 as (Hbest2 & _ & _ & Hfire & _).
  destruct (H 2%nat (sighting 28 1200) c2 eq_refl H2 Hfire)
    as (best & j & fj & Hbest & Hj & Hfj & Hel & Hobs).
  rewrite Hbest in Hbest2. injection Hbest2 as Hbest2.
  destruct (decide (j = 2%nat)) as [->|Hj2].
  - injection Hfj as <-. by vm_compute in Hel.
  - destruct (Hobs 1%nat) as (c1 & best' & H1 & Hbest' & Hsame & _); [lia|].
    destruct (outline_cycle _ _ 1 _ outline_flicker eq_refl) as (c1' & H1' & Ho1).
    assert (c1' = c1) as -> by congruence.
    apply outline_inv in Ho1 as (Hbest1 & _).
    rewrite Hbest' in Hbest1. injection Hbest1 as Hbest1. congruence.
Qed.

Lemma greedy_commit_delay_witness :
  exists (c : Cycle number (list string)) best,
    run record waiting flicker !! 2%nat = Some (Some c) /\
    bestMove (scan c) = Some best /\
    chess_move [] (san0 best) = Some (board_after c).
Proof.
  destruct (outline_cycle _ _ 2 _ outline_flicker eq_refl) as (c & Hc & Ho).
  apply outline_inv in Ho as (_ & _ & _ & Hfire & _).
  destruct (greedy_commit_delay record flicker 2 (sighting 28 1200) c eq_refl Hc Hfire)
    as (best & Hbest & Hmove & _).
  exists c, best. repeat split; assumption.
Defined.

Lemma play_mode_commits_witness :
  exists c : Cycle number (list string),
    iteration play fresh (sighting 28 0) = Normal c /\ hasMove c = false.
Proof.
  assert (exists c : Cycle number (list string), iteration play fresh (sighting 28 0) = Normal c)
    as [c Hc] by (eexists; vm_compute; reflexivity).
  exists c. split; [exact Hc|].
  apply (play_mode_commits fresh (sighting 28 0) c Hc).
Defined.

Lemma confirmed_pair_commit_witness :
  exists c : Cycle number (list string),
    iteration record fresh exchange = Normal c /\
    (hasMove c = true <-> confirmed record (scan c)) /\
    board_after c = ["e2e4"].
Proof.
  assert (exists c : Cycle number (list string),
            iteration record fresh exchange = Normal c /\ board_after c = ["e2e4"])
    as (c & Hc & Hb) by (eexists; split; vm_compute; reflexivity).
  exists c.
  destruct (proj1 (confirmed_pair_commit record fresh exchange) c Hc) as (_ & Hiff & _).
  split; [exact Hc|]. split; [exact Hiff | exact Hb].
Defined.

Example exchange_binary64 :
  match iteration (num := float) record fresh exchange with
  | Normal c => outline (Some c)
  | Throw _ => None
  end = Some (Some "e4", true, true, false, ["e2e4"], Some (["e2e4"], false)).
Proof. vm_compute. reflexivity. Qed.

(** ** The scoring pass *)

Section ProcessState.

Context {num : Type} `{!JsNum num}.

Implicit Types (st : grid num) (s : Scan num).

Lemma score_pair_scored st s m1 m2 ms s' :
  score_pair st s m1 m2 ms = Normal s' -> scored s' = scored s.
Proof.
  unfold score_pair. intros (score2 & _ & Hs)%bind_Normal_inv.
  destruct (score2 <? lit 0); [by injection Hs as <-|].
  apply bind_Normal_inv in Hs as (jointScore & _ & Hs). by injection Hs as <-.
Qed.

Lemma process_pair_scored st s (p : MovesPair) s' :
  in_Set (san0 (move1 p)) (seen s) = false ->
  process_pair st s p = Normal s' -> scored s' = scored s ++ [san0 (move1 p)].
Proof.
  intros Hin. unfold process_pair, score_first. rewrite Hin. simpl.
  intros (s1 & (score & _ & Hs1)%bind_Normal_inv & Hs')%bind_Normal_inv.
  injection Hs1 as <-. simpl in Hs'.
  destruct (move2 p) as [m2|], (moves p) as [ms|]; try by injection Hs' as <-.
  case_bool_decide; [|by injection Hs' as <-].
  by apply score_pair_scored in Hs'.
Qed.

Lemma foldM_process_pair_scored st (pairs : list MovesPair) s s' :
  Forall (fun p => inherited (Set_prototype_keys ++ Object_prototype_keys) (san0 (move1 p)) = false)
         pairs ->
  foldM (process_pair st) s pairs = Normal s' ->
  scored s' = scored s ++ (san0 ∘ move1 <$> pairs).
Proof.
  intros Hkeys. revert s. induction Hkeys as [|p pairs Hp _ IH]; intros s; simpl.
  - intros [= <-]. by rewrite app_nil_r.
  - intros (s1 & Hs1 & Hs')%bind_Normal_inv.
    apply process_pair_scored in Hs1; [|done].
    rewrite (IH s1 Hs'), Hs1, <- app_assoc. done.
Qed.

End ProcessState.

(** C8, on the code: the first move of every pair is scored, whether its
    notation was seen earlier in the cycle or not, since [in] on the [Set]
    [seen] does not look at its elements; two pairs that share the first
    move e4 have it scored twice. *)
Theorem first_move_scored_for_every_pair :
  (forall (st : grid number) (pairs : list MovesPair) (possibleMoves : gset string) s,
     Forall (fun p => inherited (Set_prototype_keys ++ Object_prototype_keys)
                                (san0 (move1 p)) = false) pairs ->
     processState st pairs possibleMoves = Normal s ->
     scored s = san0 ∘ move1 <$> pairs) /\
  (exists s, processState (num := number) (zeros 64 12) [single e4; single e4] ∅ = Normal s /\
             scored s = ["e4"; "e4"] /\ elements (seen s) = ["e4"]).
Proof.
  split.
  - intros st pairs pm s Hkeys Hs. apply (foldM_process_pair_scored st pairs _ s Hkeys Hs).
  - eexists. split; [vm_compute; reflexivity|]. split; vm_compute; reflexivity.
Qed.

Example first_move_scored_twice_binary64 :
  match processState (num := float) (zeros 64 12) [single e4; single e4] ∅ with
  | Normal s => scored s
  | Throw _ => []
  end = ["e4"; "e4"].
Proof. vm_compute. reflexivity. Qed.


(** ** The piece-base coordinate averager *)

Section AveragerFacts.

Context {num : Type} `{!JsNum num}.

Import Averager.

Implicit Types (buffers : gmap string (PieceBaseBuffer num)) (buf : PieceBaseBuffer num).

Lemma addToPieceBaseBuffer_below moveKey s c buffers :
  (S (frameCount (buffer_of moveKey buffers)) < 5)%nat ->
  addToPieceBaseBuffer moveKey s c buffers
  = (<[moveKey := pushed (buffer_of moveKey buffers) s c]> buffers, not_ready).
Proof.
  intros Hlt. unfold addToPieceBaseBuffer, FRAMES_TO_AVERAGE. fold (buffer_of moveKey buffers).
  simpl. case_decide; [lia | done].
Qed.

Lemma addToPieceBaseBuffer_fifth moveKey s c buffers :
  (5 <= S (frameCount (buffer_of moveKey buffers)))%nat ->
  addToPieceBaseBuffer moveKey s c buffers
  = (delete moveKey buffers,
     let buf := pushed (buffer_of moveKey buffers) s c in
     {| sourceAvg := Some (averageCoordinates (sourcePieceBase buf));
        capturedAvg := if decide (0 < length (capturedPieceBase buf))%nat
                       then Some (averageCoordinates (capturedPieceBase buf)) else None;
        ready := true |}).
Proof.
  intros Hle. unfold addToPieceBaseBuffer, FRAMES_TO_AVERAGE. fold (buffer_of moveKey buffers).
  simpl. case_decide; [done | lia].
Qed.

Lemma pushed_captured buf s c (rest : list (list num)) :
  capturedPieceBase (pushed buf s c) ++ rest
  = capturedPieceBase buf ++ (from_option (fun c => [c]) [] c ++ rest).
Proof. destruct c; simpl; [by rewrite <- app_assoc | done]. Qed.

(** The frames fed before the count reaches 5 yield nothing; the frame that
    makes it 5 yields the averages of all the observations buffered. *)
Lemma feed_count moveKey (frames : list (list num * option (list num))) buffers :
  let buf := buffer_of moveKey buffers in
  (frameCount buf + length frames <= 5)%nat ->
  exists results,
    feed moveKey frames buffers = results /\
    length results = length frames /\
    forall i r, results !! i = Some r ->
      if decide (frameCount buf + S i = 5)%nat
      then ready r = true /\
           sourceAvg r = Some (averageCoordinates (sourcePieceBase buf ++ (fst <$> frames))) /\
           capturedAvg r =
             (let caps := capturedPieceBase buf ++ omap snd frames in
              if decide (0 < length caps)%nat then Some (averageCoordinates caps) else None)
      else r = not_ready.
Proof.
  revert buffers. induction frames as [|[s c] frames IH]; intros buffers buf Hle.
  { exists []. by repeat split. }
  simpl in Hle. cbn [feed].
  destruct (decide (S (frameCount buf) < 5)%nat) as [Hlt|Hge].
  - rewrite addToPieceBaseBuffer_below by done. fold buf.
    destruct (IH (<[moveKey := pushed buf s c]> buffers)) as (results & Hfeed & Hlen & Hres).
    { unfold buffer_of. rewrite lookup_insert_eq. simpl. lia. }
    unfold buffer_of in Hres. rewrite lookup_insert_eq in Hres. cbn [default] in Hres.
    exists (not_ready :: results). rewrite Hfeed. split; [done|]. split; [simpl; lia|].
    intros [|i] r Hr; simpl in Hr.
    + injection Hr as <-. destruct (decide (frameCount buf + 1 = 5)%nat); [lia | done].
    + specialize (Hres i r Hr). unfold id in Hres. rewrite !pushed_captured in Hres.
      cbn [frameCount sourcePieceBase pushed] in Hres.
      replace (frameCount buf + S (S i))%nat with (S (frameCount buf) + S i)%nat by lia.
      rewrite fmap_cons, cons_middle, app_assoc. cbn [fst].
      replace (omap snd ((s, c) :: frames)) with (from_option (fun c => [c]) [] c ++ omap snd frames)
        by (by destruct c).
      exact Hres.
  - assert (frames = []) as -> by (destruct frames; [done | simpl in Hle; lia]).
    rewrite addToPieceBaseBuffer_fifth by (fold buf; lia). fold buf.
    eexists. split; [done|]. split; [done|].
    intros [|i] r Hr; simpl in Hr; [|done]. injection Hr as <-.
    destruct (decide (frameCount buf + 1 = 5)%nat); [|lia]. cbv zeta. cbn [ready sourceAvg capturedAvg].
    split; [done|]. split; [done|].
    by destruct c; simpl; rewrite ?app_nil_r.
Qed.

(** *** The buffer of the detection loop *)

Implicit Types (b : LoopBuffer num).

Lemma collect_below move s isCapture c b buffers :
  collecting_for move b -> (S (framesCollected b) < 5)%nat ->
  exists b', collect move (Some s) isCapture c b buffers = (b', buffers, None) /\
    collecting_for move b' /\ framesCollected b' = S (framesCollected b) /\
    source b' = source b ++ [s] /\ captured b' = captured b ++ captured_push isCapture c.
Proof.
  intros (Hkey & Hcol & Hlen) Hlt. unfold collect.
  rewrite bool_decide_eq_false_2 by (by intros []). rewrite Hcol.
  rewrite bool_decide_eq_true_2 by lia. simpl.
  rewrite bool_decide_eq_false_2 by lia.
  eexists. split; [done|]. repeat split; try done.
  - cbn [source framesCollected]. rewrite length_app. simpl. lia.
  - cbn [captured]. unfold captured_push. destruct c, isCapture; simpl; by rewrite ?app_nil_r.
Qed.

Lemma collect_fifth move s isCapture c b buffers :
  collecting_for move b -> framesCollected b = 4%nat ->
  exists b' r, collect move (Some s) isCapture c b buffers = (b', buffers, Some r) /\
    collecting b' = false /\ moveKey b' = move /\
    averagedSourcePieceBase r = mean (source b ++ [s]) /\
    averagedCapturedPieceBase r =
      (let caps := captured b ++ captured_push isCapture c in
       if decide (5 <= length caps)%nat then Some (mean caps) else None) /\
    collectedFrames r = 5%nat.
Proof.
  intros (Hkey & Hcol & Hlen) Hfour. unfold collect.
  rewrite bool_decide_eq_false_2 by (by intros []). rewrite Hcol, Hfour. simpl.
  do 2 eexists. split; [done|]. repeat split; try done. simpl.
  unfold captured_push. destruct c, isCapture; simpl; rewrite ?app_nil_r;
    by repeat (case_decide || case_bool_decide).
Qed.

Lemma collect_frames_count move isCapture (frames : list (list num * option (list num))) b buffers :
  collecting_for move b -> (framesCollected b + length frames <= 5)%nat ->
  exists results,
    collect_frames move isCapture ((fun f => (Some f.1, f.2)) <$> frames) b buffers = results /\
    length results = length frames /\
    forall i r, results !! i = Some r ->
      if decide (framesCollected b + S i = 5)%nat
      then exists r', r = Some r' /\
             averagedSourcePieceBase r' = mean (source b ++ (fst <$> frames)) /\
             averagedCapturedPieceBase r' =
               (let caps := captured b ++ (if isCapture then omap snd frames else []) in
                if decide (5 <= length caps)%nat then Some (mean caps) else None) /\
             collectedFrames r' = 5%nat
      else r = None.
Proof.
  revert b buffers. induction frames as [|[s c] frames IH]; intros b buffers Hb Hle.
  { exists []. by repeat split. }
  simpl in Hle. rewrite fmap_cons. cbn [collect_frames fst snd].
  assert (forall rest : list (list num),
            captured b ++ captured_push isCapture c ++ (if isCapture then rest else [])
            = captured b ++ (if isCapture then from_option (fun c => [c]) [] c ++ rest else []))
    as Hcaps by (intros rest; unfold captured_push; by destruct isCapture).
  assert (omap snd ((s, c) :: frames) = from_option (fun c => [c]) [] c ++ omap snd frames)
    as Homap by (by destruct c).
  destruct (decide (S (framesCollected b) < 5)%nat) as [Hlt|Hge].
  - destruct (collect_below move s isCapture c b buffers Hb Hlt)
      as (b' & -> & Hb' & Hn & Hsrc & Hcap).
    destruct (IH b' buffers Hb') as (results & Hfeed & Hlen & Hres); [lia|].
    exists (None :: results). rewrite Hfeed. split; [done|]. split; [simpl; lia|].
    intros [|i] r Hr; simpl in Hr.
    + injection Hr as <-. destruct (decide (framesCollected b + 1 = 5)%nat); [lia | done].
    + specialize (Hres i r Hr). rewrite Hn, Hsrc, Hcap, <- !app_assoc, !Hcaps in Hres.
      replace (framesCollected b + S (S i))%nat with (S (framesCollected b) + S i)%nat by lia.
      rewrite fmap_cons, Homap. exact Hres.
  - assert (frames = []) as -> by (destruct frames; [done | simpl in Hle; lia]).
    destruct (collect_fifth move s isCapture c b buffers Hb)
      as (b' & r & -> & _ & _ & Havg & Hcavg & Hn); [lia|].
    exists [Some r]. split; [done|]. split; [done|].
    intros [|i] r' Hr; simpl in Hr; [|done]. injection Hr as <-.
    destruct (decide (framesCollected b + 1 = 5)%nat); [|lia].
    exists r. split; [done|]. split; [done|]. split; [|done].
    rewrite Hcavg. cbv zeta. rewrite Homap, <- Hcaps.
    unfold captured_push. destruct isCapture; by rewrite ?app_nil_r.
Qed.

(** The first frame of a new move restarts the collection. *)
Lemma collect_restart move s isCapture c b buffers :
  moveKey b ≠ move ->
  collect move (Some s) isCapture c b buffers
  = collect move (Some s) isCapture c
      {| source := []; captured := []; moveKey := move; collecting := true;
         framesCollected := 0 |}
      (clearPieceBaseBuffer move buffers).
Proof.
  intros Hkey. unfold collect.
  rewrite (bool_decide_eq_true_2 (moveKey b ≠ move)) by done.
  cbn [moveKey]. rewrite (bool_decide_eq_false_2 (move ≠ move)) by (by intros []). done.
Qed.

End AveragerFacts.


(** *** The mean of coordinate pairs over the exact numbers *)

Lemma sum_coordinates_points (pts : list (Q * Q)) (a b : Q) :
  exists a' b',
    fold_left (fun acc coord => (acc.1 + entry coord 0, acc.2 + entry coord 1))
              (coords <$> pts) (Fin a, Fin b) = (Fin a', Fin b') /\
    (a' == a + Qsum (fst <$> pts))%Q /\ (b' == b + Qsum (snd <$> pts))%Q.
Proof.
  revert a b. induction pts as [|[x y] pts IH]; intros a b.
  - exists a, b. split; [done|]. cbn. split; ring.
  - rewrite !fmap_cons, !Qsum_cons. cbn [fold_left].
    change (((Fin a, Fin b).1 + entry (coords (x, y)) 0, (Fin a, Fin b).2 + entry (coords (x, y)) 1))
      with (Fin (a + x), Fin (b + y)).
    destruct (IH (a + x)%Q (b + y)%Q) as (a' & b' & -> & Ha & Hb).
    exists a', b'. split; [done|]. rewrite Ha, Hb. cbn [fst snd]. split; ring.
Qed.

Lemma div_length (p : Q) (n : nat) :
  (0 < n)%nat -> Fin p / of_nat n = Fin (p / inject_Z (Z.of_nat n)).
Proof. intros Hn. destruct n; [lia|]. done. Qed.

Lemma mean_points (pts : list (Q * Q)) :
  (0 < length pts)%nat -> mean_of pts (Averager.mean (coords <$> pts)).
Proof.
  intros Hn. unfold Averager.mean, Averager.sum_coordinates. change (lit 0) with (Fin 0).
  destruct (sum_coordinates_points pts 0 0) as (a & b & -> & Ha & Hb).
  rewrite length_fmap. cbn [fst snd]. rewrite !div_length by done.
  eexists _, _. split; [done|]. unfold Qmean. rewrite !length_fmap, Ha, Hb.
  split; field; unfold Qeq; simpl; lia.
Qed.

Lemma averageCoordinates_points (pts : list (Q * Q)) :
  (0 < length pts)%nat ->
  Averager.averageCoordinates (num := number) (coords <$> pts) = Averager.mean (coords <$> pts).
Proof.
  intros Hn. unfold Averager.averageCoordinates.
  case_decide as Hlen; [|done]. rewrite length_fmap in Hlen. lia.
Qed.

Lemma fst_observations (pts : list ((Q * Q) * option (Q * Q))) :
  (fst <$> observations (num := number) pts) = (coords <$> (fst <$> pts)).
Proof. unfold observations. rewrite <- !list_fmap_compose. by apply list_fmap_ext. Qed.

Lemma snd_observations (pts : list ((Q * Q) * option (Q * Q))) :
  omap snd (observations (num := number) pts) = (coords <$> captured_of pts).
Proof.
  unfold observations, captured_of.
  induction pts as [|[p [c|]] pts IH]; [done| |]; simpl; [f_equal|]; exact IH.
Qed.

Lemma detected_observations (pts : list ((Q * Q) * option (Q * Q))) :
  detected (num := number) pts = (fun f => (Some f.1, f.2)) <$> observations pts.
Proof. unfold detected, observations. rewrite <- list_fmap_compose. by apply list_fmap_ext. Qed.

Lemma length_observations (pts : list ((Q * Q) * option (Q * Q))) :
  length (observations (num := number) pts) = length pts.
Proof. unfold observations. by rewrite length_fmap. Qed.

Lemma length_captured_of (pts : list ((Q * Q) * option (Q * Q))) :
  (length (captured_of pts) <= length pts)%nat.
Proof.
  unfold captured_of. induction pts as [|[p [c|]] pts IH]; [done| |]; cbn [omap list_omap snd length] in *; lia.
Qed.

(** A list is [n] copies of [x] followed by [y] when its entries say so. *)
Lemma replicate_snoc {A} (l : list A) (n : nat) (x : A) (P : A -> Prop) :
  length l = S n ->
  (forall i r, l !! i = Some r -> if decide (S i = S n) then P r else r = x) ->
  exists y, l = replicate n x ++ [y] /\ P y.
Proof.
  revert l. induction n as [|n IH]; intros l Hlen Hl.
  - destruct l as [|y [|]]; try done. exists y. split; [done|]. apply (Hl 0%nat y eq_refl).
  - destruct l as [|x' l]; [done|].
    pose proof (Hl 0%nat x' eq_refl) as Hx. simpl in Hx. subst x'.
    destruct (IH l) as (y & -> & Hy); [simpl in Hlen; lia| |by exists y].
    intros i r Hr. specialize (Hl (S i) r Hr).
    destruct (decide (S i = S n)), (decide (S (S i) = S (S n))); try done; lia.
Qed.

Lemma all_replicate {A} (l : list A) (x : A) :
  (forall i r, l !! i = Some r -> r = x) -> l = replicate (length l) x.
Proof.
  induction l as [|y l IH]; intros Hl; [done|]. simpl.
  rewrite (Hl 0%nat y eq_refl). f_equal. apply IH. intros i r Hr. apply (Hl (S i) r Hr).
Qed.

Section AveragingOfFive.

Import Averager.

Implicit Types (pts : list ((Q * Q) * option (Q * Q))).

Lemma feed_five moveKey (buffers : gmap string (PieceBaseBuffer number)) pts :
  buffers !! moveKey = None -> length pts = 5%nat ->
  exists r, feed moveKey (observations pts) buffers = replicate 4 not_ready ++ [r] /\
    ready r = true /\
    (exists avg, sourceAvg r = Some avg /\ mean_of (fst <$> pts) avg) /\
    mean_when (bool_decide (0 < length (captured_of pts))%nat) (captured_of pts) (capturedAvg r).
Proof.
  intros Hkey Hlen.
  destruct (feed_count moveKey (observations pts) buffers) as (results & -> & Hn & Hres).
  { unfold buffer_of. rewrite Hkey, length_observations. simpl. lia. }
  unfold buffer_of in Hres. rewrite Hkey in Hres.
  cbn [default frameCount sourcePieceBase capturedPieceBase] in Hres.
  rewrite length_observations, Hlen in Hn.
  destruct (replicate_snoc results 4 not_ready
              (fun r => ready r = true /\
                 sourceAvg r = Some (averageCoordinates (coords <$> (fst <$> pts))) /\
                 capturedAvg r =
                   if decide (0 < length (captured_of pts))%nat
                   then Some (averageCoordinates (coords <$> captured_of pts)) else None))
    as (r & -> & Hready & Havg & Hcap); [done| |].
  { intros i r Hr. specialize (Hres i r Hr). cbv zeta in Hres.
    rewrite fst_observations, snd_observations, !app_nil_l, length_fmap in Hres.
    destruct (decide (S i = 5%nat)), (decide (0 + S i = 5)%nat); done || lia. }
  exists r. split; [done|]. split; [done|]. split.
  - eexists. split; [exact Havg|]. rewrite averageCoordinates_points by (rewrite length_fmap; lia).
    apply mean_points. rewrite length_fmap. lia.
  - unfold mean_when. rewrite Hcap. case_bool_decide as Hc.
    + rewrite decide_True by done. eexists. split; [done|].
      rewrite averageCoordinates_points by done. by apply mean_points.
    + by rewrite decide_False.
Qed.

Lemma feed_fewer moveKey (buffers : gmap string (PieceBaseBuffer number)) pts :
  buffers !! moveKey = None -> (length pts < 5)%nat ->
  feed moveKey (observations pts) buffers = replicate (length pts) not_ready.
Proof.
  intros Hkey Hlen.
  destruct (feed_count moveKey (observations pts) buffers) as (results & -> & Hn & Hres).
  { unfold buffer_of. rewrite Hkey, length_observations. simpl. lia. }
  unfold buffer_of in Hres. rewrite Hkey in Hres. cbn [default frameCount] in Hres.
  rewrite length_observations in Hn. rewrite <- Hn. apply all_replicate.
  intros i r Hr. specialize (Hres i r Hr). apply lookup_lt_Some in Hr.
  case_decide; [lia | done].
Qed.

Lemma collect_frames_restart move isCapture (b : LoopBuffer number) buffers
    (frames : list (option (list number) * option (list number))) s c :
  moveKey b ≠ move ->
  collect_frames move isCapture ((Some s, c) :: frames) b buffers
  = collect_frames move isCapture ((Some s, c) :: frames)
      {| source := []; captured := []; moveKey := move; collecting := true;
         framesCollected := 0 |}
      (clearPieceBaseBuffer move buffers).
Proof. intros Hkey. cbn [collect_frames]. by rewrite collect_restart. Qed.

Lemma detected_cons p pts :
  exists s c, detected (num := number) (p :: pts) = (Some s, c) :: detected pts.
Proof. by eexists _, _. Qed.

Lemma collect_five move isCapture (b : LoopBuffer number) buffers pts :
  moveKey b ≠ move -> length pts = 5%nat ->
  exists r, collect_frames move isCapture (detected pts) b buffers = replicate 4 None ++ [Some r] /\
    mean_of (fst <$> pts) (averagedSourcePieceBase r) /\
    mean_when (isCapture && bool_decide (5 <= length (captured_of pts))%nat)
              (captured_of pts) (averagedCapturedPieceBase r) /\
    collectedFrames r = 5%nat.
Proof.
  intros Hkey Hlen. destruct pts as [|p pts]; [done|].
  destruct (detected_cons p pts) as (s & c & Hd).
  rewrite Hd, collect_frames_restart by done. rewrite <- Hd, detected_observations.
  destruct (collect_frames_count move isCapture (observations (p :: pts))
              {| source := []; captured := []; moveKey := move; collecting := true;
                 framesCollected := 0 |}
              (clearPieceBaseBuffer move buffers)) as (results & -> & Hn & Hres).
  { done. }
  { rewrite length_observations. simpl in *. lia. }
  rewrite length_observations, Hlen in Hn.
  cbn [source captured framesCollected] in Hres.
  set (caps := if isCapture then coords (num := number) <$> captured_of (p :: pts) else []).
  destruct (replicate_snoc results 4 None
              (fun r => exists r', r = Some r' /\
                 averagedSourcePieceBase r' = mean (coords <$> (fst <$> (p :: pts))) /\
                 averagedCapturedPieceBase r' =
                   (if decide (5 <= length caps)%nat then Some (mean caps) else None) /\
                 collectedFrames r' = 5%nat))
    as (r & -> & r' & -> & Havg & Hcap & Hfive); [done| |].
  { intros i r Hr. specialize (Hres i r Hr). cbv zeta in Hres.
    rewrite fst_observations, snd_observations, !app_nil_l in Hres. fold caps in Hres.
    destruct (decide (S i = 5%nat)), (decide (0 + S i = 5)%nat); done || lia. }
  exists r'. split; [done|]. split; [|split; [|done]].
  - rewrite Havg. apply mean_points. rewrite length_fmap. simpl. lia.
  - unfold mean_when. rewrite Hcap. subst caps. destruct isCapture; cbn [andb].
    + rewrite length_fmap. case_bool_decide as Hc.
      * rewrite decide_True by done. eexists. split; [done|]. apply mean_points. lia.
      * by rewrite decide_False.
    + rewrite decide_False by (simpl; lia). done.
Qed.

Lemma collect_fewer move isCapture (b : LoopBuffer number) buffers pts :
  moveKey b ≠ move -> (length pts < 5)%nat ->
  collect_frames move isCapture (detected pts) b buffers = replicate (length pts) None.
Proof.
  intros Hkey Hlen. destruct pts as [|p pts]; [done|].
  destruct (detected_cons p pts) as (s & c & Hd).
  rewrite Hd, collect_frames_restart by done. rewrite <- Hd, detected_observations.
  destruct (collect_frames_count move isCapture (observations (p :: pts))
              {| source := []; captured := []; moveKey := move; collecting := true;
                 framesCollected := 0 |}
              (clearPieceBaseBuffer move buffers)) as (results & -> & Hn & Hres).
  { done. }
  { rewrite length_observations. simpl in *. lia. }
  rewrite length_observations in Hn. rewrite <- Hn. apply all_replicate.
  intros i r Hr. specialize (Hres i r Hr). apply lookup_lt_Some in Hr.
  cbn [framesCollected] in Hres. case_decide; [simpl in *; lia | done].
Qed.

End AveragingOfFive.


(** C7: of the frames fed for a move key, the first four yield no
    coordinate and no readiness, and the fifth yields the arithmetic mean of
    the five observations of the moving piece and marks the move ready, in
    the executor's keyed buffers and in the buffer of the detection loop
    alike; fewer than five frames yield nothing.  With the fifth frame comes
    the mean of the observations of the captured piece: from the executor
    when there is at least one, from the detection loop when the move is a
    capture and the piece was observed in all five frames.  The
    observations (0,0), (2,0), (4,0), (6,0), (8,0) average to (4,0), and the
    first four of them leave the move not ready. *)
Theorem piece_base_averaging :
  (forall moveKey (buffers : gmap string (Averager.PieceBaseBuffer number)) pts,
     buffers !! moveKey = None -> length pts = 5%nat ->
     exists r, Averager.feed moveKey (observations pts) buffers = replicate 4 not_ready ++ [r] /\
       Averager.ready r = true /\
       (exists avg, Averager.sourceAvg r = Some avg /\ mean_of (fst <$> pts) avg) /\
       mean_when (bool_decide (0 < length (captured_of pts))%nat)
                 (captured_of pts) (Averager.capturedAvg r)) /\
  (forall moveKey (buffers : gmap string (Averager.PieceBaseBuffer number)) pts,
     buffers !! moveKey = None -> (length pts < 5)%nat ->
     Averager.feed moveKey (observations pts) buffers = replicate (length pts) not_ready) /\
  (forall move isCapture (b : Averager.LoopBuffer number) buffers pts,
     Averager.moveKey b ≠ move -> length pts = 5%nat ->
     exists r,
       Averager.collect_frames move isCapture (detected pts) b buffers
       = replicate 4 None ++ [Some r] /\
       mean_of (fst <$> pts) (Averager.averagedSourcePieceBase r) /\
       mean_when (isCapture && bool_decide (5 <= length (captured_of pts))%nat)
                 (captured_of pts) (Averager.averagedCapturedPieceBase r) /\
       Averager.collectedFrames r = 5%nat) /\
  (forall move isCapture (b : Averager.LoopBuffer number) buffers pts,
     Averager.moveKey b ≠ move -> (length pts < 5)%nat ->
     Averager.collect_frames move isCapture (detected pts) b buffers
     = replicate (length pts) None) /\
  (exists r a b,
     Averager.feed (num := number) "e2e4" (observations five_frames) ∅
     = replicate 4 not_ready ++ [r] /\
     Averager.ready r = true /\ Averager.sourceAvg r = Some [Fin a; Fin b] /\
     (a == 4)%Q /\ (b == 0)%Q) /\
  Averager.feed (num := number) "e2e4" (observations (take 4 five_frames)) ∅
  = replicate 4 not_ready.
Proof.
  split; [exact feed_five|]. split; [exact feed_fewer|].
  split; [exact collect_five|]. split; [exact collect_fewer|]. split.
  - destruct (feed_five "e2e4" ∅ five_frames (lookup_empty _) eq_refl)
      as (r & Hfeed & Hready & (avg & Havg & a & b & -> & Ha & Hb) & _).
    exists r, a, b. repeat (split; [assumption|]).
    split; [rewrite Ha | rewrite Hb]; unfold Qeq; vm_compute; reflexivity.
  - apply (feed_fewer "e2e4" ∅ (take 4 five_frames) (lookup_empty _)). simpl. lia.
Qed.

Lemma piece_base_averaging_witness :
  exists r, Averager.feed (num := number) "e2e4" (observations five_frames) ∅
            = replicate 4 not_ready ++ [r] /\ Averager.ready r = true.
Proof.
  destruct (proj1 piece_base_averaging "e2e4" ∅ five_frames (lookup_empty _) eq_refl)
    as (r & Hfeed & Hready & _).
  exists r. split; assumption.
Defined.

(** A capture whose captured piece is missed in one frame: the executor
    averages its four observations, the detection loop emits none. *)
Example capture_missed_once :
  (exists r avg,
     Averager.feed (num := number) "e4d5" (observations capture_frames) ∅
     = replicate 4 not_ready ++ [r] /\
     Averager.capturedAvg r = Some avg /\ mean_of (captured_of capture_frames) avg) /\
  (exists r,
     Averager.collect_frames (num := number) "e4d5" true (detected capture_frames)
       Averager.empty_buffer ∅ = replicate 4 None ++ [Some r] /\
     Averager.averagedCapturedPieceBase r = None).
Proof.
  split.
  - destruct (feed_five "e4d5" ∅ capture_frames (lookup_empty _) eq_refl)
      as (r & Hfeed & _ & _ & avg & Havg & Hmean).
    exists r, avg. split; [exact Hfeed|]. split; [exact Havg | exact Hmean].
  - destruct (collect_five "e4d5" true Averager.empty_buffer ∅ capture_frames)
      as (r & Hfeed & _ & Hcap & _); [by intros [=] | reflexivity |].
    exists r. split; [exact Hfeed | exact Hcap].
Qed.

(** The scenario in binary64 arithmetic, in both buffers. *)
Example piece_base_averaging_binary64 :
  (match Averager.feed (num := float) "e2e4" (observations five_frames) ∅ with
   | [r1; r2; r3; r4; r5] =>
       forallb (fun r => negb (Averager.ready r)) [r1; r2; r3; r4] && Averager.ready r5 &&
       match Averager.sourceAvg r5 with
       | Some [a; b] => PrimFloat.eqb a 4 && PrimFloat.eqb b 0
       | _ => false
       end
   | _ => false
   end
   && match Averager.collect_frames (num := float) "e2e4" false (detected five_frames)
              Averager.empty_buffer ∅ with
      | [None; None; None; None; Some r] =>
          match Averager.averagedSourcePieceBase r with
          | [a; b] => PrimFloat.eqb a 4 && PrimFloat.eqb b 0
          | _ => false
          end
      | _ => false
      end) = true.
Proof. vm_compute. reflexivity. Qed.

(** ** The execution sequencer *)

Section ExecutorFacts.

Context {num : Type} `{!JsNum num}.

Import Executor.

Implicit Types (e : Execution num) (steps : list (RobotMoveCommand num * N))
  (bridge : nat -> WebSocket).

Lemma run_steps_cons bridge c d steps e :
  run_steps bridge ((c, d) :: steps) e
  = match executeCommand bridge c d e with
    | (e', Normal _) => run_steps bridge steps e'
    | (e', Throw err) => (e', Throw err)
    end.
Proof.
  destruct steps as [|s steps]; [|done]. simpl.
  unfold executeCommand. by destruct (sendCommand _).
Qed.

Lemma executeCommand_resolved bridge c d e t :
  sendCommand (bridge (length (issued e))) = Resolved t ->
  exists e', executeCommand bridge c d e = (e', Normal tt) /\
    steps_of (issued e') = steps_of (issued e) ++ [(c, d)] /\
    length (issued e') = S (length (issued e)) /\
    (on_time e -> on_time e').
Proof.
  intros Hsend. unfold executeCommand. rewrite Hsend. eexists. split; [done|].
  cbn [issued clock].
  split; [by unfold steps_of; rewrite fmap_app|]. split; [rewrite length_app; simpl; lia|].
  intros [Hlog Hclock]. split.
  - intros i a b Ha Hb. cbn [issued] in Ha, Hb.
    destruct (decide (S i < length (issued e))%nat) as [Hi|Hi].
    + rewrite lookup_app_l in Ha, Hb by lia. by apply (Hlog i).
    + assert (S i = length (issued e)) as Hlast.
      { apply lookup_lt_Some in Hb. rewrite length_app in Hb. simpl in Hb. lia. }
      rewrite lookup_app_l in Ha by lia.
      rewrite lookup_app_r, Hlast, Nat.sub_diag in Hb by lia. injection Hb as <-. simpl.
      apply Hclock. rewrite last_lookup, <- Hlast. exact Ha.
  - intros a. cbn [issued clock]. rewrite last_snoc. intros [= <-]. simpl. by exists t.
Qed.

Lemma executeCommand_rejected bridge c d e t :
  sendCommand (bridge (length (issued e))) = Rejected t ->
  exists e', executeCommand bridge c d e = (e', Throw WsError) /\
    steps_of (issued e') = steps_of (issued e) ++ [(c, d)].
Proof.
  intros Hsend. unfold executeCommand. rewrite Hsend. eexists. split; [done|].
  cbn [issued]. by unfold steps_of; rewrite fmap_app.
Qed.

Lemma run_steps_resolved bridge steps e :
  resolves bridge (length (issued e)) (length steps) ->
  exists e', run_steps bridge steps e = (e', Normal tt) /\
    steps_of (issued e') = steps_of (issued e) ++ steps /\
    (on_time e -> on_time e').
Proof.
  revert e. induction steps as [|[c d] steps IH]; intros e Hres.
  { exists e. by rewrite app_nil_r. }
  rewrite run_steps_cons.
  destruct (Hres 0%nat) as [t Ht]; [simpl; lia|]. rewrite Nat.add_0_r in Ht.
  destruct (executeCommand_resolved bridge c d e t Ht) as (e1 & -> & Hlog & Hlen & Htime).
  destruct (IH e1) as (e' & -> & Hlog' & Htime').
  { intros i Hi. rewrite Hlen. replace (S (length (issued e)) + i)%nat
      with (length (issued e) + S i)%nat by lia. apply Hres. simpl. lia. }
  exists e'. split; [done|]. split; [|auto].
  by rewrite Hlog', Hlog, <- app_assoc.
Qed.

Lemma run_steps_rejected bridge steps e (k : nat) t :
  (k < length steps)%nat -> resolves bridge (length (issued e)) k ->
  sendCommand (bridge (length (issued e) + k)%nat) = Rejected t ->
  exists e', run_steps bridge steps e = (e', Throw WsError) /\
    steps_of (issued e') = steps_of (issued e) ++ take (S k) steps.
Proof.
  revert e k. induction steps as [|[c d] steps IH]; intros e k Hk Hres Hrej; [simpl in Hk; lia|].
  rewrite run_steps_cons. destruct k as [|k].
  - rewrite Nat.add_0_r in Hrej.
    destruct (executeCommand_rejected bridge c d e t Hrej) as (e' & -> & Hlog).
    exists e'. split; [done|]. by rewrite Hlog.
  - destruct (Hres 0%nat) as [t0 Ht0]; [lia|]. rewrite Nat.add_0_r in Ht0.
    destruct (executeCommand_resolved bridge c d e t0 Ht0) as (e1 & -> & Hlog & Hlen & _).
    destruct (IH e1 k) as (e' & -> & Hlog').
    { simpl in Hk. lia. }
    { intros i Hi. rewrite Hlen. replace (S (length (issued e)) + i)%nat
        with (length (issued e) + S i)%nat by lia. apply Hres. lia. }
    { rewrite Hlen. by replace (S (length (issued e)) + k)%nat
        with (length (issued e) + S k)%nat by lia. }
    exists e'. split; [done|]. rewrite Hlog', Hlog, <- app_assoc. done.
Qed.

(** With the calibration at hand, the executor runs the steps of the
    sequence, one after the other. *)
Lemma executeRobotMove_steps (window : Window num) bridge (moveData : MoveExecutionData num)
    src dst e :
  calibrated window moveData src dst ->
  executeRobotMove window bridge moveData e
  = run_steps bridge (sequence window src dst (isCapture moveData)) e.
Proof.
  intros (pose & Hpose & Hfull & Hsrc & Hdst).
  unfold executeRobotMove. rewrite Hpose, Hfull, Hsrc, Hdst.
  unfold sequence. by destruct (isCapture moveData).
Qed.

Lemma on_time_start : on_time (start (num := num)).
Proof. split; [by intros i a b Ha|]. by intros a Ha. Qed.

(** C6: with the square poses calibrated and no transport error, a capture
    issues the 17 commands of the removal (8) and of the relocation (9), a
    move without capture the 9 of the relocation, in this order; each
    command is issued when the promise of the one before it has resolved and
    its settle delay has passed. *)
Theorem execution_sequence (window : Window num) bridge (moveData : MoveExecutionData num)
    (src dst : list num) :
  calibrated window moveData src dst ->
  resolves bridge 0 (if isCapture moveData then 17 else 9) ->
  exists e, executeRobotMove window bridge moveData start = (e, Normal tt) /\
    steps_of (issued e) = (if isCapture moveData
                           then removal window dst ++ relocation window src dst
                           else relocation window src dst) /\
    length (removal window dst) = 8%nat /\ length (relocation window src dst) = 9%nat /\
    length (issued e) = (if isCapture moveData then 17 else 9)%nat /\
    awaited (issued e).
Proof.
  intros Hcal Hres. rewrite (executeRobotMove_steps window bridge moveData src dst) by done.
  destruct (run_steps_resolved bridge (sequence window src dst (isCapture moveData)) start)
    as (e & -> & Hlog & Htime).
  { unfold sequence. by destruct (isCapture moveData). }
  exists e. split; [done|]. simpl in Hlog. split; [exact Hlog|].
  split; [done|]. split; [done|]. split.
  - apply (f_equal length) in Hlog. unfold steps_of in Hlog. rewrite length_fmap in Hlog.
    rewrite Hlog. unfold sequence. by destruct (isCapture moveData).
  - apply Htime, on_time_start.
Qed.

(** C9, as amended: a command is sent with a fallback timer of 1000 ms, and
    a command that times out resolves, so that the sequencer goes on to the
    next step; it is a transport error that aborts the sequence: the log
    ends with the command that failed, and the error reaches the caller. *)
Theorem timeout_resolves_error_aborts :
  (forall ws, timed_out ws = true -> sendCommand ws = Resolved 1000) /\
  (forall ws, match sendCommand ws with Resolved t | Rejected t => (t <= 1000)%N end) /\
  (forall (window : Window num) bridge (moveData : MoveExecutionData num) src dst,
     calibrated window moveData src dst ->
     let steps := sequence window src dst (isCapture moveData) in
     (resolves bridge 0 (length steps) ->
      exists e, executeRobotMove window bridge moveData start = (e, Normal tt) /\
                steps_of (issued e) = steps) /\
     (forall k t, (k < length steps)%nat -> resolves bridge 0 k ->
        sendCommand (bridge k) = Rejected t ->
        exists e, executeRobotMove window bridge moveData start = (e, Throw WsError) /\
                  steps_of (issued e) = take (S k) steps)).
Proof.
  split; [|split].
  - intros ws. unfold timed_out, sendCommand.
    destruct (constructor_throws ws); [done|].
    destruct (opens_after ws) as [t|], (error_after ws) as [err|];
      repeat (match goal with |- context [(?a <? ?b)%N] => destruct (N.ltb_spec a b) end);
      try done; intros _; f_equal; lia.
  - intros ws. unfold sendCommand.
    destruct (constructor_throws ws); [done|].
    destruct (opens_after ws) as [t|], (error_after ws) as [err|];
      repeat (match goal with |- context [(?a <? ?b)%N] => destruct (N.ltb_spec a b) end);
      lia.
  - intros window bridge moveData src dst Hcal. cbv zeta. split.
    + intros Hres. rewrite (executeRobotMove_steps window bridge moveData src dst) by done.
      destruct (run_steps_resolved bridge _ start Hres) as (e & -> & Hlog & _).
      by exists e.
    + intros k t Hk Hres Hrej.
      rewrite (executeRobotMove_steps window bridge moveData src dst) by done.
      destruct (run_steps_rejected bridge _ start k t Hk Hres Hrej) as (e & -> & Hlog).
      by exists e.
Qed.

End ExecutorFacts.

(** C9 refuted: on a bridge whose sockets never open, every command times
    out, and the nine commands of a move are issued all the same. *)
Lemma timeout_does_not_abort :
  ~ aborts_on_timeout (num := number) calibration silent quiet_move.
Proof.
  intros H.
  assert (length (Executor.issued
                    (Executor.executeRobotMove (num := number)
                       calibration silent quiet_move Executor.start).1) = 9%nat) as Hlen
    by (vm_compute; reflexivity).
  destruct (H 0%nat) as [Hone _]; [rewrite Hlen; lia | reflexivity |].
  rewrite Hlen in Hone. discriminate.
Qed.

Lemma execution_sequence_witness :
  exists e, Executor.executeRobotMove (num := number) calibration prompt capture_move
              Executor.start = (e, Normal tt) /\
            length (Executor.issued e) = 17%nat.
Proof.
  destruct (execution_sequence (num := number) calibration prompt capture_move
              [lit 29; lit 0; lit 0] [lit 36; lit 0; lit 0])
    as (e & He & _ & _ & _ & Hlen & _).
  - eexists. repeat split; reflexivity.
  - intros i _. eexists. reflexivity.
  - exists e. split; [exact He | exact Hlen].
Defined.

Lemma timeout_resolves_error_aborts_witness :
  exists e, Executor.executeRobotMove (num := number) calibration (failing 3) capture_move
              Executor.start = (e, Throw WsError) /\
            length (Executor.issued e) = 4%nat.
Proof.
  destruct (proj2 (proj2 (timeout_resolves_error_aborts (num := number)))
              calibration (failing 3) capture_move
              [lit 29; lit 0; lit 0] [lit 36; lit 0; lit 0]) as [_ Habort].
  { eexists. repeat split; reflexivity. }
  destruct (Habort 3%nat 20%N) as (e & He & Hlog).
  - simpl. lia.
  - intros i Hi. exists 500%N. do 3 (destruct i as [|i]; [reflexivity|]). lia.
  - reflexivity.
  - exists e. split; [exact He|].
    apply (f_equal length) in Hlog. unfold steps_of in Hlog. rewrite length_fmap in Hlog.
    exact Hlog.
Defined.

(** The two shapes of a move in binary64 arithmetic: 9 and 17 commands. *)
Example execution_sequence_binary64 :
  (length (Executor.issued
     (Executor.executeRobotMove (num := float) calibration prompt quiet_move Executor.start).1),
   length (Executor.issued
     (Executor.executeRobotMove (num := float) calibration prompt capture_move Executor.start).1))
  = (9%nat, 17%nat).
Proof. vm_compute. reflexivity. Qed.
(** * Further properties *)

(** ** The detection update *)

Lemma merge_box_entries {num : Type} `{!JsNum num} (row box : list num) :
  length row = 12%nat ->
  merge_box row box
  = (fun j => nmax (entry row (Z.of_nat j)) (entry box (Z.of_nat j))) <$> seq 0 12.
Proof.
  intros Hlen. do 13 (destruct row as [|? row]; try done).
Qed.

Lemma getUpdate_snoc {num : Type} `{!JsNum num} (scores : list (list num)) (squares : list Z)
    (sq : Z) :
  getUpdate scores (squares ++ [sq])
  = (update ← getUpdate scores squares;
     if (sq =? -1)%Z then mret update
     else
       row ← defined (index update sq);
       box ← defined (scores !! length squares);
       mret (<[Z.to_nat sq := merge_box row box]> update)).
Proof.
  unfold getUpdate. rewrite imap_app, foldM_app. simpl.
  destruct (foldM _ _ (imap pair squares)) as [update|e]; [|done]. simpl.
  rewrite Nat.add_0_r. destruct (sq =? -1)%Z; [done|].
  by destruct (defined (index update sq) ≫= _).
Qed.

Lemma largest_snoc (qs : list Q) (x : Q) : (largest (qs ++ [x]) == Qmax (largest qs) x)%Q.
Proof.
  unfold largest. induction qs as [|y qs IH]; simpl.
  - apply Q.max_comm.
  - rewrite IH. apply Q.max_assoc.
Qed.

Lemma largest_unit (qs : list Q) :
  Forall (fun q => 0 <= q <= 1)%Q qs -> (0 <= largest qs <= 1)%Q.
Proof.
  unfold largest. induction 1 as [|y qs Hy _ IH]; simpl; [lra|].
  destruct (Qmax_cases y (foldr Qmax 0%Q qs)) as [-> | ->]; [done | exact IH].
Qed.

Lemma scores_on_snoc scores squares sq (s c : Z) :
  scores_on scores (squares ++ [sq]) s c
  = scores_on scores squares s c
    ++ (if (sq =? s)%Z then [value (entry (default [] (scores !! length squares)) c)] else []).
Proof.
  unfold scores_on. rewrite imap_app, omap_app. f_equal. simpl.
  rewrite Nat.add_0_r. by destruct (sq =? s)%Z.
Qed.

Lemma detections_snoc scores squares sq :
  detections scores (squares ++ [sq]) ->
  detections scores squares /\ (sq = -1 \/ 0 <= sq < 64)%Z /\
  exists box, scores !! length squares = Some box /\ length box = 12%nat /\
              Forall unit_interval box.
Proof.
  intros (Hlen & Hscores & Hsquares). rewrite length_app in Hlen. simpl in Hlen.
  apply Forall_app in Hsquares as [Hsquares Hsq]. apply Forall_inv in Hsq.
  split; [split; [lia | done]|]. split; [done|].
  destruct (lookup_lt_is_Some_2 scores (length squares)) as [box Hbox]; [lia|].
  exists box. split; [done|]. rewrite Forall_lookup in Hscores. by apply (Hscores _ _ Hbox).
Qed.

(** The update of a frame, cell by cell. *)
Lemma getUpdate_cells scores squares :
  detections scores squares ->
  exists up, getUpdate scores squares = Normal up /\ shape up /\
    forall s c : nat, (s < 64)%nat -> (c < 12)%nat ->
      exists m, cell up (Z.of_nat s) (Z.of_nat c) = Fin m /\
                (m == largest (scores_on scores squares (Z.of_nat s) (Z.of_nat c)))%Q.
Proof.
  induction squares as [|sq squares IH] using rev_ind; intros Hdet.
  { exists (zeros 64 12). split; [done|]. split; [apply shape_zeros|].
    intros s c Hs Hc. exists 0%Q. split; [|done].
    rewrite (cell_row _ s _ (replicate 12 (lit 0))) by (by apply lookup_replicate_2).
    apply entry_lookup. by apply lookup_replicate_2. }
  apply detections_snoc in Hdet as (Hdet & Hsq & box & Hbox & Hlen & Hunit).
  destruct (IH Hdet) as (up & Hup & [Hrows Hcols] & Hcells).
  rewrite getUpdate_snoc, Hup, bind_Normal.
  destruct (Z.eqb_spec sq (-1)) as [->|Hne].
  { exists up. split; [done|]. split; [done|]. intros s c Hs Hc.
    destruct (Hcells s c Hs Hc) as (m & Hm & Hmq). exists m. split; [done|].
    rewrite scores_on_snoc. destruct (Z.eqb_spec (-1) (Z.of_nat s)); [lia|].
    by rewrite app_nil_r. }
  destruct Hsq as [?|Hsq]; [done|].
  destruct (index_in_range up sq) as [row Hrow]; [lia|].
  rewrite Hrow, Hbox. cbn [defined]. rewrite !bind_Normal.
  apply index_Some in Hrow as [_ Hrow].
  assert (length row = 12%nat) as Hrowlen by (rewrite Forall_lookup in Hcols; eauto).
  eexists. split; [done|]. split.
  { split; [by rewrite length_insert|]. apply Forall_insert; [done|].
    by rewrite merge_box_entries, length_fmap, length_seq. }
  intros s c Hs Hc. destruct (Hcells s c Hs Hc) as (m & Hm & Hmq).
  rewrite scores_on_snoc. destruct (Z.eqb_spec sq (Z.of_nat s)) as [->|Hs'].
  - rewrite Nat2Z.id in *. rewrite Hbox. cbn [default].
    destruct (entry_unit box c Hunit) as (b & Hb & Hbq); [lia|].
    exists (Qmax m b). split.
    + erewrite cell_row by (apply list_lookup_insert_eq; lia).
      rewrite merge_box_entries by done.
      erewrite entry_lookup by (by rewrite list_lookup_fmap, lookup_seq_lt by done).
      rewrite Nat.add_0_l, Hb, <- (cell_row up s _ row Hrow), Hm. apply JS_max_Fin.
    + rewrite largest_snoc, Hmq. unfold id. rewrite Hb. reflexivity.
  - exists m. split; [|by rewrite app_nil_r].
    unfold cell in *. rewrite index_of_nat in *.
    rewrite list_lookup_insert_ne by lia. done.
Qed.

Lemma scores_on_unit scores squares (s c : nat) :
  detections scores squares -> (c < 12)%nat ->
  Forall (fun q => 0 <= q <= 1)%Q (scores_on scores squares (Z.of_nat s) (Z.of_nat c)).
Proof.
  intros (Hlen & Hscores & _) Hc. apply Forall_forall. intros q Hq.
  apply list_elem_of_omap in Hq as ([i sq] & Hi & Hq).
  apply list_elem_of_lookup in Hi as [k Hi]. rewrite list_lookup_imap in Hi.
  destruct (squares !! k) as [sq'|] eqn:Hsq; [|done]. injection Hi as <- <-.
  destruct (sq' =? _)%Z; [|done]. injection Hq as <-.
  destruct (lookup_lt_is_Some_2 scores k) as [box Hbox].
  { apply lookup_lt_Some in Hsq. lia. }
  rewrite Hbox. simpl. rewrite Forall_lookup in Hscores.
  destruct (Hscores k box Hbox) as [Hl Hu].
  by destruct (entry_unit box c Hu) as (b & -> & Hb); [lia|].
Qed.

Lemma within_unit_cells (g : grid number) :
  shape g ->
  (forall s c : nat, (s < 64)%nat -> (c < 12)%nat ->
     unit_interval (cell g (Z.of_nat s) (Z.of_nat c))) ->
  within_unit g.
Proof.
  intros [Hrows Hcols] Hcells. apply Forall_lookup. intros s row Hrow.
  apply Forall_lookup. intros c a Ha.
  rewrite Forall_lookup in Hcols. specialize (Hcols s row Hrow).
  apply lookup_lt_Some in Hrow as Hs. apply lookup_lt_Some in Ha as Hc.
  specialize (Hcells s c ltac:(lia) ltac:(lia)).
  by rewrite (cell_row g s _ row Hrow), (entry_lookup row c a Ha) in Hcells.
Qed.

Lemma getUpdate_unit scores squares :
  detections scores squares ->
  exists up, getUpdate scores squares = Normal up /\ shape up /\ within_unit up.
Proof.
  intros Hdet. destruct (getUpdate_cells scores squares Hdet) as (up & Hup & Hshape & Hcells).
  exists up. split; [done|]. split; [done|]. apply within_unit_cells; [done|].
  intros s c Hs Hc. destruct (Hcells s c Hs Hc) as (m & -> & Hm). simpl. rewrite Hm.
  apply largest_unit. by apply scores_on_unit.
Qed.

(** ** The belief state *)

Lemma updateState_unit (st up : grid number) (d : Q) :
  shape st -> shape up -> within_unit st -> within_unit up -> (0 <= d <= 1)%Q ->
  exists st', updateState st up (Fin d) = Normal st' /\ shape st' /\ within_unit st'.
Proof.
  intros [Hs Hsrows] [Hu Hurows] Hst Hup Hd.
  destruct (updateState_lookup st up (Fin d) Hs Hu) as (st' & Hst' & Hlen & Hrows).
  exists st'. split; [done|].
  rewrite !Forall_lookup in Hsrows, Hurows.
  unfold within_unit in *. rewrite !Forall_lookup in Hst, Hup.
  split.
  - split; [done|]. apply Forall_lookup. intros s row Hrow.
    destruct (Hrows s row Hrow) as (srow & urow & Hsrow & Hurow & ->).
    apply update_row_length. eauto.
  - apply Forall_lookup. intros s row Hrow.
    destruct (Hrows s row Hrow) as (srow & urow & Hsrow & Hurow & ->).
    apply update_row_unit; eauto.
Qed.





Lemma updateState_throws_rows {num : Type} `{!JsNum num} (st up : grid num) (decay : num) :
  (length st < 64 \/ length up < 64)%nat -> updateState st up decay = Throw TypeError.
Proof.
  intros Hshort. unfold updateState.
  set (k := (length st `min` length up)%nat).
  replace 64%nat with (k + (1 + (63 - k)))%nat at 1 by lia.
  rewrite !seq_app, !foldM_app, updateState_rows by lia. simpl.
  destruct (decide (length st <= length up)%nat).
  - rewrite (lookup_ge_None_2 st k) by lia. done.
  - destruct (lookup_lt_is_Some_2 st k) as [srow ->]; [lia|]. simpl.
    rewrite (lookup_ge_None_2 up k) by lia. done.
Qed.

(** ** Theorems *)

(** X1: the update of a frame holds, for each square and class, the largest
    score that a box assigned to the square gives to the class, and 0 where
    no box is assigned; boxes off the board (-1) do not count. *)
Theorem getUpdate_largest_score scores squares :
  detections scores squares ->
  exists up, getUpdate scores squares = Normal up /\ shape up /\
    forall s c : nat, (s < 64)%nat -> (c < 12)%nat ->
      exists m, cell up (Z.of_nat s) (Z.of_nat c) = Fin m /\
                (m == largest (scores_on scores squares (Z.of_nat s) (Z.of_nat c)))%Q.
Proof. apply getUpdate_cells. Qed.

Lemma detections_two_boxes : detections two_boxes.1 two_boxes.2.
Proof.
  split; [simpl; lia|]. split.
  - repeat constructor; simpl; lra.
  - repeat constructor; lia.
Qed.

Lemma getUpdate_largest_score_witness :
  exists up m, getUpdate two_boxes.1 two_boxes.2 = Normal up /\
    cell up 28 6 = Fin m /\ (m == 8 # 10)%Q /\ cell up 5 6 = Fin 0.
Proof.
  destruct (getUpdate_largest_score two_boxes.1 two_boxes.2 detections_two_boxes)
    as (up & Hup & _ & Hcells).
  destruct (Hcells 28%nat 6%nat ltac:(lia) ltac:(lia)) as (m & Hm & Hmq).
  exists up, m. split; [exact Hup|]. split; [exact Hm|]. split; [exact Hmq|].
  assert (exists up', getUpdate two_boxes.1 two_boxes.2 = Normal up' /\ cell up' 5 6 = Fin 0)
    as (up' & Hup' & H5) by (eexists; split; vm_compute; reflexivity).
  congruence.
Defined.

Example getUpdate_largest_score_binary64 :
  match getUpdate (num := float) two_boxes.1 two_boxes.2 with
  | Normal up => PrimFloat.eqb (cell up 28 6) 0.8 && PrimFloat.eqb (cell up 28 5) 0
                 && PrimFloat.eqb (cell up 0 0) 0
  | Throw _ => false
  end = true.
Proof. vm_compute. reflexivity. Qed.

Lemma merge_box_length {num : Type} `{!JsNum num} (row box : list num) :
  length (merge_box row box) = length row.
Proof.
  unfold merge_box. generalize (seq 0 12). intros js. revert row.
  induction js as [|j js IH]; intros row; [done|].
  simpl. by rewrite IH, length_insert.
Qed.

Lemma placed_snoc {A} (scores : list A) squares sq :
  placed scores (squares ++ [sq]) <->
  placed scores squares /\
  (sq = (-1)%Z \/ ((0 <= sq < 64)%Z /\ (length squares < length scores)%nat)).
Proof.
  unfold placed. split.
  - intros H. split.
    + intros i sq' Hi. apply (H i sq'). by apply lookup_app_l_Some.
    + apply (H (length squares) sq). by rewrite list_lookup_middle.
  - intros [H Hsq] i sq' Hi. apply lookup_app_Some in Hi as [Hi|[Hge Hi]]; [by apply H|].
    apply list_lookup_singleton_Some in Hi as [Hi ->].
    by replace i with (length squares) by lia.
Qed.

(** The update is built, or the first box that cannot be placed throws. *)
Lemma getUpdate_completion {num : Type} `{!JsNum num} (scores : list (list num)) squares :
  match getUpdate scores squares with
  | Normal up => length up = 64%nat /\ placed scores squares
  | Throw e => e = TypeError /\ ~ placed scores squares
  end.
Proof.
  induction squares as [|sq squares IH] using rev_ind.
  { split; [done|]. by intros i sq. }
  rewrite getUpdate_snoc. destruct (getUpdate scores squares) as [up|e]; simpl.
  2: { destruct IH as [-> IH]. split; [done|]. by intros [? _]%placed_snoc. }
  destruct IH as [Hlen IH]. destruct (Z.eqb_spec sq (-1)) as [->|Hne].
  { split; [done|]. apply placed_snoc. auto. }
  unfold index. destruct (Z.ltb_spec sq 0) as [Hneg|Hpos]; simpl.
  { split; [done|]. intros [_ [?|[? _]]]%placed_snoc; lia. }
  destruct (up !! Z.to_nat sq) as [row|] eqn:Hrow; simpl.
  2: { split; [done|]. apply lookup_ge_None in Hrow.
       intros [_ [?|[? _]]]%placed_snoc; lia. }
  apply lookup_lt_Some in Hrow as Hsq.
  destruct (scores !! length squares) as [box|] eqn:Hbox; simpl.
  - split; [by rewrite length_insert|]. apply placed_snoc. split; [done|]. right.
    apply lookup_lt_Some in Hbox. lia.
  - split; [done|]. apply lookup_ge_None in Hbox.
    intros [_ [?|[_ ?]]]%placed_snoc; lia.
Qed.

(** X2: [getUpdate] returns exactly when every box is off the board (-1) or on
    a square from 0 to 63 with a row of scores; any other box, such as one
    on square 64, makes it throw a [TypeError]. *)
Theorem getUpdate_throws {num : Type} `{!JsNum num} (scores : list (list num)) (squares : list Z) :
  (placed scores squares <-> exists up, getUpdate scores squares = Normal up) /\
  (~ placed scores squares <-> getUpdate scores squares = Throw TypeError).
Proof.
  pose proof (getUpdate_completion scores squares) as H.
  destruct (getUpdate scores squares) as [up|e].
  - destruct H as [_ H]. split; split; try done; eauto.
  - destruct H as [-> H]. split; split; try done. by intros [up ?].
Qed.

Example getUpdate_throws_binary64 :
  getUpdate (num := float) [replicate 12 (lit 1)] [64%Z] = Throw TypeError /\
  getUpdate (num := float) [] [0%Z] = Throw TypeError /\
  getUpdate (num := float) [] [(-1)%Z] = Normal (zeros 64 12).
Proof. repeat split; vm_compute; reflexivity. Qed.

(** X3: [updateState] throws a [TypeError] exactly when the state or the update
    has fewer than 64 rows, and returns otherwise. *)
Theorem updateState_missing_rows {num : Type} `{!JsNum num} (st up : grid num) (decay : num) :
  ((length st < 64 \/ length up < 64)%nat <-> updateState st up decay = Throw TypeError) /\
  ((64 <= length st /\ 64 <= length up)%nat <-> exists st', updateState st up decay = Normal st').
Proof.
  destruct (decide (64 <= length st /\ 64 <= length up)%nat) as [[Hs Hu]|Hshort].
  - rewrite updateState_Normal by done. split; split; try done; [lia | eauto].
  - rewrite updateState_throws_rows by lia. split; split; try done; [lia | by intros [? ?]].
Qed.

Example updateState_missing_rows_binary64 :
  updateState (num := float) (zeros 63 12) (zeros 64 12) (lit (1 # 2)) = Throw TypeError /\
  updateState (num := float) (zeros 64 12) (zeros 10 12) (lit (1 # 2)) = Throw TypeError.
Proof. split; vm_compute; reflexivity. Qed.

Lemma Qpow_unit (d : Q) (n : nat) : (0 <= d <= 1)%Q -> (0 <= Qpow d n <= 1)%Q.
Proof. intros Hd. induction n as [|n IH]; simpl; [lra | nra]. Qed.




Example updateStates_binary64 :
  match updateStates (num := float) (zeros 64 12) (replicate 3 (detection 6)) (lit (1 # 2)) with
  | Normal st => PrimFloat.ltb 0.78749999 (cell st 12 6) && PrimFloat.ltb (cell st 12 6) 0.78750001
  | Throw _ => false
  end = true.
Proof. vm_compute. reflexivity. Qed.

(** ** The belief state along a run of the loop *)

Section RunInvariant.

Context {Board : Type} `{!ChessJs Board}.

Implicit Types (tr : Tracking number) (f : Frame number Board) (c : Cycle number Board).

Lemma iteration_unit mode tr f c :
  shape (state tr) -> within_unit (state tr) -> detections (scores f) (squares f) ->
  iteration mode tr f = Normal c ->
  shape (state (tracking c)) /\ within_unit (state (tracking c)).
Proof.
  intros Hshape Hunit Hdet (Hscan & _)%iteration_Normal.
  destruct Hscan as (up & Hup & Hst & _).
  destruct (getUpdate_unit _ _ Hdet) as (up' & Hup' & Hushape & Huunit).
  assert (up' = up) as -> by congruence.
  destruct (updateState_unit (state tr) up (1 # 2) Hshape Hushape Hunit Huunit)
    as (st' & Hst' & Hs' & Hu'); [lra|].
  change (lit (1 # 2)) with (Fin (1 # 2)) in Hst. by assert (st' = state (tracking c)) as <- by congruence.
Qed.

Lemma step_unit mode s (f : option (Frame number Board)) s' (c : option (Cycle number Board)) :
  unit_state s -> from_option (fun f => detections (scores f) (squares f)) True f ->
  step mode s f = (s', c) ->
  unit_state s' /\
  from_option (fun c => shape (state (tracking c)) /\ within_unit (state (tracking c))) True c.
Proof.
  intros Hs Hf Hstep. unfold step in Hstep.
  destruct f as [f|]; simpl in Hf.
  2: { destruct s; by injection Hstep as <- <-. }
  destruct s as [|tr|]; [| |by injection Hstep as <- <-].
  - destruct (iteration mode fresh f) as [c'|e] eqn:Hc; injection Hstep as <- <-; [|done].
    pose proof (iteration_unit mode fresh f c' shape_zeros within_unit_zeros Hf Hc). done.
  - destruct (iteration mode tr f) as [c'|e] eqn:Hc; injection Hstep as <- <-; [|done].
    destruct Hs as [Hshape Hunit].
    pose proof (iteration_unit mode tr f c' Hshape Hunit Hf Hc). done.
Qed.

Lemma run_unit mode (frames : list (option (Frame number Board))) s k c :
  unit_state s -> detected_frames frames ->
  run mode s frames !! k = Some (Some c) ->
  shape (state (tracking c)) /\ within_unit (state (tracking c)).
Proof.
  intros Hs Hframes. revert s k Hs.
  induction Hframes as [|f frames Hf _ IH]; intros s k Hs Hk; [done|].
  cbn [run] in Hk. destruct (step mode s f) as [s' c'] eqn:Hstep.
  destruct (step_unit mode s f s' c' Hs Hf Hstep) as [Hs' Hc'].
  destruct k as [|k]; simpl in Hk.
  - injection Hk as ->. exact Hc'.
  - by apply (IH s' k).
Qed.

End RunInvariant.

(** X5: along the frames of the loop, the belief state stays a 64×12 grid of
    confidences between 0 and 1, as long as the detector's scores are
    between 0 and 1 and every box is on a square or off the board. *)
Theorem belief_stays_within_unit {Board : Type} `{!ChessJs Board} (mode : Mode)
    (frames : list (option (Frame number Board))) (k : nat) (c : Cycle number Board) :
  detected_frames frames ->
  run mode waiting frames !! k = Some (Some c) ->
  shape (state (tracking c)) /\ within_unit (state (tracking c)).
Proof. intros Hframes. by apply run_unit. Qed.

Lemma detected_frames_steady : detected_frames (Board := list string) steady.
Proof.
  assert (detections [box 6] [28%Z]) as Hdet.
  { split; [simpl; lia|]. split; repeat constructor; simpl; lra || lia. }
  constructor; [exact Hdet|]. constructor; [exact Hdet|]. constructor.
Qed.

Lemma belief_stays_within_unit_witness :
  exists c, run record waiting steady !! 1%nat = Some (Some c) /\
            shape (state (tracking c)) /\ within_unit (state (tracking c)).
Proof.
  assert (exists c, run (num := number) record waiting steady !! 1%nat = Some (Some c))
    as [c Hc] by (eexists; vm_compute; reflexivity).
  exists c. split; [exact Hc|].
  exact (belief_stays_within_unit record steady 1 c detected_frames_steady Hc).
Defined.

(** ** The scoring pass: the best first move and the possible moves *)

Lemma calculateScore_finite (st : grid number) (m : MovesData) :
  belief_state st -> candidate m -> exists v, calculateScore st m thr thr = Normal (Fin v).
Proof.
  intros Hst (Hfrom & Hto & Htargets & Hlen).
  change (calculateScore st m thr thr) with (calculateScore st m (Fin (6 # 10)) (Fin (6 # 10))).
  unfold calculateScore. change (lit 0) with (Fin 0).
  destruct (score_from st (6 # 10) Hst (from m) 0 Hfrom) as (v1 & -> & Hv1). rewrite bind_Normal.
  destruct (score_to st m (6 # 10) Hst (to m) 0 v1 Hto Htargets) as (v & Hv & Hvq); [lia|].
  by exists v.
Qed.

Lemma gtb_Fin (p q : Q) : (Fin p >? Fin q) = true <-> (q < p)%Q.
Proof.
  change (Fin p >? Fin q) with (JS.gtb (Fin p) (Fin q)). unfold JS.gtb.
  rewrite Qgt_alt. by destruct (p ?= q)%Q.
Qed.

Lemma gtb_Fin_false (p q : Q) : (Fin p >? Fin q) = false <-> (p <= q)%Q.
Proof.
  rewrite <- not_true_iff_false, gtb_Fin. split; [apply Qnot_lt_le | apply Qle_not_lt].
Qed.

Section BestFirstMove.

Variables (st : grid number) (pm : gset string).

Implicit Types (s : Scan number) (p : MovesPair).

Lemma score_pair_keeps s m1 m2 ms s' :
  score_pair st s m1 m2 ms = Normal s' ->
  bestScore1 s' = bestScore1 s /\ bestMove s' = bestMove s /\ possible s' = possible s.
Proof.
  unfold score_pair. intros (score2 & _ & Hs)%bind_Normal_inv.
  destruct (score2 <? lit 0); [by injection Hs as <-|].
  apply bind_Normal_inv in Hs as (jointScore & _ & Hs). by injection Hs as <-.
Qed.

Lemma process_pair_first s p s' q :
  inherited (Set_prototype_keys ++ Object_prototype_keys) (san0 (move1 p)) = false ->
  calculateScore st (move1 p) thr thr = Normal (Fin q) ->
  process_pair st s p = Normal s' ->
  bestScore1 s' = (if Fin q >? bestScore1 s then Fin q else bestScore1 s) /\
  bestMove s' = (if Fin q >? bestScore1 s then Some (move1 p) else bestMove s) /\
  possible s' = (if Fin q >? lit 0 then {[san0 (move1 p)]} ∪ possible s else possible s).
Proof.
  intros Hkey Hq. unfold process_pair, score_first, in_Set. rewrite Hkey, Hq. simpl.
  destruct (move2 p) as [m2|], (moves p) as [ms|]; try by intros [= <-].
  case_bool_decide; [|by intros [= <-]].
  intros (-> & -> & ->)%score_pair_keeps. done.
Qed.

Lemma process_pair_inv pre s p s' :
  belief_state st -> candidate (move1 p) ->
  inherited (Set_prototype_keys ++ Object_prototype_keys) (san0 (move1 p)) = false ->
  best_first_move st pre s -> possible_after st pm pre s ->
  process_pair st s p = Normal s' ->
  best_first_move st (pre ++ [p]) s' /\ possible_after st pm (pre ++ [p]) s'.
Proof.
  intros Hst Hcand Hkey Hbest Hposs Hs'.
  destruct (calculateScore_finite st (move1 p) Hst Hcand) as [q Hq].
  destruct (process_pair_first s p s' q Hkey Hq Hs') as (Hb1 & Hbm & Hp).
  split.
  - unfold best_first_move in *. rewrite Hbm, Hb1.
    destruct (bestMove s) as [m|] eqn:Hm.
    + destruct Hbest as (q0 & Hq0 & Hmq & Hin & Hub). rewrite Hq0.
      destruct (Fin q >? Fin q0) eqn:Hgt.
      * apply gtb_Fin in Hgt. exists q. split; [done|]. split; [done|]. split.
        { rewrite fmap_app. apply elem_of_app. right. constructor. }
        intros p' q' [Hp'|Hp']%elem_of_app Hq'.
        { apply Qle_trans with q0; [by apply (Hub p') | by apply Qlt_le_weak]. }
        apply list_elem_of_singleton in Hp' as ->.
        assert (q' = q) as -> by congruence. apply Qle_refl.
      * apply gtb_Fin_false in Hgt. exists q0. split; [done|]. split; [done|]. split.
        { rewrite fmap_app. apply elem_of_app. by left. }
        intros p' q' [Hp'|Hp']%elem_of_app Hq'; [by apply (Hub p')|].
        apply list_elem_of_singleton in Hp' as ->.
        by assert (q' = q) as -> by congruence.
    + destruct Hbest as [-> ->]. change (Fin q >? NegInf) with true. cbv iota.
      rewrite app_nil_l. exists q. split; [done|]. split; [done|].
      split; [rewrite list_fmap_singleton; constructor|].
      intros p' q' Hp' Hq'. apply list_elem_of_singleton in Hp' as ->.
      assert (q' = q) as -> by congruence. apply Qle_refl.
  - intros san. rewrite Hp. change (lit 0) with (Fin 0).
    destruct (Fin q >? Fin 0) eqn:Hgt.
    + apply gtb_Fin in Hgt. rewrite elem_of_union, elem_of_singleton, (Hposs san). split.
      * intros [->|[?|(p' & q' & Hp' & ?)]]; [right | by left | right].
        { exists p, q. split; [|done]. apply elem_of_app. right. constructor. }
        exists p', q'. split; [|done]. apply elem_of_app. by left.
      * intros [?|(p' & q' & [Hp'|Hp']%elem_of_app & Hsan & ? & ?)];
          [right; by left | right; right; by exists p', q' |].
        apply list_elem_of_singleton in Hp' as ->. by left.
    + apply gtb_Fin_false in Hgt. rewrite (Hposs san). split.
      * intros [?|(p' & q' & Hp' & ?)]; [by left | right].
        exists p', q'. split; [|done]. apply elem_of_app. by left.
      * intros [?|(p' & q' & [Hp'|Hp']%elem_of_app & Hsan & Hq' & Hpos)];
          [by left | right; by exists p', q' |].
        apply list_elem_of_singleton in Hp' as ->.
        assert (q' = q) as -> by congruence. exfalso. by apply (Qlt_not_le 0 q).
Qed.

Lemma foldM_process_pair_inv pairs pre s s' :
  belief_state st -> Forall (fun p => candidate (move1 p)) pairs -> plain_notations pairs ->
  best_first_move st pre s -> possible_after st pm pre s ->
  foldM (process_pair st) s pairs = Normal s' ->
  best_first_move st (pre ++ pairs) s' /\ possible_after st pm (pre ++ pairs) s'.
Proof.
  intros Hst Hcand Hkeys. revert Hkeys pre s.
  induction Hcand as [|p pairs Hp _ IH]; intros Hkeys pre s Hbest Hposs Hs'.
  - injection Hs' as <-. by rewrite app_nil_r.
  - apply Forall_cons in Hkeys as [Hkey Hkeys]. cbn [foldM] in Hs'.
    apply bind_Normal_inv in Hs' as (s1 & Hs1 & Hs').
    destruct (process_pair_inv pre s p s1 Hst Hp Hkey Hbest Hposs Hs1) as [Hbest1 Hposs1].
    rewrite (cons_middle p), app_assoc. by apply (IH Hkeys (pre ++ [p]) s1).
Qed.

Lemma processState_inv pairs s :
  belief_state st -> Forall (fun p => candidate (move1 p)) pairs -> plain_notations pairs ->
  processState st pairs pm = Normal s ->
  best_first_move st pairs s /\ possible_after st pm pairs s.
Proof.
  intros Hst Hcand Hkeys Hs.
  unfold processState in Hs.
  refine (foldM_process_pair_inv pairs [] _ s Hst Hcand Hkeys _ _ Hs); [done|].
  intros san. simpl. split; [by left|]. intros [?|(p & q & Hp & _)]; [done|].
  by apply elem_of_nil in Hp.
Qed.

End BestFirstMove.

(** X6: the scoring pass leaves in [bestMove] a first move of the pairs whose
    score is [bestScore1] and is the largest of the first moves' scores;
    with no pair, [bestMove] is null and [bestScore1] is -Infinity. *)
Theorem processState_best_first_move (st : grid number) (pairs : list MovesPair)
    (possibleMoves : gset string) (s : Scan number) :
  belief_state st -> Forall (fun p => candidate (move1 p)) pairs -> plain_notations pairs ->
  processState st pairs possibleMoves = Normal s ->
  best_first_move st pairs s.
Proof. intros Hst Hcand Hkeys Hs. by destruct (processState_inv st possibleMoves pairs s). Qed.

(** X7: the scoring pass only adds to [possibleMoves]: after it, the set holds
    what it held before and the notation of every first move whose score is
    positive, and nothing else. *)
Theorem processState_possible_moves (st : grid number) (pairs : list MovesPair)
    (possibleMoves : gset string) (s : Scan number) :
  belief_state st -> Forall (fun p => candidate (move1 p)) pairs -> plain_notations pairs ->
  processState st pairs possibleMoves = Normal s ->
  possible_after st possibleMoves pairs s.
Proof. intros Hst Hcand Hkeys Hs. by destruct (processState_inv st possibleMoves pairs s). Qed.

Lemma belief_state_pawn_on_e4 : belief_state pawn_on_e4.
Proof.
  split.
  - split; [done|]. apply Forall_insert; [by apply Forall_replicate|].
    by rewrite length_insert.
  - apply Forall_insert; [by do 2 apply Forall_replicate|].
    apply Forall_insert; [by apply Forall_replicate | done].
Qed.

Lemma candidate_d4 : candidate d4.
Proof. repeat split; repeat constructor; simpl; lia. Qed.

Lemma plain_notations_d4_e4 : plain_notations [single d4; single e4].
Proof. by repeat constructor. Qed.

Lemma processState_best_first_move_witness :
  exists s, processState pawn_on_e4 [single d4; single e4] ∅ = Normal s /\
            best_first_move pawn_on_e4 [single d4; single e4] s.
Proof.
  assert (exists s, processState (num := number) pawn_on_e4 [single d4; single e4] ∅ = Normal s)
    as [s Hs] by (eexists; vm_compute; reflexivity).
  exists s. split; [exact Hs|].
  apply (processState_best_first_move pawn_on_e4 [single d4; single e4] ∅ s);
    [apply belief_state_pawn_on_e4 | | apply plain_notations_d4_e4 | exact Hs].
  constructor; [apply candidate_d4|]. constructor; [apply candidate_e4 | constructor].
Defined.

Lemma processState_possible_moves_witness :
  exists s, processState pawn_on_e4 [single d4; single e4] {["Nf3"]} = Normal s /\
            possible_after pawn_on_e4 {["Nf3"]} [single d4; single e4] s.
Proof.
  assert (exists s, processState (num := number) pawn_on_e4 [single d4; single e4] {["Nf3"]}
                    = Normal s)
    as [s Hs] by (eexists; vm_compute; reflexivity).
  exists s. split; [exact Hs|].
  apply (processState_possible_moves pawn_on_e4 [single d4; single e4] {["Nf3"]} s);
    [apply belief_state_pawn_on_e4 | | apply plain_notations_d4_e4 | exact Hs].
  constructor; [apply candidate_d4|]. constructor; [apply candidate_e4 | constructor].
Defined.

(** The pass on the pawn seen on e4, in binary64 arithmetic: e4 is the best
    first move and the one possible move. *)
Example processState_binary64 :
  match processState (num := float) pawn_on_e4 [single d4; single e4] ∅ with
  | Normal s => (san0 <$> bestMove s, elements (possible s), PrimFloat.ltb 0 (bestScore1 s))
  | Throw _ => (None, [], false)
  end = (Some "e4", ["e4"], true).
Proof. vm_compute. reflexivity. Qed.

(** ** The scorer on squares that are not rows of the state *)

Lemma foldM_defined {A B R} (f : B -> A -> completion B) (g : A -> option R) (l : list A) (b : B) :
  (forall b a, match g a with
               | Some _ => exists b', f b a = Normal b'
               | None => f b a = Throw TypeError
               end) ->
  match foldM f b l with
  | Normal _ => Forall (fun a => is_Some (g a)) l
  | Throw e => e = TypeError /\ ~ Forall (fun a => is_Some (g a)) l
  end.
Proof.
  intros Hf. revert b. induction l as [|a l IH]; intros b; simpl; [done|].
  specialize (Hf b a). destruct (g a) as [r|] eqn:Hr.
  - destruct Hf as [b' ->]. simpl. specialize (IH b').
    destruct (foldM f b' l) as [b''|e].
    + constructor; [by rewrite Hr | done].
    + destruct IH as [-> IH]. split; [done|]. by intros [_ ?]%Forall_cons.
  - rewrite Hf. simpl. split; [done|]. intros [Ha _]%Forall_cons.
    rewrite Hr in Ha. by destruct Ha.
Qed.

Lemma calculateScore_completion {num : Type} `{!JsNum num} (state : grid num) (m : MovesData)
    (from_thr to_thr : num) :
  match calculateScore state m from_thr to_thr with
  | Normal _ => on_board state m
  | Throw e => e = TypeError /\ ~ on_board state m
  end.
Proof.
  unfold calculateScore, on_board.
  match goal with |- context [foldM ?f (lit 0) (from m)] =>
    pose proof (foldM_defined f (index state) (from m) (lit 0)) as Hfrom end.
  destruct (foldM _ (lit 0) (from m)) as [score|e]; simpl.
  2: { destruct Hfrom as [-> Hfrom].
       - intros b sq. destruct (index state sq); simpl; eauto.
       - split; [done|]. by intros [? _]%Forall_app. }
  match goal with |- context [foldM ?f score ?l] =>
    pose proof (foldM_defined f (fun a => index state a.2) l score) as Hto end.
  assert (Forall (fun a : nat * Z => is_Some (index state a.2)) (imap pair (to m))
          <-> Forall (fun sq => is_Some (index state sq)) (to m)) as Himap.
  { rewrite !Forall_lookup. split.
    - intros H i sq Hi. apply (H i (i, sq)). by rewrite list_lookup_imap, Hi.
    - intros H i [j sq] Hi. rewrite list_lookup_imap in Hi.
      destruct (to m !! i) eqn:Hsq; [|done]. injection Hi as <- <-. by apply (H i). }
  destruct (foldM _ score _) as [score'|e]; simpl.
  - apply Forall_app. split.
    + apply Hfrom. intros b sq. destruct (index state sq); simpl; eauto.
    + apply Himap, Hto. intros b [i sq]. simpl. destruct (index state sq); simpl; eauto.
  - destruct Hto as [-> Hto].
    + intros b [i sq]. simpl. destruct (index state sq); simpl; eauto.
    + split; [done|]. intros [_ ?]%Forall_app. by apply Hto, Himap.
Qed.

(** X8: [calculateScore] returns exactly when every from-square and every
    to-square of the move is a row of the state; a square outside the state
    makes it throw a [TypeError]. *)
Theorem calculateScore_off_board {num : Type} `{!JsNum num} (state : grid num) (m : MovesData)
    (from_thr to_thr : num) :
  (on_board state m <-> exists v, calculateScore state m from_thr to_thr = Normal v) /\
  (~ on_board state m <-> calculateScore state m from_thr to_thr = Throw TypeError).
Proof.
  pose proof (calculateScore_completion state m from_thr to_thr) as H.
  destruct (calculateScore state m from_thr to_thr) as [v|e].
  - split; split; try done; eauto.
  - destruct H as [-> H]. split; split; try done. by intros [v ?].
Qed.

Example calculateScore_off_board_binary64 :
  calculateScore (num := float) (zeros 64 12)
    {| sans := ["e4"]; from := [12%Z]; to := [64%Z]; targets := [6%Z] |} thr thr
  = Throw TypeError.
Proof. vm_compute. reflexivity. Qed.

(** ** The loop, frame by frame *)

Section FrameFacts.

Context {num : Type} `{!JsNum num} {Board : Type} `{!ChessJs Board}.

Implicit Types (tr : Tracking num) (f : Frame num Board) (c : Cycle num Board).

Lemma iteration_board mode tr f c :
  iteration mode tr f = Normal c ->
  (hasMove c = true ->
   hasGreedyMove c = false /\
   exists joint, bestMoves (scan c) = Some joint /\
                 chess_move (board f) (san0 joint) = Some (board_after c)) /\
  (hasGreedyMove c = true ->
   hasMove c = false /\
   exists best, bestMove (scan c) = Some best /\
                chess_move (board f) (san0 best) = Some (board_after c)) /\
  (hasMove c = false -> hasGreedyMove c = false -> board_after c = board f) /\
  dispatched c =
    if hasMove c || hasGreedyMove c
    then Some (board_after c, if bool_decide (mode = play) then false else hasGreedyMove c)
    else None.
Proof.
  intros Hc. pose proof Hc as (_ & b1 & tm1 & Hcp & Hg & Hd)%iteration_Normal.
  split; [|split; [|split; [|done]]].
  - intros Hhm. apply confirmed_pair_Normal in Hcp as (_ & Hyes & _).
    destruct (Hyes Hhm) as (joint & Hjoint & Hmove & _).
    rewrite Hhm in Hg. unfold greedy in Hg.
    assert (hasGreedyMove c = false /\ board_after c = b1) as [Hhg <-].
    { destruct (bestMove (scan c)); simpl in Hg; injection Hg as Hhg Hb _; by split. }
    split; [done|]. by exists joint.
  - intros Hhg.
    destruct (iteration_greedy mode tr f c Hc Hhg) as (Hhm & best & first & Hbest & _ & _ & _ & Hmove & _).
    split; [done|]. by exists best.
  - intros Hhm Hhg. rewrite Hhm, Hhg in *.
    apply greedy_Normal in Hg as [_ Hg]. destruct (Hg eq_refl) as [-> _].
    apply confirmed_pair_Normal in Hcp as (_ & _ & Hno). by destruct (Hno eq_refl).
Qed.

Lemma confirmed_pair_not_confirmed mode (s : Scan num) (b : Board) tm :
  ~ confirmed mode s ->
  confirmed_pair mode s b (possible s) tm = Normal (false, b, possible s, tm).
Proof.
  intros Hnot. unfold confirmed_pair.
  destruct (bestMoves s) as [joint|] eqn:Hjoint; [|done].
  case_bool_decide as Hmode; [|done].
  destruct (bestScore2 s >? lit 0) eqn:H2; [|done].
  destruct (bestJointScore s >? lit 0) eqn:HJ; [|done].
  case_bool_decide as Hin; [|done].
  destruct Hnot. split; [done|]. by exists joint.
Qed.

Lemma run_stopped mode (frames : list (option (Frame num Board))) :
  run mode stopped frames = replicate (length frames) None.
Proof. induction frames as [|f frames IH]; [done|]. simpl. by rewrite IH. Qed.

Lemma iteration_illegal mode tr f update st s best :
  getUpdate (scores f) (squares f) = Normal update ->
  updateState (state tr) update (lit (1 # 2)) = Normal st ->
  processState st (movesPairs f) (possibleMoves tr) = Normal s ->
  ~ confirmed mode s ->
  bestMove s = Some best -> (bestScore1 s >? lit 0) = true ->
  chess_move (board f) (san0 best) = None ->
  iteration mode tr f = Throw IllegalMove.
Proof.
  intros Hupdate Hst Hs Hnot Hbest Hpos Hmove.
  unfold iteration. rewrite Hupdate, bind_Normal, Hst, bind_Normal, Hs, bind_Normal.
  rewrite confirmed_pair_not_confirmed, bind_Normal by done.
  unfold greedy. rewrite Hbest, Hpos. simpl.
  unfold sanToLan, board_move. by rewrite Hmove.
Qed.

End FrameFacts.

(** X9: a frame of the loop plays at most one move on the board: the
    confirmed-pair commit and the greedy commit never fire together, a
    commit plays one legal move, and without a commit the board is left as
    it was and nothing is dispatched. *)
Theorem one_move_per_frame {num : Type} `{!JsNum num} {Board : Type} `{!ChessJs Board}
    (mode : Mode) (tr : Tracking num) (f : Frame num Board) (c : Cycle num Board) :
  iteration mode tr f = Normal c ->
  hasMove c && hasGreedyMove c = false /\
  (hasMove c || hasGreedyMove c = true ->
   exists san, chess_move (board f) san = Some (board_after c) /\
               exists greedy, dispatched c = Some (board_after c, greedy)) /\
  (hasMove c || hasGreedyMove c = false ->
   board_after c = board f /\ dispatched c = None).
Proof.
  intros (Hyes & Hgreedy & Hno & Hd)%iteration_board. split; [|split].
  - destruct (hasMove c); [|done]. by destruct (Hyes eq_refl) as [-> _].
  - intros Hcommit. rewrite Hd, Hcommit.
    destruct (hasMove c) eqn:Hhm.
    + destruct (Hyes eq_refl) as (_ & joint & _ & Hmove). exists (san0 joint). eauto.
    + destruct (Hgreedy Hcommit) as (_ & best & _ & Hmove). exists (san0 best). eauto.
  - intros Hquiet. rewrite Hd, Hquiet. apply orb_false_iff in Hquiet as [Hhm Hhg]. auto.
Qed.

Lemma one_move_per_frame_witness :
  exists c, iteration (num := number) record fresh (sighting 28 0) = Normal c /\
            hasMove c && hasGreedyMove c = false.
Proof.
  assert (exists c, iteration (num := number) record fresh (sighting 28 0) = Normal c)
    as [c Hc] by (eexists; vm_compute; reflexivity).
  exists c. split; [exact Hc|].
  exact (proj1 (one_move_per_frame record fresh (sighting 28 0) c Hc)).
Defined.

(** X10: as soon as the best first move has a positive score and a notation
    that the rules engine rejects, without a confirmed pair, the iteration
    throws in [sanToLan], whatever the greedy timers hold; the loop does not
    reschedule itself, and no later frame is processed. *)
Theorem illegal_notation_ends_the_loop {num : Type} `{!JsNum num} {Board : Type}
    `{!ChessJs Board} (mode : Mode) (tr : Tracking num) (f : Frame num Board)
    (frames : list (option (Frame num Board))) update st s best :
  getUpdate (scores f) (squares f) = Normal update ->
  updateState (state tr) update (lit (1 # 2)) = Normal st ->
  processState st (movesPairs f) (possibleMoves tr) = Normal s ->
  ~ confirmed mode s ->
  bestMove s = Some best -> (bestScore1 s >? lit 0) = true ->
  chess_move (board f) (san0 best) = None ->
  iteration mode tr f = Throw IllegalMove /\
  run mode (live tr) (Some f :: frames) = replicate (S (length frames)) None.
Proof.
  intros Hupdate Hst Hs Hnot Hbest Hpos Hmove.
  pose proof (iteration_illegal mode tr f update st s best
                Hupdate Hst Hs Hnot Hbest Hpos Hmove) as Hthrow.
  split; [done|]. cbn [run step]. rewrite Hthrow. simpl. by rewrite run_stopped.
Qed.

Lemma illegal_notation_ends_the_loop_witness :
  run (num := number) play (live fresh) [Some stale; Some (sighting 28 1500)] = [None; None].
Proof.
  assert (exists update, getUpdate (num := number) (scores stale) (squares stale) = Normal update)
    as [update Hupdate] by (eexists; vm_compute; reflexivity).
  assert (exists st, updateState (zeros 64 12) update (Fin (1 # 2)) = Normal st) as [st Hst].
  { assert (exists st, (update ← getUpdate (num := number) (scores stale) (squares stale);
                        updateState (zeros 64 12) update (Fin (1 # 2))) = Normal st)
      as [st Hst] by (eexists; vm_compute; reflexivity).
    exists st. by rewrite Hupdate in Hst. }
  assert (exists s, processState st (movesPairs (num := number) stale) ∅ = Normal s /\
                    (san0 <$> bestMove s) = Some "e4" /\ (bestScore1 s >? lit 0) = true)
    as (s & Hs & Hbest & Hpos).
  { assert (exists s,
              (update ← getUpdate (num := number) (scores stale) (squares stale);
               st ← updateState (zeros 64 12) update (Fin (1 # 2));
               processState st (movesPairs (num := number) stale) ∅) = Normal s /\
              (san0 <$> bestMove s) = Some "e4" /\ (bestScore1 s >? lit 0) = true)
      as (s & Hs & Hrest) by (eexists; split; [|split]; vm_compute; reflexivity).
    exists s. split; [|exact Hrest]. by rewrite Hupdate, bind_Normal, Hst in Hs. }
  destruct (bestMove s) as [best|] eqn:Hbest'; [|done]. injection Hbest as Hsan.
  refine (proj2 (illegal_notation_ends_the_loop play fresh stale [Some (sighting 28 1500)]
                   update st s best Hupdate Hst Hs _ Hbest' Hpos _)).
  - by intros [Hmode _].
  - by rewrite Hsan.
Defined.

(** ** The averager along the frames *)

Section AveragerRunFacts.

Context {num : Type} `{!JsNum num}.

Import Averager.

Implicit Types (buffers : gmap string (PieceBaseBuffer num)) (b : LoopBuffer num).

Lemma addToPieceBaseBuffer_ext moveKey s c buffers buffers' :
  buffers !! moveKey = buffers' !! moveKey ->
  (addToPieceBaseBuffer moveKey s c buffers).2 = (addToPieceBaseBuffer moveKey s c buffers').2 /\
  (addToPieceBaseBuffer moveKey s c buffers).1 !! moveKey
  = (addToPieceBaseBuffer moveKey s c buffers').1 !! moveKey.
Proof.
  intros Hkey. unfold addToPieceBaseBuffer. rewrite Hkey. cbv zeta.
  case_decide; simpl; [by rewrite !lookup_delete_eq | by rewrite !lookup_insert_eq].
Qed.

Lemma feed_ext moveKey frames buffers buffers' :
  buffers !! moveKey = buffers' !! moveKey ->
  feed moveKey frames buffers = feed moveKey frames buffers'.
Proof.
  revert buffers buffers'. induction frames as [|[s c] frames IH]; intros buffers buffers' Hkey; [done|].
  cbn [feed]. destruct (addToPieceBaseBuffer_ext moveKey s c buffers buffers' Hkey) as [Hr Hb].
  destruct (addToPieceBaseBuffer moveKey s c buffers) as [b1 r1],
           (addToPieceBaseBuffer moveKey s c buffers') as [b2 r2]. simpl in *.
  rewrite Hr. f_equal. by apply IH.
Qed.

Lemma feed_app moveKey frames1 frames2 buffers :
  feed moveKey (frames1 ++ frames2) buffers
  = feed moveKey frames1 buffers ++ feed moveKey frames2 (fed moveKey frames1 buffers).
Proof.
  revert buffers. induction frames1 as [|[s c] frames1 IH]; intros buffers; [done|].
  cbn [app feed fed]. destruct (addToPieceBaseBuffer moveKey s c buffers) as [b1 r1]. simpl.
  by rewrite IH.
Qed.

Lemma addToPieceBaseBuffer_other moveKey other s c buffers :
  other ≠ moveKey -> (addToPieceBaseBuffer other s c buffers).1 !! moveKey = buffers !! moveKey.
Proof.
  intros Hne. unfold addToPieceBaseBuffer. cbv zeta.
  case_decide; simpl; [by rewrite lookup_delete_ne | by rewrite lookup_insert_ne].
Qed.

Lemma fed_other moveKey other frames buffers :
  other ≠ moveKey -> fed other frames buffers !! moveKey = buffers !! moveKey.
Proof.
  intros Hne. revert buffers. induction frames as [|[s c] frames IH]; intros buffers; [done|].
  cbn [fed]. by rewrite IH, addToPieceBaseBuffer_other.
Qed.

(** The frame that brings the count to five deletes the buffer of the key. *)
Lemma fed_fifth moveKey frames buffers :
  frames ≠ [] ->
  (frameCount (buffer_of moveKey buffers) + length frames = 5)%nat ->
  fed moveKey frames buffers !! moveKey = None.
Proof.
  revert buffers. induction frames as [|[s c] frames IH]; intros buffers Hne Hlen; [done|].
  cbn [fed]. destruct frames as [|f frames]; simpl in Hlen.
  - rewrite addToPieceBaseBuffer_fifth by lia. simpl. apply lookup_delete_eq.
  - rewrite addToPieceBaseBuffer_below by lia. cbn [fst].
    apply IH; [done|]. unfold buffer_of in *. rewrite lookup_insert_eq. simpl in *. lia.
Qed.

(** *** The buffer of the loop *)

Lemma collect_frames_app move isCapture frames1 frames2 b buffers :
  collect_frames move isCapture (frames1 ++ frames2) b buffers
  = collect_frames move isCapture frames1 b buffers
    ++ collect_frames move isCapture frames2 (collected move isCapture frames1 b buffers).1
         (collected move isCapture frames1 b buffers).2.
Proof.
  revert b buffers. induction frames1 as [|[s c] frames1 IH]; intros b buffers; [done|].
  cbn [app collect_frames collected].
  destruct (collect move s isCapture c b buffers) as [[b1 buffers1] r1]. by rewrite IH.
Qed.

(** Once the five frames of a move are in, its further frames change
    nothing and yield nothing. *)
Lemma collect_idle move s isCapture c b buffers :
  moveKey b = move -> collecting b = false ->
  collect move s isCapture c b buffers = (b, buffers, None).
Proof.
  intros Hkey Hcol. unfold collect. destruct s as [coord|]; [|done].
  rewrite bool_decide_eq_false_2 by (by intros []). by rewrite Hcol.
Qed.

Lemma collect_frames_idle move isCapture frames b buffers :
  moveKey b = move -> collecting b = false ->
  collect_frames move isCapture frames b buffers = replicate (length frames) None.
Proof.
  intros Hkey Hcol. induction frames as [|[s c] frames IH]; [done|].
  cbn [collect_frames]. rewrite collect_idle by done. simpl. by rewrite IH.
Qed.

Lemma collected_below move isCapture (frames : list (list num * option (list num))) b buffers :
  collecting_for move b -> (framesCollected b + length frames < 5)%nat ->
  collecting_for move (collected move isCapture ((fun f => (Some f.1, f.2)) <$> frames) b buffers).1 /\
  framesCollected (collected move isCapture ((fun f => (Some f.1, f.2)) <$> frames) b buffers).1
  = (framesCollected b + length frames)%nat.
Proof.
  revert b buffers. induction frames as [|[s c] frames IH]; intros b buffers Hb Hlen.
  { simpl. split; [done | lia]. }
  rewrite fmap_cons. cbn [collected fst snd]. simpl in Hlen.
  destruct (collect_below move s isCapture c b buffers Hb) as (b' & -> & Hb' & Hn & _); [lia|].
  destruct (IH b' buffers Hb') as [Hfor Hcount]; [lia|]. split; [done|].
  rewrite Hcount. simpl. lia.
Qed.

Lemma collected_five move isCapture (frames : list (list num * option (list num))) b buffers :
  collecting_for move b -> frames ≠ [] -> (framesCollected b + length frames = 5)%nat ->
  let b' := (collected move isCapture ((fun f => (Some f.1, f.2)) <$> frames) b buffers).1 in
  moveKey b' = move /\ collecting b' = false.
Proof.
  intros Hb Hne Hlen. cbv zeta.
  destruct (exists_last Hne) as (front & [s c] & ->).
  rewrite length_app in Hlen. simpl in Hlen.
  rewrite fmap_app. cbn [fmap list_fmap fst snd].
  assert (forall fs1 fs2 b0 bufs,
            collected move isCapture (fs1 ++ fs2) b0 bufs
            = collected move isCapture fs2 (collected move isCapture fs1 b0 bufs).1
                (collected move isCapture fs1 b0 bufs).2) as Happ.
  { induction fs1 as [|[s1 c1] fs1 IH]; intros fs2 b0 bufs; [done|].
    cbn [app collected]. destruct (collect move s1 isCapture c1 b0 bufs) as [[b1 bufs1] r1].
    apply IH. }
  rewrite Happ. destruct (collected_below move isCapture front b buffers Hb) as [Hfor Hcount]; [lia|].
  cbn [collected].
  destruct (collect_fifth move s isCapture c _ (collected move isCapture
              ((fun f => (Some f.1, f.2)) <$> front) b buffers).2 Hfor)
    as (b' & r & -> & Hcol & Hkey & _); [lia|].
  done.
Qed.

(** The frames without a detection of the piece to move do not count. *)
Lemma collect_frames_with_source move isCapture frames b buffers :
  omap id (collect_frames move isCapture frames b buffers)
  = omap id (collect_frames move isCapture (with_source frames) b buffers).
Proof.
  revert b buffers. induction frames as [|[s c] frames IH]; intros b buffers; [done|].
  unfold with_source. rewrite filter_cons. cbn [collect_frames fst].
  destruct s as [coord|].
  - rewrite decide_True by done. cbn [collect_frames].
    destruct (collect move (Some coord) isCapture c b buffers) as [[b1 buffers1] r1].
    cbn [omap list_omap]. unfold with_source in IH. rewrite (IH b1 buffers1). by destruct r1.
  - rewrite decide_False by (by intros [? ?]). cbn [collect]. cbn [omap list_omap id].
    apply IH.
Qed.

End AveragerRunFacts.

(** X11: after the fifth frame the buffer of the key is deleted: the frames that
    follow are averaged afresh, and no observation is counted in two
    averages. *)
Theorem feed_restarts_after_five {num : Type} `{!JsNum num} (moveKey : string)
    (first rest : list (list num * option (list num)))
    (buffers : gmap string (Averager.PieceBaseBuffer num)) :
  buffers !! moveKey = None -> length first = 5%nat ->
  Averager.feed moveKey (first ++ rest) buffers
  = Averager.feed moveKey first buffers ++ Averager.feed moveKey rest buffers.
Proof.
  intros Hkey Hlen. rewrite feed_app. f_equal. apply feed_ext.
  rewrite Hkey. apply fed_fifth; [by destruct first|].
  unfold buffer_of. rewrite Hkey. simpl. lia.
Qed.

Lemma feed_restarts_after_five_witness :
  Averager.feed (num := number) "e2e4" (observations ten_frames) ∅
  = Averager.feed "e2e4" (observations (take 5 ten_frames)) ∅
    ++ Averager.feed "e2e4" (observations (drop 5 ten_frames)) ∅.
Proof.
  exact (feed_restarts_after_five "e2e4" (observations (take 5 ten_frames))
           (observations (drop 5 ten_frames)) ∅ (lookup_empty _) eq_refl).
Defined.

(** Ten frames in binary64 arithmetic: the fifth yields (0,0), the tenth
    (10,10), the others nothing. *)
Example feed_restarts_after_five_binary64 :
  (fun r => (Averager.ready r,
             from_option (fun avg => is_point avg 0 0) false (Averager.sourceAvg r),
             from_option (fun avg => is_point avg 10 10) false (Averager.sourceAvg r)))
    <$> Averager.feed (num := float) "e2e4" (observations ten_frames) ∅
  = replicate 4 (false, false, false) ++ [(true, true, false)]
    ++ replicate 4 (false, false, false) ++ [(true, false, true)].
Proof. vm_compute. reflexivity. Qed.

(** X12: the frames of one move key do not disturb the average of another:
    what was fed or cleared for another key changes no result. *)
Theorem feed_ignores_other_keys {num : Type} `{!JsNum num} (moveKey other : string)
    (frames others : list (list num * option (list num)))
    (buffers : gmap string (Averager.PieceBaseBuffer num)) :
  other ≠ moveKey ->
  Averager.feed moveKey frames (fed other others buffers) = Averager.feed moveKey frames buffers /\
  Averager.feed moveKey frames (Averager.clearPieceBaseBuffer other buffers)
  = Averager.feed moveKey frames buffers.
Proof.
  intros Hne. split; apply feed_ext.
  - by apply fed_other.
  - unfold Averager.clearPieceBaseBuffer. by rewrite lookup_delete_ne.
Qed.

Lemma feed_ignores_other_keys_witness :
  Averager.feed (num := number) "e2e4" (observations five_frames)
    (fed "d2d4" (observations capture_frames) ∅)
  = Averager.feed "e2e4" (observations five_frames) ∅.
Proof.
  refine (proj1 (feed_ignores_other_keys "e2e4" "d2d4" (observations five_frames)
                   (observations capture_frames) ∅ _)).
  discriminate.
Defined.

(** A call of [clearPieceBaseBuffer] discards the observations buffered for
    the key: the five frames that follow are averaged alone. *)
Lemma feed_after_clear moveKey (buffers : gmap string (Averager.PieceBaseBuffer number)) pts :
  length pts = 5%nat ->
  exists r, Averager.feed moveKey (observations pts) (Averager.clearPieceBaseBuffer moveKey buffers)
            = replicate 4 not_ready ++ [r] /\
    exists avg, Averager.sourceAvg r = Some avg /\ mean_of (fst <$> pts) avg.
Proof.
  intros Hlen.
  destruct (feed_five moveKey (Averager.clearPieceBaseBuffer moveKey buffers) pts)
    as (r & Hfeed & _ & Havg & _); [apply lookup_delete_eq | done |].
  by exists r.
Qed.

(** *** The buffer of the loop *)

Section LoopBufferRuns.

Import Averager.

Lemma collected_restart {num : Type} `{!JsNum num} move isCapture (b : LoopBuffer num) buffers
    (frames : list (option (list num) * option (list num))) s c :
  moveKey b ≠ move ->
  collected move isCapture ((Some s, c) :: frames) b buffers
  = collected move isCapture ((Some s, c) :: frames)
      {| source := []; captured := []; moveKey := move; collecting := true;
         framesCollected := 0 |}
      (clearPieceBaseBuffer move buffers).
Proof. intros Hkey. cbn [collected]. by rewrite collect_restart. Qed.

Lemma loop_buffer_once move isCapture (b : LoopBuffer number) buffers
    (pts : list ((Q * Q) * option (Q * Q))) :
  moveKey b ≠ move -> (5 <= length pts)%nat ->
  exists r, collect_frames move isCapture (detected pts) b buffers
            = replicate 4 None ++ [Some r] ++ replicate (length pts - 5) None /\
    mean_of (fst <$> take 5 pts) (averagedSourcePieceBase r) /\ collectedFrames r = 5%nat.
Proof.
  intros Hkey Hlen.
  replace (detected (num := number) pts) with (detected (num := number) (take 5 pts) ++ detected (drop 5 pts))
    by (unfold detected; by rewrite <- fmap_app, take_drop).
  rewrite collect_frames_app.
  destruct (collect_five move isCapture b buffers (take 5 pts) Hkey)
    as (r & -> & Hmean & _ & Hfive); [rewrite length_take; lia|].
  exists r. rewrite <- app_assoc. split; [|done]. do 2 f_equal.
  assert (length (detected (num := number) (drop 5 pts)) = length pts - 5)%nat as <-
    by (unfold detected; by rewrite length_fmap, length_drop).
  destruct (take 5 pts) as [|p front] eqn:Htake.
  { apply (f_equal length) in Htake. rewrite length_take in Htake. cbn [length] in Htake. lia. }
  destruct (detected_cons p front) as (s & c & Hd). rewrite Hd, collected_restart by done.
  rewrite <- Hd, (detected_observations (p :: front)).
  destruct (collected_five move isCapture (observations (p :: front))
              {| source := []; captured := []; moveKey := move; collecting := true;
                 framesCollected := 0 |} (clearPieceBaseBuffer move buffers)) as [Hmove Hcol].
  { done. }
  { done. }
  { rewrite length_observations, <- Htake, length_take. cbn [framesCollected]. lia. }
  apply collect_frames_idle; [exact Hmove | exact Hcol].
Qed.

End LoopBufferRuns.

(** X13: the buffer of the loop emits the averages of a move once: with the
    fifth frame in which the piece is detected; the frames of the same move
    that follow yield nothing, however many they are. *)
Theorem loop_buffer_emits_once (move : string) (isCapture : bool)
    (b : Averager.LoopBuffer number) (buffers : gmap string (Averager.PieceBaseBuffer number))
    (pts : list ((Q * Q) * option (Q * Q))) :
  Averager.moveKey b ≠ move -> (5 <= length pts)%nat ->
  exists r, Averager.collect_frames move isCapture (detected pts) b buffers
            = replicate 4 None ++ [Some r] ++ replicate (length pts - 5) None /\
    mean_of (fst <$> take 5 pts) (Averager.averagedSourcePieceBase r) /\
    Averager.collectedFrames r = 5%nat.
Proof. apply loop_buffer_once. Qed.

Lemma loop_buffer_emits_once_witness :
  exists r, Averager.collect_frames "e2e4" false (detected ten_frames) Averager.empty_buffer ∅
            = replicate 4 None ++ [Some r] ++ replicate 5 None /\
    mean_of (fst <$> take 5 ten_frames) (Averager.averagedSourcePieceBase r).
Proof.
  destruct (loop_buffer_emits_once "e2e4" false Averager.empty_buffer ∅ ten_frames)
    as (r & Hr & Hmean & _); [discriminate | simpl; lia |].
  exists r. split; [exact Hr | exact Hmean].
Defined.

Example loop_buffer_emits_once_binary64 :
  (fun r => from_option (fun r => is_point (Averager.averagedSourcePieceBase r) 0 0) false r)
    <$> Averager.collect_frames (num := float) "e2e4" false (detected ten_frames)
          Averager.empty_buffer ∅
  = replicate 4 false ++ [true] ++ replicate 5 false.
Proof. vm_compute. reflexivity. Qed.

(** X14: the frames in which the piece to move is not detected do not count:
    the averages the loop emits are those it emits on the frames with a
    detection alone. *)
Theorem frames_without_source_do_not_count {num : Type} `{!JsNum num} (move : string)
    (isCapture : bool) (frames : list (option (list num) * option (list num)))
    (b : Averager.LoopBuffer num) (buffers : gmap string (Averager.PieceBaseBuffer num)) :
  omap id (Averager.collect_frames move isCapture frames b buffers)
  = omap id (Averager.collect_frames move isCapture (with_source frames) b buffers).
Proof. apply collect_frames_with_source. Qed.

(** *** The average lies among the observations *)





(** ** The executor: durations, heights, and what it does not read *)

Section ExecutorOrderFacts.

Context {num : Type} `{!JsNum num}.

Import Executor.

Implicit Types (e : Execution num) (steps : list (RobotMoveCommand num * N))
  (bridge : nat -> WebSocket).

(** A command that resolves does so between 500 ms and 1000 ms after it
    was sent. *)
Lemma sendCommand_resolved (ws : WebSocket) (t : N) :
  sendCommand ws = Resolved t -> (500 <= t <= 1000)%N.
Proof.
  unfold sendCommand. destruct (constructor_throws ws); [done|].
  destruct (opens_after ws) as [t0|], (error_after ws) as [err|];
    repeat (match goal with |- context [(?a <? ?b)%N] => destruct (N.ltb_spec a b) end);
    intros [= <-]; lia.
Qed.

Lemma run_steps_clock bridge steps e e' :
  run_steps bridge steps e = (e', Normal tt) ->
  (clock e + settle_time steps + 500 * N.of_nat (length steps) <= clock e'
   /\ clock e' <= clock e + settle_time steps + 1000 * N.of_nat (length steps))%N.
Proof.
  revert e. induction steps as [|[c d] steps IH]; intros e Hrun.
  { injection Hrun as <-. simpl. lia. }
  rewrite run_steps_cons in Hrun. unfold executeCommand in Hrun.
  destruct (sendCommand (bridge (length (issued e)))) as [t|t] eqn:Hsend; [|done].
  apply sendCommand_resolved in Hsend. apply IH in Hrun. cbn [clock] in Hrun.
  cbn [settle_time foldr length snd]. fold (settle_time steps). lia.
Qed.

Lemma run_steps_Normal bridge steps e e' :
  run_steps bridge steps e = (e', Normal tt) ->
  steps_of (issued e') = steps_of (issued e) ++ steps.
Proof.
  revert e. induction steps as [|[c d] steps IH]; intros e Hrun.
  { injection Hrun as <-. by rewrite app_nil_r. }
  rewrite run_steps_cons in Hrun.
  destruct (sendCommand (bridge (length (issued e)))) as [t|t] eqn:Hsend.
  - destruct (executeCommand_resolved bridge c d e t Hsend) as (e1 & He1 & Hlog & _).
    rewrite He1 in Hrun. rewrite (IH e1 Hrun), Hlog, <- app_assoc. done.
  - destruct (executeCommand_rejected bridge c d e t Hsend) as (e1 & He1 & _).
    by rewrite He1 in Hrun.
Qed.

Lemma lifts_before_travel_sequence (window : Window num) (src dst : list num) isCapture :
  lifts_before_travel (sequence window src dst isCapture).
Proof.
  intros i pose d Hi. unfold sequence in Hi.
  destruct isCapture;
    do 17 (destruct i as [|i];
           [simpl in Hi;
            solve [discriminate Hi
                  | do 2 eexists; split;
                    [reflexivity | simpl; unfold with_z; by destruct (getDropPose window)]]|]);
    simpl in Hi; discriminate Hi.
Qed.

Lemma grips_at_the_bottom_sequence (window : Window num) (src dst : list num) isCapture :
  grips_at_the_bottom (sequence window src dst isCapture).
Proof.
  intros i action w f s d Hi. unfold sequence in Hi.
  destruct isCapture;
    do 17 (destruct i as [|i];
           [simpl in Hi;
            solve [discriminate Hi
                  | split;
                    [do 2 eexists; reflexivity
                    | do 2 eexists; split;
                      [reflexivity | simpl; unfold with_z; by destruct (getDropPose window)]]]|]);
    simpl in Hi; discriminate Hi.
Qed.

End ExecutorOrderFacts.

(** X16: a move that completes keeps the caller waiting for the settle delays
    of its commands and for 500 to 1000 ms per command: between 20.5 and
    25 seconds without a capture, between 36.5 and 45 seconds with one. *)
Theorem execution_duration {num : Type} `{!JsNum num} (window : Executor.Window num)
    (bridge : nat -> Executor.WebSocket) (moveData : Executor.MoveExecutionData num)
    (src dst : list num) :
  calibrated window moveData src dst ->
  resolves bridge 0 (if Executor.isCapture moveData then 17 else 9) ->
  exists e, Executor.executeRobotMove window bridge moveData Executor.start = (e, Normal tt) /\
    if Executor.isCapture moveData
    then (36500 <= Executor.clock e <= 45000)%N
    else (20500 <= Executor.clock e <= 25000)%N.
Proof.
  intros Hcal Hres. rewrite (executeRobotMove_steps window bridge moveData src dst) by done.
  destruct (run_steps_resolved bridge (sequence window src dst (Executor.isCapture moveData))
              Executor.start) as (e & Hrun & _).
  { unfold sequence. by destruct (Executor.isCapture moveData). }
  exists e. split; [done|]. apply run_steps_clock in Hrun. unfold sequence in Hrun.
  change (Executor.clock Executor.start) with 0%N in Hrun.
  destruct (Executor.isCapture moveData).
  - change (settle_time _) with 28000%N in Hrun. change (length _) with 17%nat in Hrun. lia.
  - change (settle_time _) with 16000%N in Hrun. change (length _) with 9%nat in Hrun. lia.
Qed.

Lemma execution_duration_witness :
  exists e, Executor.executeRobotMove (num := number) calibration prompt quiet_move
              Executor.start = (e, Normal tt) /\
            (20500 <= Executor.clock e <= 25000)%N.
Proof.
  apply (execution_duration (num := number) calibration prompt quiet_move
           [lit 13; lit 0; lit 0] [lit 29; lit 0; lit 0]).
  - eexists. repeat split; reflexivity.
  - intros i _. eexists. reflexivity.
Defined.

Example execution_duration_binary64 :
  (Executor.clock
     (Executor.executeRobotMove (num := float) calibration prompt quiet_move Executor.start).1,
   Executor.clock
     (Executor.executeRobotMove (num := float) calibration silent capture_move Executor.start).1)
  = (20500%N, 45000%N).
Proof. vm_compute. reflexivity. Qed.

(** X17: the commands of a move depend on the two square numbers and on the
    capture flag alone: the averaged piece-base coordinates and the UCI
    string of the move data are not read. *)
Theorem executeRobotMove_ignores_coordinates {num : Type} `{!JsNum num}
    (window : Executor.Window num) (bridge : nat -> Executor.WebSocket)
    (moveData moveData' : Executor.MoveExecutionData num) (e : Executor.Execution num) :
  Executor.sourceSquare moveData = Executor.sourceSquare moveData' ->
  Executor.destSquare moveData = Executor.destSquare moveData' ->
  Executor.isCapture moveData = Executor.isCapture moveData' ->
  Executor.executeRobotMove window bridge moveData e
  = Executor.executeRobotMove window bridge moveData' e.
Proof.
  intros Hsrc Hdst Hcap. unfold Executor.executeRobotMove. by rewrite Hsrc, Hdst, Hcap.
Qed.

Lemma executeRobotMove_ignores_coordinates_witness :
  Executor.executeRobotMove (num := number) calibration prompt quiet_move Executor.start
  = Executor.executeRobotMove calibration prompt
      {| Executor.sourceSquare := 13; Executor.destSquare := 29;
         Executor.sourcePieceBaseCamera := Some [Fin 320; Fin 240];
         Executor.capturedPieceBaseCamera := Some [Fin 0; Fin 0];
         Executor.isCapture := false; Executor.uciMove := "g1f3" |}
      Executor.start.
Proof.
  exact (executeRobotMove_ignores_coordinates calibration prompt quiet_move _ Executor.start
           eq_refl eq_refl eq_refl).
Defined.

(** X18: in the commands of a move that completes, the arm travels sideways
    only after a vertical move to the clearance height, the gripper acts
    between a vertical move down and a vertical move up to the clearance
    height, and it closes and opens in turn, the last action being to
    open. *)
Theorem execution_keeps_clearance {num : Type} `{!JsNum num} (window : Executor.Window num)
    (bridge : nat -> Executor.WebSocket) (moveData : Executor.MoveExecutionData num)
    (src dst : list num) (e : Executor.Execution num) :
  calibrated window moveData src dst ->
  Executor.executeRobotMove window bridge moveData Executor.start = (e, Normal tt) ->
  lifts_before_travel (steps_of (Executor.issued e)) /\
  grips_at_the_bottom (steps_of (Executor.issued e)) /\
  gripper_actions (steps_of (Executor.issued e))
  = if Executor.isCapture moveData
    then [Executor.close; Executor.open; Executor.close; Executor.open]
    else [Executor.close; Executor.open].
Proof.
  intros Hcal Hrun. rewrite (executeRobotMove_steps window bridge moveData src dst) in Hrun by done.
  apply run_steps_Normal in Hrun. rewrite Hrun. cbn [Executor.issued Executor.start steps_of fmap list_fmap app].
  split; [apply lifts_before_travel_sequence|]. split; [apply grips_at_the_bottom_sequence|].
  unfold sequence. by destruct (Executor.isCapture moveData).
Qed.

Lemma execution_keeps_clearance_witness :
  exists e, Executor.executeRobotMove (num := number) calibration prompt capture_move
              Executor.start = (e, Normal tt) /\
    gripper_actions (steps_of (Executor.issued e))
    = [Executor.close; Executor.open; Executor.close; Executor.open].
Proof.
  assert (exists e, Executor.executeRobotMove (num := number) calibration prompt capture_move
                      Executor.start = (e, Normal tt)) as [e He]
    by (eexists; vm_compute; reflexivity).
  exists e. split; [exact He|].
  refine (proj2 (proj2 (execution_keeps_clearance calibration prompt capture_move
                          [lit 29; lit 0; lit 0] [lit 36; lit 0; lit 0] e _ He))).
  eexists. repeat split; reflexivity.
Defined.

(** ** The poses of the squares, and the executor on them *)

Section TransformPosesFacts.

Context {num : Type} `{!JsNum num} `{!Warp num}.

Import TransformPoses.

Implicit Types (st : State num).

Lemma getSquarePose_Some st (n : Z) (p : list num) :
  getSquarePose st n = Some p <->
  (1 <= n <= 64)%Z /\ (64 <= length (transformedCenters st))%nat /\
  transformedCenters st !! Z.to_nat (n - 1) = Some p.
Proof.
  unfold getSquarePose.
  destruct (Z.ltb_spec n 1), (Z.gtb_spec n 64); simpl; try (split; [done | lia]).
  destruct (Nat.ltb_spec (length (transformedCenters st)) 64); [split; [done | lia]|].
  unfold index. destruct (Z.ltb_spec (n - 1) 0); [lia|].
  split; [intros Hp; repeat split; (lia || done) | by intros (_ & _ & ?)].
Qed.

Lemma getSquarePose_None st (n : Z) :
  getSquarePose st n = None <->
  (n < 1 \/ 64 < n)%Z \/ (length (transformedCenters st) < 64)%nat.
Proof.
  unfold getSquarePose.
  destruct (Z.ltb_spec n 1), (Z.gtb_spec n 64); simpl; try (split; [lia | done]).
  destruct (Nat.ltb_spec (length (transformedCenters st)) 64); [split; [lia | done]|].
  unfold index. destruct (Z.ltb_spec (n - 1) 0); [lia|].
  destruct (lookup_lt_is_Some_2 (transformedCenters st) (Z.to_nat (n - 1))) as [p ->]; [lia|].
  split; [done | lia].
Qed.

Lemma calibrate_loaded (centers : list (list num)) poses t :
  (64 <= length centers)%nat ->
  getPerspectiveTransform ((fun pose => [Executor.x pose; Executor.y pose])
                             <$> Executor.corners poses)
    [centers !! 0%nat; centers !! 7%nat; centers !! 63%nat; centers !! 56%nat] = Some t ->
  calibrate centers (Some poses) initial
  = {| transformedCenters := perspectiveTransform centers t;
       transformationMatrix := Some t;
       chessboardPoses := Some poses;
       window_centersCache := Some centers;
       window_chessboardPoses := Some poses;
       window_transformedCenters := Some [];
       cli := true |}.
Proof.
  intros Hlen Ht. unfold calibrate, logCornerCenters, processChessboardCoordinates_start.
  destruct (Nat.ltb_spec (length centers) 64); [lia|]. cbn [setupCLI initial
    transformedCenters transformationMatrix chessboardPoses window_centersCache
    window_chessboardPoses window_transformedCenters cli].
  unfold processChessboardCoordinates_loaded, calculateTransformation. cbv zeta.
  cbn [loadChessboardPoses storePosesOnWindow transformedCenters transformationMatrix
       chessboardPoses window_centersCache window_chessboardPoses window_transformedCenters cli].
  rewrite Ht. done.
Qed.

Lemma calibrate_not_loaded (centers : list (list num)) :
  transformedCenters (calibrate centers None initial) = [] /\
  cli (calibrate centers None initial) = bool_decide (64 <= length centers)%nat.
Proof.
  unfold calibrate, logCornerCenters, processChessboardCoordinates_start.
  destruct (Nat.ltb_spec (length centers) 64); simpl.
  - split; [done|]. by rewrite bool_decide_eq_false_2 by lia.
  - split; [done|]. by rewrite bool_decide_eq_true_2 by lia.
Qed.

End TransformPosesFacts.

(** X19: after the calibration of the loop, with the JSON file loaded and a
    transform that gives the 64 robot centers, the executor drives the arm
    over the transformed centers of the two squares the move data numbers,
    from 1 to 64: square [n] is entry [n - 1]. *)
Theorem execution_after_calibration {num : Type} `{!JsNum num} `{!Warp num}
    (centers : list (list num)) (poses : Executor.ChessboardPoses num) (t : Matrix)
    (moveData : Executor.MoveExecutionData num) :
  (64 <= length centers)%nat ->
  getPerspectiveTransform ((fun pose => [Executor.x pose; Executor.y pose])
                             <$> Executor.corners poses)
    [centers !! 0%nat; centers !! 7%nat; centers !! 63%nat; centers !! 56%nat] = Some t ->
  (64 <= length (perspectiveTransform centers t))%nat ->
  (1 <= Executor.sourceSquare moveData <= 64)%Z ->
  (1 <= Executor.destSquare moveData <= 64)%Z ->
  let window := TransformPoses.window_of (TransformPoses.calibrate centers (Some poses)
                                            TransformPoses.initial) in
  exists src dst,
    perspectiveTransform centers t !! Z.to_nat (Executor.sourceSquare moveData - 1) = Some src /\
    perspectiveTransform centers t !! Z.to_nat (Executor.destSquare moveData - 1) = Some dst /\
    Executor.chessboardPoses window = Some poses /\
    forall bridge e,
      Executor.executeRobotMove window bridge moveData e
      = run_steps bridge (sequence window src dst (Executor.isCapture moveData)) e.
Proof.
  intros Hlen Ht Hrobot Hsrc Hdst. cbv zeta. rewrite (calibrate_loaded centers poses t Hlen Ht).
  destruct (lookup_lt_is_Some_2 (perspectiveTransform centers t)
              (Z.to_nat (Executor.sourceSquare moveData - 1))) as [src Hs]; [lia|].
  destruct (lookup_lt_is_Some_2 (perspectiveTransform centers t)
              (Z.to_nat (Executor.destSquare moveData - 1))) as [dst Hd]; [lia|].
  exists src, dst. split; [done|]. split; [done|]. split; [done|].
  intros bridge e. apply executeRobotMove_steps.
  eexists. split; [reflexivity|]. split; [reflexivity|].
  split; by apply getSquarePose_Some.
Qed.

Lemma execution_after_calibration_witness :
  exists src dst,
    centers_in_line (num := number) 0 !! 12%nat = Some src /\
    centers_in_line (num := number) 0 !! 28%nat = Some dst /\
    forall bridge e,
      Executor.executeRobotMove
        (TransformPoses.window_of
           (TransformPoses.calibrate (centers_in_line 0) (Some poses_file) TransformPoses.initial))
        bridge quiet_move e
      = run_steps bridge
          (sequence (TransformPoses.window_of
                       (TransformPoses.calibrate (centers_in_line 0) (Some poses_file)
                          TransformPoses.initial)) src dst false) e.
Proof.
  destruct (@execution_after_calibration number _ same_plane (centers_in_line 0) poses_file tt
              quiet_move) as (src & dst & Hsrc & Hdst & _ & Hrun);
    [vm_compute; lia | reflexivity | vm_compute; lia | vm_compute; split; discriminate
    | vm_compute; split; discriminate |].
  exists src, dst. split; [exact Hsrc|]. split; [exact Hdst | exact Hrun].
Defined.

(** The calibrated move in binary64 arithmetic: nine commands, the first
    of them over the centre of square 13 at the clearance height. *)
Example execution_after_calibration_binary64 :
  match Executor.issued
          (Executor.executeRobotMove (num := float)
             (TransformPoses.window_of
                (TransformPoses.calibrate (centers_in_line 0) (Some poses_file)
                   TransformPoses.initial))
             prompt quiet_move Executor.start).1 with
  | first :: rest =>
      (length rest,
       match Executor.command first with
       | Executor.move (Some pose) Executor.clearance =>
           match Executor.x pose, Executor.z pose with
           | Some x, Some z => PrimFloat.eqb x 13 && PrimFloat.eqb z 0.24
           | _, _ => false
           end
       | _ => false
       end)
  | [] => (0%nat, false)
  end = (8%nat, true).
Proof. vm_compute. reflexivity. Qed.

(** X20: without the console interface on [window] the executor throws before
    it sends anything; with it, it throws before it sends anything when a
    square number is not between 1 and 64 or fewer than 64 transformed
    centers are there, as before the JSON file has arrived or after its
    request failed. *)
Theorem execution_needs_calibration {num : Type} `{!JsNum num} `{!Warp num}
    (st : TransformPoses.State num) (bridge : nat -> Executor.WebSocket)
    (moveData : Executor.MoveExecutionData num) (e : Executor.Execution num) :
  (TransformPoses.cli st = false ->
   Executor.executeRobotMove (TransformPoses.window_of st) bridge moveData e
   = (e, Throw (Error "Square pose functions not available. Calibrate first!"))) /\
  (TransformPoses.cli st = true ->
   ~ (1 <= Executor.sourceSquare moveData <= 64)%Z \/
   ~ (1 <= Executor.destSquare moveData <= 64)%Z \/
   (length (TransformPoses.transformedCenters st) < 64)%nat ->
   Executor.executeRobotMove (TransformPoses.window_of st) bridge moveData e
   = (e, Throw (Error "Square poses not available. Calibrate first!"))) /\
  (forall centers,
     st = TransformPoses.calibrate centers None TransformPoses.initial ->
     exists msg, Executor.executeRobotMove (TransformPoses.window_of st) bridge moveData e
                 = (e, Throw (Error msg))).
Proof.
  assert (TransformPoses.cli st = false ->
          Executor.executeRobotMove (TransformPoses.window_of st) bridge moveData e
          = (e, Throw (Error "Square pose functions not available. Calibrate first!"))) as Hno.
  { intros Hcli. unfold Executor.executeRobotMove, TransformPoses.window_of. by rewrite Hcli. }
  assert (TransformPoses.cli st = true ->
          ~ (1 <= Executor.sourceSquare moveData <= 64)%Z \/
          ~ (1 <= Executor.destSquare moveData <= 64)%Z \/
          (length (TransformPoses.transformedCenters st) < 64)%nat ->
          Executor.executeRobotMove (TransformPoses.window_of st) bridge moveData e
          = (e, Throw (Error "Square poses not available. Calibrate first!"))) as Hout.
  { intros Hcli Hbad. unfold Executor.executeRobotMove, TransformPoses.window_of.
    rewrite Hcli. cbn [Executor.getSquarePose Executor.getFullRobotPose].
    assert (TransformPoses.getSquarePose st (Executor.sourceSquare moveData) = None \/
            TransformPoses.getSquarePose st (Executor.destSquare moveData) = None) as [->| Hd].
    { rewrite !getSquarePose_None. lia. }
    - done.
    - destruct (TransformPoses.getSquarePose st (Executor.sourceSquare moveData)) eqn:Hs;
        [|done].
      by rewrite Hd. }
  split; [done|]. split; [done|].
  intros centers ->. destruct (calibrate_not_loaded centers) as [Hcenters Hcli].
  destruct (TransformPoses.cli _) eqn:Hc.
  - eexists. apply Hout; [done|]. rewrite Hcenters. simpl. lia.
  - eexists. by apply Hno.
Qed.

Example execution_needs_calibration_binary64 :
  (Executor.executeRobotMove (num := float)
     (TransformPoses.window_of
        (TransformPoses.calibrate (centers_in_line 0) None TransformPoses.initial))
     prompt quiet_move Executor.start).2
  = Throw (Error "Square poses not available. Calibrate first!").
Proof. vm_compute. reflexivity. Qed.

(** X21: the calibration leaves on [window.transformedCenters] the array of
    before the calibration, since the console interface is set up before
    the JSON file arrives and the transformed centers are a new array; the
    functions of the interface and [getAllTransformedCenters] read the new
    one, and [window.chessboardPoses] holds the loaded poses. *)
Theorem window_transformedCenters_is_stale {num : Type} `{!JsNum num} `{!Warp num}
    (centers : list (list num)) (poses : Executor.ChessboardPoses num) (t : Matrix) :
  (64 <= length centers)%nat ->
  getPerspectiveTransform ((fun pose => [Executor.x pose; Executor.y pose])
                             <$> Executor.corners poses)
    [centers !! 0%nat; centers !! 7%nat; centers !! 63%nat; centers !! 56%nat] = Some t ->
  let st := TransformPoses.calibrate centers (Some poses) TransformPoses.initial in
  TransformPoses.window_transformedCenters st = Some [] /\
  TransformPoses.getAllTransformedCenters st = perspectiveTransform centers t /\
  TransformPoses.window_chessboardPoses st = Some poses /\
  TransformPoses.window_centersCache st = Some centers.
Proof. intros Hlen Ht. cbv zeta. by rewrite (calibrate_loaded centers poses t Hlen Ht). Qed.

Lemma window_transformedCenters_is_stale_witness :
  TransformPoses.window_transformedCenters
    (TransformPoses.calibrate (num := number) (centers_in_line 0) (Some poses_file)
       TransformPoses.initial) = Some [] /\
  length (TransformPoses.getAllTransformedCenters
            (TransformPoses.calibrate (num := number) (centers_in_line 0) (Some poses_file)
               TransformPoses.initial)) = 64%nat.
Proof.
  destruct (@window_transformedCenters_is_stale number _ same_plane (centers_in_line 0)
              poses_file tt)
    as (Hwindow & Hall & _); [vm_compute; lia | reflexivity |].
  split; [exact Hwindow|]. rewrite Hall. reflexivity.
Defined.

(** ** The manual control of the arm *)

Section RobotControlFacts.

Context {num : Type} `{!JsNum num} `{!JsBool num} `{!Warp num}.

Import TransformPoses.

Implicit Types (st : State num).

Lemma getSquareInfo_in_range names st (n : Z) :
  (1 <= n <= 64)%Z ->
  getSquareInfo names st n
  = (fullPose ← getFullRobotPose st n;
     mret (Some {| squareName := index names (n - 1);
                   cameraX := (match window_centersCache st with
                               | Some cameraCenters =>
                                   if (n - 1 <? Z.of_nat (length cameraCenters))%Z
                                   then (index cameraCenters (n - 1) ≫= fun c => c !! 0%nat,
                                         index cameraCenters (n - 1) ≫= fun c => c !! 1%nat)
                                   else (Some (lit 0), Some (lit 0))
                               | None => (Some (lit 0), Some (lit 0))
                               end).1;
                   cameraY := (match window_centersCache st with
                               | Some cameraCenters =>
                                   if (n - 1 <? Z.of_nat (length cameraCenters))%Z
                                   then (index cameraCenters (n - 1) ≫= fun c => c !! 0%nat,
                                         index cameraCenters (n - 1) ≫= fun c => c !! 1%nat)
                                   else (Some (lit 0), Some (lit 0))
                               | None => (Some (lit 0), Some (lit 0))
                               end).2;
                   robotX := getSquarePose st n ≫= fun p => p !! 0%nat;
                   robotY := getSquarePose st n ≫= fun p => p !! 1%nat;
                   fullPose := fullPose |})).
Proof.
  intros Hn. unfold getSquareInfo.
  destruct (Z.ltb_spec n 1), (Z.gtb_spec n 64); try lia. done.
Qed.

Lemma moveToSquare_calibrated names st (n : Z) xy poses corner :
  getSquarePose st n = Some xy -> chessboardPoses st = Some poses ->
  head (Executor.corners poses) = Some corner ->
  moveToSquare names st n
  = Normal (if not_ (xy !! 0%nat) || not_ (xy !! 1%nat)
            then robot_coordinates_not_available
            else sends (Executor.move
                          (Some {| Executor.x := xy !! 0%nat; Executor.y := xy !! 1%nat;
                                   Executor.z := Executor.z corner;
                                   Executor.rx := Executor.rx corner;
                                   Executor.ry := Executor.ry corner;
                                   Executor.rz := Executor.rz corner |})
                          Executor.clearance)).
Proof.
  intros Hxy Hposes Hcorner.
  assert (1 <= n <= 64)%Z as Hn by (by apply getSquarePose_Some in Hxy as [? _]).
  unfold moveToSquare. rewrite getSquareInfo_in_range by done.
  unfold getFullRobotPose. rewrite Hxy, Hposes, Hcorner. simpl.
  by destruct (not_ (xy !! 0%nat) || not_ (xy !! 1%nat)).
Qed.

Lemma moveToSquare_sends_inv names st (n : Z) c :
  moveToSquare names st n = Normal (sends c) ->
  exists xy poses corner,
    getSquarePose st n = Some xy /\ chessboardPoses st = Some poses /\
    head (Executor.corners poses) = Some corner.
Proof.
  unfold moveToSquare. unfold getSquareInfo.
  destruct ((n <? 1)%Z || (n >? 64)%Z); [done|]. cbv zeta. unfold getFullRobotPose.
  destruct (getSquarePose st n) as [xy|] eqn:Hxy; [|done].
  destruct (chessboardPoses st) as [poses|] eqn:Hposes.
  - destruct (head (Executor.corners poses)) as [corner|] eqn:Hcorner; [|done].
    intros _. by exists xy, poses, corner.
  - simpl. by destruct (not_ (xy !! 0%nat) || not_ (xy !! 1%nat)).
Qed.

End RobotControlFacts.

(** X22: [moveToSquare] sends a move, over the square and at the height and
    orientation of the first corner, exactly when the square has a robot
    pose, the poses are loaded with a first corner, and neither robot
    coordinate is falsy; on a calibrated square whose robot X or Y is 0 (or
    NaN) it reports that the coordinates are not available. *)
Theorem moveToSquare_needs_truthy_coordinates {num : Type} `{!JsNum num} `{!JsBool num}
    `{!Warp num} (names : list string) (st : TransformPoses.State num) (n : Z) :
  (forall c,
     moveToSquare names st n = Normal (sends c) <->
     exists xy poses corner,
       TransformPoses.getSquarePose st n = Some xy /\
       TransformPoses.chessboardPoses st = Some poses /\
       head (Executor.corners poses) = Some corner /\
       not_ (xy !! 0%nat) = false /\ not_ (xy !! 1%nat) = false /\
       c = Executor.move
             (Some {| Executor.x := xy !! 0%nat; Executor.y := xy !! 1%nat;
                      Executor.z := Executor.z corner; Executor.rx := Executor.rx corner;
                      Executor.ry := Executor.ry corner; Executor.rz := Executor.rz corner |})
             Executor.clearance) /\
  (forall xy poses corner,
     TransformPoses.getSquarePose st n = Some xy ->
     TransformPoses.chessboardPoses st = Some poses ->
     head (Executor.corners poses) = Some corner ->
     not_ (xy !! 0%nat) || not_ (xy !! 1%nat) = true ->
     moveToSquare names st n = Normal robot_coordinates_not_available).
Proof.
  split.
  - intros c. split.
    + intros Hc. destruct (moveToSquare_sends_inv names st n c Hc)
        as (xy & poses & corner & Hxy & Hposes & Hcorner).
      rewrite (moveToSquare_calibrated names st n xy poses corner) in Hc by done.
      exists xy, poses, corner.
      destruct (not_ (xy !! 0%nat)), (not_ (xy !! 1%nat)); simpl in Hc; try done.
      injection Hc as <-. done.
    + intros (xy & poses & corner & Hxy & Hposes & Hcorner & Hx & Hy & ->).
      rewrite (moveToSquare_calibrated names st n xy poses corner) by done.
      by rewrite Hx, Hy.
  - intros xy poses corner Hxy Hposes Hcorner Hfalsy.
    rewrite (moveToSquare_calibrated names st n xy poses corner) by done.
    by rewrite Hfalsy.
Qed.

(** With the centers in a line, shifted so that square 10 is at X = 0:
    square 10 is refused, square 11 is moved to. *)
Example moveToSquare_zero_coordinate :
  let st := TransformPoses.calibrate (num := number) (centers_in_line 10) (Some poses_file)
              TransformPoses.initial in
  moveToSquare [] st 10 = Normal robot_coordinates_not_available /\
  (exists c, moveToSquare [] st 11 = Normal (sends c)) /\
  moveToSquare [] st 65 = Normal information_not_available.
Proof. cbv zeta. split; [|split]; [|eexists|]; vm_compute; reflexivity. Qed.

Example moveToSquare_zero_coordinate_binary64 :
  let st := TransformPoses.calibrate (num := float) (centers_in_line 10) (Some poses_file)
              TransformPoses.initial in
  moveToSquare [] st 10 = Normal robot_coordinates_not_available /\
  (exists c, moveToSquare [] st 11 = Normal (sends c)).
Proof. cbv zeta. split; [|eexists]; vm_compute; reflexivity. Qed.

(** ** The labels of the overlay *)

Lemma best_piece_fold (row : list number) (n : nat) :
  Forall is_finite row -> length row = 12%nat -> (n <= 12)%nat ->
  let r := fold_left (fun '(bestScore, bestPiece) j =>
                        if entry row (Z.of_nat j) >? bestScore
                        then (entry row (Z.of_nat j), Z.of_nat j)
                        else (bestScore, bestPiece))
                     (seq 0 n) (Fin (1 # 10), (-1)%Z) in
  exists s, r.1 = Fin s /\
    ((r.2 = (-1)%Z /\ (s == 1 # 10)%Q /\
      forall j, (0 <= j < Z.of_nat n)%Z -> (value (entry row j) <= 1 # 10)%Q) \/
     ((0 <= r.2 < Z.of_nat n)%Z /\ entry row r.2 = Fin s /\ (1 # 10 < s)%Q /\
      (forall j, (0 <= j < Z.of_nat n)%Z -> (value (entry row j) <= s)%Q) /\
      (forall j, (0 <= j < r.2)%Z -> (value (entry row j) < s)%Q))).
Proof.
  intros Hfin Hlen Hn. induction n as [|n IH].
  { exists (1 # 10)%Q. split; [done|]. left. split; [done|]. split; [done|]. lia. }
  cbv zeta in *. rewrite seq_S, fold_left_app. cbn [fold_left plus].
  destruct IH as (s & Hs & IH); [lia|].
  destruct (fold_left _ (seq 0 n) _) as [best piece]. cbn [fst snd] in *. subst best.
  destruct (lookup_lt_is_Some_2 row n) as [a Ha]; [lia|].
  rewrite (entry_lookup row n a Ha).
  rewrite Forall_lookup in Hfin. specialize (Hfin n a Ha). destruct a as [v| | |]; try done.
  assert (forall j, (0 <= j < Z.of_nat (S n))%Z ->
                    (0 <= j < Z.of_nat n)%Z \/ j = Z.of_nat n) as Hcases by lia.
  destruct (Fin v >? Fin s) eqn:Hgt.
  - apply gtb_Fin in Hgt. exists v. split; [done|]. right. cbn [fst snd].
    split; [lia|]. split; [by apply entry_lookup|].
    destruct IH as [(-> & Hs & Hle)|(Hp & Hps & Hpos & Hle & Hlt)].
    + split; [by rewrite <- Hs|]. split.
      * intros j [Hj| ->]%Hcases.
        { apply Qle_trans with (1 # 10)%Q; [by apply Hle|]. rewrite <- Hs. by apply Qlt_le_weak. }
        rewrite (entry_lookup row n _ Ha). apply Qle_refl.
      * intros j Hj. apply Qle_lt_trans with (1 # 10)%Q; [by apply Hle|]. by rewrite <- Hs.
    + split; [by apply Qlt_trans with s|]. split.
      * intros j [Hj| ->]%Hcases.
        { apply Qle_trans with s; [by apply Hle | by apply Qlt_le_weak]. }
        rewrite (entry_lookup row n _ Ha). apply Qle_refl.
      * intros j Hj. apply Qle_lt_trans with s; [by apply Hle|done].
  - apply gtb_Fin_false in Hgt. exists s. split; [done|]. cbn [fst snd].
    destruct IH as [(-> & Hs & Hle)|(Hp & Hps & Hpos & Hle & Hlt)]; [left | right].
    + split; [done|]. split; [done|].
      intros j [Hj| ->]%Hcases; [by apply Hle|].
      rewrite (entry_lookup row n _ Ha). simpl. by rewrite <- Hs.
    + split; [lia|]. split; [done|]. split; [done|]. split; [|done].
      intros j [Hj| ->]%Hcases; [by apply Hle|].
      by rewrite (entry_lookup row n _ Ha).
Qed.

Lemma best_piece_spec (row : list number) :
  Forall is_finite row -> length row = 12%nat ->
  exists s, (best_piece row).1 = Fin s /\
    (((best_piece row).2 = (-1)%Z /\
      forall j, (0 <= j < 12)%Z -> (value (entry row j) <= 1 # 10)%Q) \/
     most_confident row (best_piece row).2 s).
Proof.
  intros Hfin Hlen. destruct (best_piece_fold row 12 Hfin Hlen) as (s & Hs & H); [lia|].
  exists s. split; [exact Hs|]. destruct H as [(Hp & _ & Hle)|H]; [left | right]; done.
Qed.

Lemma most_confident_unique (row : list number) (p p' : Z) (s s' : Q) :
  most_confident row p s -> most_confident row p' s' -> p = p'.
Proof.
  intros (Hp & Hps & _ & Hle & Hlt) (Hp' & Hps' & _ & Hle' & Hlt').
  destruct (Z.lt_trichotomy p p') as [Hlt0|[->|Hlt0]]; [|done|].
  - specialize (Hlt' p ltac:(lia)). specialize (Hle p' Hp').
    rewrite Hps in Hlt'. rewrite Hps' in Hle. simpl in *. exfalso. by apply (Qlt_not_le s s').
  - specialize (Hlt p' ltac:(lia)). specialize (Hle' p Hp).
    rewrite Hps' in Hlt. rewrite Hps in Hle'. simpl in *. exfalso. by apply (Qlt_not_le s' s).
Qed.

Section Labels.

Variables (centers : list (list number)) (st : grid number).
Hypothesis Hst : belief_state st.
Hypothesis Hcenters : (64 <= length centers)%nat.

Lemma renderState_labels_fold (n : nat) :
  (n <= 64)%nat ->
  exists drawn,
    foldM (fun drawn i =>
             row ← defined (st !! i);
             let '(bestScore, bestPiece) := best_piece row in
             if (bestPiece =? -1)%Z then mret drawn
             else
               center ← defined (centers !! i);
               mret (drawn ++ [{| label_square := i; label_piece := bestPiece;
                                  label_score := bestScore; label_center := center |}]))
          [] (seq 0 n) = Normal drawn /\
    forall l, l ∈ drawn <->
      (label_square l < n)%nat /\ centers !! label_square l = Some (label_center l) /\
      exists row s, st !! label_square l = Some row /\ label_score l = Fin s /\
                    most_confident row (label_piece l) s.
Proof using Hst Hcenters.
  induction n as [|n IH]; intros Hn.
  { exists []. split; [done|]. intros l. split; [by intros ?%elem_of_nil | lia]. }
  destruct IH as (drawn & Hdrawn & Hin); [lia|].
  rewrite seq_S, foldM_app, Hdrawn, bind_Normal. cbn [foldM plus].
  destruct Hst as [[Hrows Hcols] Hfin].
  destruct (lookup_lt_is_Some_2 st n) as [row Hrow]; [lia|].
  destruct (lookup_lt_is_Some_2 centers n) as [center Hcenter]; [lia|].
  rewrite Hrow. cbn [defined]. rewrite bind_Normal.
  rewrite Forall_lookup in Hcols, Hfin.
  destruct (best_piece_spec row (Hfin n row Hrow) (Hcols n row Hrow)) as (s & Hs & Hbest).
  destruct (best_piece row) as [bestScore bestPiece]. simpl in Hs, Hbest. subst bestScore.
  destruct Hbest as [[-> Hlow]|Hbest].
  - exists drawn. split; [done|]. intros l. rewrite Hin. split.
    + intros (? & ? & ?). split; [lia | done].
    + intros (Hl & Hc & row' & s' & Hrow' & Hs' & Hmost). split; [|by eauto 6].
      destruct (decide (label_square l = n)) as [Heq|]; [|lia].
      rewrite Heq, Hrow in Hrow'. injection Hrow' as <-.
      destruct Hmost as (Hp & Hps & Hpos & _). specialize (Hlow _ Hp).
      rewrite Hps in Hlow. simpl in Hlow. exfalso. by apply (Qlt_not_le (1 # 10) s').
  - destruct (Z.eqb_spec bestPiece (-1)) as [->|_].
    { destruct Hbest as [? _]. lia. }
    rewrite Hcenter. cbn [defined]. rewrite !bind_Normal. eexists. split; [done|].
    intros l. rewrite elem_of_app, Hin, list_elem_of_singleton. split.
    + intros [(? & ? & ?)| ->]; [split; [lia | done]|]. simpl.
      split; [lia|]. split; [done|]. by exists row, s.
    + intros (Hl & Hc & row' & s' & Hrow' & Hs' & Hmost).
      destruct (decide (label_square l = n)) as [Heq|]; [right | left; split; [lia | by eauto 6]].
      rewrite Heq in *. rewrite Hrow in Hrow'. injection Hrow' as <-.
      rewrite Hcenter in Hc. injection Hc as Hc.
      pose proof (most_confident_unique row _ _ _ _ Hmost Hbest) as Hp.
      destruct l as [sq p sc ce]. simpl in *. subst. f_equal.
      destruct Hmost as (_ & Hm & _), Hbest as (_ & Hb & _). congruence.
Qed.

End Labels.

(** X23: on each square whose most confident class is above 0.1, [renderState]
    draws one label, that of this class, the first if several are as
    confident, with its confidence; it draws none on the other squares. *)
Theorem renderState_labels_most_confident (centers : list (list number)) (st : grid number) :
  belief_state st -> (64 <= length centers)%nat ->
  exists drawn, renderState_labels centers st = Normal drawn /\
    forall l, l ∈ drawn <->
      (label_square l < 64)%nat /\ centers !! label_square l = Some (label_center l) /\
      exists row s, st !! label_square l = Some row /\ label_score l = Fin s /\
                    most_confident row (label_piece l) s.
Proof. intros Hst Hcenters. by apply renderState_labels_fold. Qed.

Lemma renderState_labels_most_confident_witness :
  exists drawn, renderState_labels (num := number) (centers_in_line 0) pawn_on_e4
                = Normal drawn /\
    forall l, l ∈ drawn -> label_square l = 28%nat /\ label_piece l = 6%Z.
Proof.
  destruct (renderState_labels_most_confident (centers_in_line 0) pawn_on_e4)
    as (drawn & Hdrawn & Hin); [apply belief_state_pawn_on_e4 | vm_compute; lia |].
  exists drawn. split; [exact Hdrawn|].
  assert (exists drawn', renderState_labels (num := number) (centers_in_line 0) pawn_on_e4
                         = Normal drawn' /\
            Forall (fun l => label_square l = 28%nat /\ label_piece l = 6%Z) drawn')
    as (drawn' & Hdrawn' & Hall).
  { eexists. split; [vm_compute; reflexivity|]. by repeat constructor. }
  assert (drawn' = drawn) as -> by congruence.
  intros l Hl. rewrite Forall_forall in Hall. by apply Hall.
Defined.

Example renderState_labels_binary64 :
  match renderState_labels (num := float) (centers_in_line 0) pawn_on_e4 with
  | Normal [l] => (label_square l, label_piece l, PrimFloat.eqb (label_score l) 0.9)
  | _ => (0%nat, 0%Z, false)
  end = (28%nat, 6%Z, true).
Proof. vm_compute. reflexivity. Qed.

(** ** The camera proxy *)

Section MjpegProxyFacts.
Import MjpegProxy.
#[local] Close Scope js_scope.
#[local] Open Scope nat_scope.

Lemma indexOf_lt buffer a b i : indexOf buffer a b = Some i -> i + 2 <= length buffer.
Proof.
  revert i. induction buffer as [|c rest IH]; intros i; [done|]. simpl.
  destruct rest as [|d rest]; [done|].
  destruct (Byte.eqb c a && Byte.eqb d b).
  - intros [= <-]. simpl. lia.
  - destruct (indexOf (d :: rest) a b) as [j|] eqn:Hj; [|done]. intros [= <-].
    specialize (IH j eq_refl). simpl in *. lia.
Qed.

Lemma indexOf_app buffer more a b i :
  indexOf buffer a b = Some i -> indexOf (buffer ++ more) a b = Some i.
Proof.
  revert i. induction buffer as [|c rest IH]; intros i; [done|].
  destruct rest as [|d rest]; [done|].
  change (((c :: d :: rest) ++ more)) with (c :: ((d :: rest) ++ more)).
  change (indexOf (c :: (d :: rest) ++ more) a b)
    with (if Byte.eqb c a && Byte.eqb d b then Some 0
          else S <$> indexOf ((d :: rest) ++ more) a b).
  change (indexOf (c :: d :: rest) a b)
    with (if Byte.eqb c a && Byte.eqb d b then Some 0 else S <$> indexOf (d :: rest) a b).
  destruct (Byte.eqb c a && Byte.eqb d b); [done|].
  destruct (indexOf (d :: rest) a b) as [j|] eqn:Hj; [|done]. intros [= <-].
  by rewrite (IH j eq_refl).
Qed.

Lemma indexOf_from_app buffer more a b s i :
  s <= length buffer ->
  indexOf_from buffer a b s = Some i -> indexOf_from (buffer ++ more) a b s = Some i.
Proof.
  unfold indexOf_from. intros Hs.
  rewrite drop_app_le by done.
  destruct (indexOf (drop s buffer) a b) as [j|] eqn:Hj; [|done].
  intros [= <-]. by rewrite (indexOf_app _ _ _ _ _ Hj).
Qed.

Lemma indexOf_from_lt buffer a b s i :
  indexOf_from buffer a b s = Some i -> s <= i /\ i + 2 <= length buffer.
Proof.
  unfold indexOf_from.
  destruct (indexOf (drop s buffer) a b) as [j|] eqn:Hj; [|done].
  intros [= <-]. apply indexOf_lt in Hj. rewrite length_drop in Hj. lia.
Qed.

(** More turns than the buffer has bytes change nothing. *)
Lemma frames_loop_turns open turns turns' buffer :
  length buffer <= turns -> length buffer <= turns' ->
  frames_loop turns open buffer = frames_loop turns' open buffer.
Proof.
  revert turns' buffer. induction turns as [|turns IH]; intros turns' buffer Hn Hn'.
  - destruct buffer; [|simpl in Hn; lia]. by destruct turns'.
  - destruct turns' as [|turns'].
    { destruct buffer; [done|simpl in Hn'; lia]. }
    simpl.
    destruct (indexOf buffer Byte.xff Byte.xd8) as [s|] eqn:Hs; [|done].
    destruct (indexOf_from buffer Byte.xff Byte.xd9 s) as [e|] eqn:He; [|done].
    apply indexOf_from_lt in He as [_ He].
    rewrite (IH turns' (drop (e + 2) buffer)); [done| |]; rewrite length_drop; lia.
Qed.

Lemma frames_loop_app open turns turns' turns'' buffer more :
  length buffer <= turns -> length buffer + length more <= turns' ->
  length (frames_loop turns open buffer).2 + length more <= turns'' ->
  frames_loop turns' open (buffer ++ more)
  = let '(sent, rest) := frames_loop turns open buffer in
    let '(sent', rest') := frames_loop turns'' open (rest ++ more) in
    (sent ++ sent', rest').
Proof.
  revert turns' turns'' buffer.
  induction turns as [|turns IH]; intros turns' turns'' buffer Hn Hn' Hn''.
  - destruct buffer; [|simpl in Hn; lia]. simpl.
    rewrite (frames_loop_turns open turns' turns'' more) by (simpl in *; lia).
    by destruct (frames_loop turns'' open more).
  - simpl in Hn'' |- *.
    destruct (indexOf buffer Byte.xff Byte.xd8) as [s|] eqn:Hs.
    2:{ rewrite (frames_loop_turns open turns' turns'' (buffer ++ more))
          by (rewrite length_app; simpl in *; lia).
        by destruct (frames_loop turns'' open (buffer ++ more)). }
    destruct (indexOf_from buffer Byte.xff Byte.xd9 s) as [e|] eqn:He.
    2:{ rewrite (frames_loop_turns open turns' turns'' (buffer ++ more))
          by (rewrite length_app; simpl in *; lia).
        by destruct (frames_loop turns'' open (buffer ++ more)). }
    pose proof (indexOf_lt _ _ _ _ Hs) as Hslt.
    pose proof (indexOf_from_lt _ _ _ _ _ He) as [Hse Helt].
    destruct turns' as [|turns']; [lia|]. simpl.
    rewrite (indexOf_app _ more _ _ _ Hs).
    rewrite (indexOf_from_app buffer more _ _ s e ltac:(lia) He).
    rewrite drop_app_le by lia.
    specialize (IH turns' turns'' (drop (e + 2) buffer)).
    destruct (frames_loop turns open (drop (e + 2) buffer)) as [sent rest].
    rewrite IH by (rewrite ?length_drop; simpl in *; lia).
    destruct (frames_loop turns'' open (rest ++ more)) as [sent' rest'].
    f_equal. rewrite <- app_assoc. f_equal.
    unfold slice. rewrite drop_app_le by lia. rewrite take_app_le; [done|].
    rewrite length_drop. lia.
Qed.

Lemma frames_loop_rest_length open turns buffer :
  length (frames_loop turns open buffer).2 <= length buffer.
Proof.
  revert buffer. induction turns as [|turns IH]; intros buffer; [done|]. simpl.
  destruct (indexOf buffer Byte.xff Byte.xd8) as [s|]; [|done].
  destruct (indexOf_from buffer Byte.xff Byte.xd9 s) as [e|]; [|done].
  specialize (IH (drop (e + 2) buffer)).
  destruct (frames_loop turns open (drop (e + 2) buffer)) as [sent rest].
  simpl in *. rewrite length_drop in IH. lia.
Qed.

Lemma frames_loop_no_frame open turns buffer :
  complete_frame buffer = false -> frames_loop turns open buffer = ([], buffer).
Proof.
  unfold complete_frame. destruct turns as [|turns]; [done|]. simpl.
  destruct (indexOf buffer Byte.xff Byte.xd8) as [s|]; [|done].
  destruct (indexOf_from buffer Byte.xff Byte.xd9 s) as [e|]; [|done].
  intros H. apply bool_decide_eq_false in H. by destruct H.
Qed.

Lemma frames_loop_leftover open turns buffer :
  length buffer <= turns -> complete_frame (frames_loop turns open buffer).2 = false.
Proof.
  revert buffer. induction turns as [|turns IH]; intros buffer Hn.
  - by destruct buffer; [|simpl in Hn; lia].
  - simpl.
    destruct (indexOf buffer Byte.xff Byte.xd8) as [s|] eqn:Hs.
    2:{ simpl. unfold complete_frame. by rewrite Hs. }
    destruct (indexOf_from buffer Byte.xff Byte.xd9 s) as [e|] eqn:He.
    2:{ simpl. unfold complete_frame. rewrite Hs, He. apply bool_decide_eq_false.
        by intros [? ?]. }
    apply indexOf_from_lt in He as [_ He].
    specialize (IH (drop (e + 2) buffer)).
    destruct (frames_loop turns open (drop (e + 2) buffer)) as [sent rest].
    apply IH. rewrite length_drop. lia.
Qed.

Lemma frames_loop_suffix open turns buffer :
  (frames_loop turns open buffer).2 `suffix_of` buffer.
Proof.
  revert buffer. induction turns as [|turns IH]; intros buffer; [done|]. simpl.
  destruct (indexOf buffer Byte.xff Byte.xd8) as [s|]; [|done].
  destruct (indexOf_from buffer Byte.xff Byte.xd9 s) as [e|]; [|done].
  specialize (IH (drop (e + 2) buffer)).
  destruct (frames_loop turns open (drop (e + 2) buffer)) as [sent rest].
  simpl in *. etrans; [exact IH|]. apply suffix_drop.
Qed.

Lemma frames_loop_closed turns buffer :
  (frames_loop turns false buffer).1 = [] /\
  forall open, (frames_loop turns open buffer).2 = (frames_loop turns false buffer).2.
Proof.
  revert buffer. induction turns as [|turns IH]; intros buffer; [done|]. simpl.
  destruct (indexOf buffer Byte.xff Byte.xd8) as [s|]; [|done].
  destruct (indexOf_from buffer Byte.xff Byte.xd9 s) as [e|]; [|done].
  destruct (IH (drop (e + 2) buffer)) as [IH1 IH2].
  split.
  - by destruct (frames_loop turns false (drop (e + 2) buffer)) as [sent rest].
  - intros open. specialize (IH2 open).
    destruct (frames_loop turns open (drop (e + 2) buffer)) as [sent rest].
    by destruct (frames_loop turns false (drop (e + 2) buffer)) as [sent' rest'].
Qed.

Lemma indexOf_take buffer a b i n :
  indexOf buffer a b = Some i -> i + 2 <= n -> indexOf (take n buffer) a b = Some i.
Proof.
  revert i n. induction buffer as [|c rest IH]; intros i n; [done|].
  destruct rest as [|d rest]; [done|].
  change (indexOf (c :: d :: rest) a b)
    with (if Byte.eqb c a && Byte.eqb d b then Some 0 else S <$> indexOf (d :: rest) a b).
  destruct n as [|[|n]]; [lia|lia|].
  change (take (S (S n)) (c :: d :: rest)) with (c :: take (S n) (d :: rest)).
  change (take (S n) (d :: rest)) with (d :: take n rest) at 1.
  intros Hi Hn.
  change (indexOf (c :: d :: take n rest) a b)
    with (if Byte.eqb c a && Byte.eqb d b then Some 0
          else S <$> indexOf (take (S n) (d :: rest)) a b).
  destruct (Byte.eqb c a && Byte.eqb d b); [done|].
  destruct (indexOf (d :: rest) a b) as [j|] eqn:Hj; [|done].
  injection Hi as <-. by rewrite (IH j (S n) eq_refl) by lia.
Qed.

Lemma indexOf_drop buffer a b i :
  indexOf buffer a b = Some i -> indexOf (drop i buffer) a b = Some 0.
Proof.
  revert i. induction buffer as [|c rest IH]; intros i; [done|].
  destruct rest as [|d rest]; [done|].
  change (indexOf (c :: d :: rest) a b)
    with (if Byte.eqb c a && Byte.eqb d b then Some 0 else S <$> indexOf (d :: rest) a b).
  destruct (Byte.eqb c a && Byte.eqb d b) eqn:Hcd.
  - intros [= <-]. simpl. by rewrite Hcd.
  - destruct (indexOf (d :: rest) a b) as [j|] eqn:Hj; [|done].
    intros [= <-]. exact (IH j eq_refl).
Qed.

Lemma indexOf_head buffer a b :
  indexOf buffer a b = Some 0 -> take 2 buffer = [a; b].
Proof.
  destruct buffer as [|c [|d rest]]; [done|done|].
  change (indexOf (c :: d :: rest) a b)
    with (if Byte.eqb c a && Byte.eqb d b then Some 0 else S <$> indexOf (d :: rest) a b).
  destruct (Byte.eqb c a && Byte.eqb d b) eqn:Hcd.
  - apply andb_true_iff in Hcd as [Hc Hd].
    apply Byte.byte_dec_bl in Hc. apply Byte.byte_dec_bl in Hd. by subst.
  - by destruct (indexOf (d :: rest) a b).
Qed.

Lemma frames_loop_frames open turns buffer frame :
  frame ∈ (frames_loop turns open buffer).1 ->
  indexOf frame Byte.xff Byte.xd8 = Some 0 /\
  indexOf frame Byte.xff Byte.xd9 = Some (length frame - 2) /\ 4 <= length frame.
Proof.
  revert buffer. induction turns as [|turns IH]; intros buffer.
  { simpl. by intros ?%elem_of_nil. }
  simpl.
  destruct (indexOf buffer Byte.xff Byte.xd8) as [s|] eqn:Hs.
  2:{ simpl. by intros ?%elem_of_nil. }
  destruct (indexOf_from buffer Byte.xff Byte.xd9 s) as [e|] eqn:He.
  2:{ simpl. by intros ?%elem_of_nil. }
  specialize (IH (drop (e + 2) buffer)).
  destruct (frames_loop turns open (drop (e + 2) buffer)) as [sent rest].
  simpl in *. intros [Hin|Hin]%elem_of_app; [|by apply IH].
  destruct open; [|by apply elem_of_nil in Hin].
  apply list_elem_of_singleton in Hin as ->.
  unfold indexOf_from in He.
  destruct (indexOf (drop s buffer) Byte.xff Byte.xd9) as [j|] eqn:Hj; [|done].
  injection He as <-.
  pose proof (indexOf_drop _ _ _ _ Hs) as Hstart.
  pose proof (indexOf_lt _ _ _ _ Hj) as Hjlt.
  assert (2 <= j) as Hj2.
  { apply indexOf_head in Hstart.
    destruct (drop s buffer) as [|c [|d tail]]; [done|done|].
    injection Hstart as -> ->.
    change (indexOf (Byte.xff :: Byte.xd8 :: tail) Byte.xff Byte.xd9)
      with (S <$> indexOf (Byte.xd8 :: tail) Byte.xff Byte.xd9) in Hj.
    destruct tail as [|d' tail]; [done|].
    change (indexOf (Byte.xd8 :: d' :: tail) Byte.xff Byte.xd9)
      with (S <$> indexOf (d' :: tail) Byte.xff Byte.xd9) in Hj.
    destruct (indexOf (d' :: tail) Byte.xff Byte.xd9); simplify_eq/=; lia. }
  unfold slice. replace (s + j + 2 - s) with (j + 2) by lia.
  assert (length (take (j + 2) (drop s buffer)) = j + 2) as Hlen.
  { rewrite length_take. lia. }
  rewrite Hlen. replace (j + 2 - 2) with j by lia.
  split; [|split; [|lia]].
  - apply indexOf_take; [done|lia].
  - by apply indexOf_take.
Qed.

(** X24: the chunks of the stream may be cut anywhere: from a buffer that
    holds no complete frame, as the empty buffer of a connection, feeding
    them one by one sends the frames, and leaves the buffer, of feeding them
    in one piece. *)
Theorem on_chunks_concat (open : bool) (buffer : Buffer) (chunks : list Buffer) :
  complete_frame buffer = false ->
  on_chunks open buffer chunks = on_data open buffer (concat chunks).
Proof.
  revert buffer. induction chunks as [|chunk chunks IH]; intros buffer Hb.
  - unfold on_data. simpl. rewrite app_nil_r. by rewrite frames_loop_no_frame.
  - simpl. unfold on_data at 2. rewrite app_assoc.
    rewrite (frames_loop_app open (length (buffer ++ chunk))
               _ (length ((frames_loop (length (buffer ++ chunk)) open (buffer ++ chunk)).2
                          ++ concat chunks)));
      [|done|by rewrite !length_app|by rewrite !length_app].
    unfold on_data at 1.
    pose proof (frames_loop_leftover open (length (buffer ++ chunk)) (buffer ++ chunk)
                  ltac:(done)) as Hrest.
    destruct (frames_loop (length (buffer ++ chunk)) open (buffer ++ chunk)) as [sent rest].
    simpl in Hrest |- *. rewrite (IH rest Hrest). unfold on_data.
    by destruct (frames_loop (length (rest ++ concat chunks)) open (rest ++ concat chunks)).
Qed.

Lemma on_chunks_concat_witness :
  MjpegProxy.complete_frame [] = false /\
  MjpegProxy.on_chunks true [] three_chunks
  = MjpegProxy.on_data true [] (concat three_chunks) /\
  MjpegProxy.on_data true [] (concat three_chunks)
  = ([[Byte.xff; Byte.xd8; Byte.x01; Byte.x02; Byte.xff; Byte.xd9]], [Byte.xff; Byte.xd8]).
Proof.
  split; [reflexivity|].
  split; [apply (on_chunks_concat true [] three_chunks); reflexivity|].
  vm_compute. reflexivity.
Defined.

(** X25: a frame that is sent starts with the start marker FF D8 and ends
    with the first end marker FF D9 that follows: it holds no end marker
    before its last two bytes. *)
Theorem on_data_frames (open : bool) (buffer chunk frame : Buffer) :
  frame ∈ (on_data open buffer chunk).1 ->
  take 2 frame = [Byte.xff; Byte.xd8] /\
  indexOf frame Byte.xff Byte.xd9 = Some (length frame - 2) /\ 4 <= length frame.
Proof.
  intros Hin. apply frames_loop_frames in Hin as (Hs & He & Hlen).
  split; [by apply indexOf_head|done].
Qed.

Lemma on_data_frames_witness :
  cut_at_thumbnail ∈ (MjpegProxy.on_data true [] with_thumbnail).1 /\
  take 2 cut_at_thumbnail = [Byte.xff; Byte.xd8] /\
  MjpegProxy.indexOf cut_at_thumbnail Byte.xff Byte.xd9 = Some (length cut_at_thumbnail - 2) /\
  4 <= length cut_at_thumbnail.
Proof.
  assert (cut_at_thumbnail ∈ (MjpegProxy.on_data true [] with_thumbnail).1) as Hin.
  { vm_compute. apply list_elem_of_here. }
  split; [exact Hin|].
  exact (on_data_frames true [] with_thumbnail cut_at_thumbnail Hin).
Defined.

(** A frame that holds a smaller image is cut at the end marker of the
    smaller image; its last bytes stay in the buffer, before the frames to
    come. *)
Example on_data_thumbnail :
  MjpegProxy.on_data true [] with_thumbnail
  = ([cut_at_thumbnail], [Byte.x03; Byte.xff; Byte.xd9]).
Proof. vm_compute. reflexivity. Qed.

(** X26: what a ['data'] event leaves in the buffer is the end of the bytes
    received and holds no complete frame; it is the same whether the socket
    is open or not, and on a socket that is not open the frames are cut out
    and sent nowhere. *)
Theorem on_data_leftover (open : bool) (buffer chunk : Buffer) :
  (on_data open buffer chunk).2 `suffix_of` buffer ++ chunk /\
  complete_frame (on_data open buffer chunk).2 = false /\
  (on_data open buffer chunk).2 = (on_data false buffer chunk).2 /\
  (on_data false buffer chunk).1 = [].
Proof.
  unfold on_data. split; [apply frames_loop_suffix|].
  split; [by apply frames_loop_leftover|].
  split; [apply frames_loop_closed|apply frames_loop_closed].
Qed.

End MjpegProxyFacts.
